(** * go-ioc: a shallow embedding of the resolution engine

    The development follows the Go package [ioc]: the reflection helpers
    ([GetNamedSetter], [GetNamedInstance], [GetNamedType]), the scoped value
    store ([Values]), the [registry] with its [Registration]s, the recursion
    graph ([dependencyResolverGraph]), the [Container] and the
    [dependencyResolver].

    Go objects that are reached through pointers and mutated in place live
    in explicit heaps (finite maps from addresses); a Go function becomes a
    function in the state monad [M] over those heaps.  A computation that
    panics, blocks for ever on a mutex or does not return yields [None]. *)

From stdpp Require Import gmap strings list fin_maps.
From Stdlib Require Import ZArith.

Set Warnings "-register-all".

Abbreviation loc := nat.

(** ** Types: [reflect.Type] *)

(** The part of a Go type that the package inspects: its kind
    ([reflect.Ptr], [reflect.Interface] or anything else) and, for a pointer,
    its element type.  Types are compared by identity, here by name. *)
Inductive GoType :=
| TBasic (n : string)         (* int, string, a struct, ... *)
| TInterface (n : string)     (* an interface type *)
| TPtr (elem : GoType).       (* *elem *)

Fixpoint GoType_enc (t : GoType) : nat * (string + string) :=
  match t with
  | TBasic n => (0, inl n)
  | TInterface n => (0, inr n)
  | TPtr e => let '(d, l) := GoType_enc e in (S d, l)
  end.

Definition GoType_dec (p : nat * (string + string)) : GoType :=
  Nat.iter (fst p) TPtr
    (match snd p with inl n => TBasic n | inr n => TInterface n end).

#[global] Instance GoType_eq_dec : EqDecision GoType.
Proof. solve_decision. Defined.

#[global] Instance GoType_countable : Countable GoType.
Proof.
  refine (inj_countable' GoType_enc GoType_dec _).
  intros t. induction t as [n|n|e IH]; try reflexivity.
  unfold GoType_dec in *. simpl.
  destruct (GoType_enc e) as [d l]. simpl in *. by rewrite IH.
Defined.

(** A [reflect.Type] is an interface value: nil, or a type. *)
Abbreviation reflect_Type := (option GoType).

Inductive Kind := Ptr | Interface | OtherKind.

Definition Type_Kind (t : GoType) : Kind :=
  match t with
  | TPtr _ => Ptr
  | TInterface _ => Interface
  | TBasic _ => OtherKind
  end.

(** ** Errors (errors.go) *)

Inductive ErrorCode :=
| ErrInstanceNotFound
| ErrNilType
| ErrCreateInstanceNil
| ErrCreateInstance
| ErrUnresolvedDependency
| ErrUnsupportedLifetime
| ErrUnexpectedValueType
| ErrInterfaceNotImplemented
| ErrNilValue
| ErrNonSetNilPointer
| ErrRequirePointer
| ErrResolveInfiniteRecursion.

(** A Go [error]: the package's [*Error] (without the diagnostic fields
    Message, File, LineNo and Method, which [getCaller] fills from the call
    stack), or an error made outside the package ([fmt.Errorf]). *)
Inductive error :=
| Error (e_Type : reflect_Type) (e_Name : string) (e_OtherType : reflect_Type)
        (e_Code : ErrorCode) (e_Inner : option error)
| errorString (msg : string).

Definition Code (e : error) : option ErrorCode :=
  match e with
  | Error _ _ _ c _ => Some c
  | errorString _ => None
  end.

Definition errInstanceNotFound (typ : reflect_Type) (name : string) : error :=
  Error typ name None ErrInstanceNotFound None.
Definition errNilType (name : string) : error :=
  Error None name None ErrNilType None.
Definition errCreateInstanceFnNil (typ : reflect_Type) (name : string) : error :=
  Error typ name None ErrCreateInstanceNil None.
Definition errCreateInstance (typ : reflect_Type) (name : string) (err : error) : error :=
  Error typ name None ErrCreateInstance (Some err).
Definition errUnresolvedDependency (typ : reflect_Type) (name : string) : error :=
  Error typ name None ErrUnresolvedDependency None.
Definition errUnsupportedLifetime (typ : reflect_Type) (name : string) : error :=
  Error typ name None ErrUnsupportedLifetime None.
Definition errUnexpectedValueType (typ : reflect_Type) (name : string)
    (expectedType : reflect_Type) : error :=
  Error typ name expectedType ErrUnexpectedValueType None.
Definition errInterfaceNotImplemented (typ : reflect_Type) (name : string)
    (interfaceType : reflect_Type) : error :=
  Error typ name interfaceType ErrInterfaceNotImplemented None.
Definition errNilValue (typ : reflect_Type) (name : string) : error :=
  Error typ name None ErrNilValue None.
Definition errNonSetNilPointer (typ : reflect_Type) (name : string) : error :=
  Error typ name None ErrNonSetNilPointer None.
Definition errRequirePointer (typ : reflect_Type) (name : string) : error :=
  Error typ name None ErrRequirePointer None.
Definition errResolveInfiniteRecursion (typ : reflect_Type) (name : string) : error :=
  Error typ name None ErrResolveInfiniteRecursion None.

(** The two results of a Go function returning [(T, error)]. *)
Inductive result (A : Type) :=
| Ok (a : A)
| Err (e : error).
Arguments Ok {A} a.
Arguments Err {A} e.

(** ** Containers as values

    A [Container] never changes after [NewContainer] or [Scope] built it: its
    four fields are pointers that are never reassigned.  It is modelled by
    value, holding the addresses of its [Values], its [registry] and its
    instance cache; [c_root] is [None] for the root container itself. *)
Inductive Container := mkContainer {
  c_root : option Container;
  c_Values : loc;
  c_r : loc;
  c_instances : loc
}.

(** ** Go values and [reflect.Value] *)

Inductive Data :=
| DZero                                   (* the zero value of the type *)
| DInt (z : Z)
| DString (s : string)
| DContainer (c : Container)              (* a Container struct *)
| DResolver (c : Container) (g : loc).    (* a *dependencyResolver *)

(** What a Go variable holds. *)
Inductive GoValue :=
| VData (n : string) (d : Data)           (* a value of type [TBasic n] *)
| VPtr (elem : GoType) (p : option loc)   (* a [*elem]: nil or an address *)
| VIface (n : string) (v : option GoValue).
    (* a variable of interface type [n]: nil or its dynamic value *)

Definition typeof (v : GoValue) : GoType :=
  match v with
  | VData n _ => TBasic n
  | VPtr e _ => TPtr e
  | VIface n _ => TInterface n
  end.

Definition is_nil (v : GoValue) : bool :=
  match v with
  | VPtr _ None | VIface _ None => true
  | _ => false
  end.

Definition zero (t : GoType) : GoValue :=
  match t with
  | TBasic n => VData n DZero
  | TInterface n => VIface n None
  | TPtr e => VPtr e None
  end.

(** A [reflect.Value]: [Copy v] is what [reflect.ValueOf] returns, a value
    that is not addressable; [Ref t l] is what [Elem] returns on a pointer,
    the variable of type [t] at address [l], which is addressable and so can
    be set. *)
Inductive Value :=
| Copy (v : GoValue)
| Ref (t : GoType) (l : loc).

Definition Value_Type (rv : Value) : GoType :=
  match rv with
  | Copy v => typeof v
  | Ref t _ => t
  end.

Definition Value_Kind (rv : Value) : Kind := Type_Kind (Value_Type rv).

Definition Value_CanSet (rv : Value) : bool :=
  match rv with
  | Copy _ => false
  | Ref _ _ => true
  end.

(** ** Factory functions

    A [func(Factory) (interface{}, error)] is user code: it may declare
    variables, ask the [Factory] it was given to resolve further instances
    into them, read them back, and it ends by returning a value and an
    error.  Its body is kept as the tree of these steps; [FnResolveNamed]
    is a call [factory.ResolveNamed(v, name)] on the factory that was
    passed in. *)
Inductive FactoryFn :=
| FnReturn (v : option GoValue) (err : option error)
| FnVar (t : GoType) (k : loc → FactoryFn)
| FnResolveNamed (v : option GoValue) (name : string) (k : option error → FactoryFn)
| FnLoad (l : loc) (k : GoValue → FactoryFn).

(** ** The heap objects *)

(** [type Lifetime int] *)
Abbreviation Lifetime := Z (only parsing).
Definition PerContainer : Lifetime := 0.
Definition PerScope : Lifetime := 1.
Definition PerRequest : Lifetime := 2.

(** A [Registration] is not modified after it is built, so the
    [*Registration] pointers kept in registries are modelled by value:
    sharing a pointer is holding an equal record. *)
Record Registration := mkRegistration {
  r_Type : reflect_Type;
  r_Name : string;
  r_Value : option GoValue;
  r_CreateInstanceFn : option FactoryFn;
  r_Lifetime : Lifetime
}.

(** [Values]: the inner maps [map[string]*reflect.Value] are created by
    [set] and never leave the struct, so each is reachable from one entry of
    one outer map only and is nested by value.  The [sync.RWMutex] is taken
    and released around every map access and plays no part in a sequential
    run. *)
Record Values := mkValues {
  v_parent : option loc;
  v_instances : gmap reflect_Type (gmap string Value)
}.

(** [registry]: [clone] reads the inner maps of one registry to build
    another, which is where two registries could come to share a map; the
    inner maps are therefore kept in a heap of their own, and the outer map
    holds their addresses. *)
Record registry := mkRegistry {
  registrations : gmap reflect_Type loc
}.

(** [dependencyResolverGraph]: [g_m] tells whether the mutex is held. *)
Record dependencyResolverGraph := mkGraph {
  g_m : bool;
  g_lookup : gmap reflect_Type (gmap string Z)
}.

Record State := mkState {
  mem : gmap loc GoValue;                        (* Go variables *)
  values : gmap loc Values;                      (* *Values *)
  registries : gmap loc registry;                (* *registry *)
  named : gmap loc (gmap string Registration);   (* inner maps of registries *)
  graphs : gmap loc dependencyResolverGraph;     (* *dependencyResolverGraph *)
  RecursionLimit : Z                             (* var RecursionLimit int *)
}.

Definition state_upd_mem (f : gmap loc GoValue → gmap loc GoValue) (s : State) : State :=
  mkState (f (mem s)) (values s) (registries s) (named s) (graphs s) (RecursionLimit s).
Definition state_upd_values (f : gmap loc Values → gmap loc Values) (s : State) : State :=
  mkState (mem s) (f (values s)) (registries s) (named s) (graphs s) (RecursionLimit s).
Definition state_upd_registries (f : gmap loc registry → gmap loc registry) (s : State) : State :=
  mkState (mem s) (values s) (f (registries s)) (named s) (graphs s) (RecursionLimit s).
Definition state_upd_named
    (f : gmap loc (gmap string Registration) → gmap loc (gmap string Registration))
    (s : State) : State :=
  mkState (mem s) (values s) (registries s) (f (named s)) (graphs s) (RecursionLimit s).
Definition state_upd_graphs
    (f : gmap loc dependencyResolverGraph → gmap loc dependencyResolverGraph)
    (s : State) : State :=
  mkState (mem s) (values s) (registries s) (named s) (f (graphs s)) (RecursionLimit s).

Definition empty_state (limit : Z) : State := mkState ∅ ∅ ∅ ∅ ∅ limit.

(** ** The state monad *)

Definition M (A : Type) : Type := State → option (A * State).

Definition ret {A} (a : A) : M A := λ s, Some (a, s).

Definition bind {A B} (m : M A) (k : A → M B) : M B :=
  λ s, match m s with
       | Some (a, s') => k a s'
       | None => None
       end.

(** A run-time panic, or a call that never returns. *)
Definition panic {A} : M A := λ _, None.

Definition gets {A} (f : State → A) : M A := λ s, Some (f s, s).
Definition modify (f : State → State) : M unit := λ s, Some (tt, f s).

(** A pointer that is followed: the object must be there. *)
Definition deref {A} (o : option A) : M A :=
  match o with
  | Some a => ret a
  | None => panic
  end.

Notation "x <- m ;; k" := (bind m (λ x, k))
  (at level 100, m at next level, right associativity,
   format "'[v' x  <-  m  ;;  '/' k ']'").
Notation "m ;;; k" := (bind m (λ _, k))
  (at level 100, right associativity).

(** Go's [int] is 64 bits wide on the platforms the package targets. *)
Definition int_wrap (z : Z) : Z := ((z + 2 ^ 63) mod 2 ^ 64 - 2 ^ 63)%Z.
Definition int_add (a b : Z) : Z := int_wrap (a + b).

(** ** Allocation

    A new object gets an address above every address in use in its heap. *)
Definition fresh_loc {A} (h : gmap loc A) : loc :=
  S (max_list (elements (dom h))).

(** [dependencyResolver]: the container it proxies and the address of the
    graph it shares with the resolvers derived from it. *)
Record dependencyResolver := newDependencyResolver {
  dr_c : Container;
  dr_g : loc
}.

Section ioc.

(** [reflect.Type.Implements], which belongs to Go's library: whether a
    type has the methods of an interface type. *)
Variable Implements : GoType → GoType → bool.

(** ** The operations of package [reflect] that the code calls *)

Definition load (l : loc) : M GoValue :=
  m <- gets mem ;; deref (m !! l).

Definition store (l : loc) (v : GoValue) : M unit :=
  load l ;;; modify (state_upd_mem <[l:=v]>).

Definition alloc (v : GoValue) : M loc :=
  m <- gets mem ;;
  let l := fresh_loc m in
  modify (state_upd_mem <[l:=v]>) ;;; ret l.

Definition reflect_ValueOf (v : GoValue) : Value := Copy v.

Definition Value_read (rv : Value) : M GoValue :=
  match rv with
  | Copy v => ret v
  | Ref _ l => load l
  end.

Definition Value_IsNil (rv : Value) : M bool :=
  v <- Value_read rv ;; ret (is_nil v).

(** [Elem] on a non-nil pointer: the variable it points to.  The code never
    calls it on anything else. *)
Definition Value_Elem (rv : Value) : M Value :=
  v <- Value_read rv ;;
  match Value_Type rv, v with
  | TPtr e, VPtr _ (Some p) => ret (Ref e p)
  | _, _ => panic
  end.

(** [reflect.New(t)]: a pointer to a new zero variable of type [t]. *)
Definition reflect_New (t : GoType) : M Value :=
  l <- alloc (zero t) ;; ret (Copy (VPtr t (Some l))).

Definition dynamic (v : GoValue) : option GoValue :=
  match v with
  | VIface _ d => d
  | _ => Some v
  end.

(** Assignment of [v] to a variable of type [t]: the types are identical, or
    [t] is an interface type that the type of [v] implements and the
    variable holds its dynamic value. *)
Definition assign (t : GoType) (v : GoValue) : option GoValue :=
  if decide (typeof v = t) then Some v
  else match t with
       | TInterface n =>
           if Implements (typeof v) t then Some (VIface n (dynamic v)) else None
       | _ => None
       end.

(** [rv.Set(x)] panics when [rv] cannot be set or [x] cannot be assigned. *)
Definition Value_Set (rv x : Value) : M unit :=
  match rv with
  | Copy _ => panic
  | Ref t l => v <- Value_read x ;; w <- deref (assign t v) ;; store l w
  end.

(** ** The reflection helpers *)

(** The loop [for rv.Kind() == reflect.Ptr] of [GetNamedSetter], followed by
    the final [CanSet] test.  [t] is [rv.Type()]: every turn replaces [rv] by
    [rv.Elem()], whose type is the element type. *)
Fixpoint GetNamedSetter_loop (t : GoType) (rv : Value) (name : string)
    : M (result Value) :=
  match t with
  | TPtr e =>
      isnil <- Value_IsNil rv ;;
      if isnil then
        if negb (Value_CanSet rv) then
          ret (Err (errNonSetNilPointer (Some (Value_Type rv)) name))
        else
          p <- reflect_New e ;;
          Value_Set rv p ;;;
          rv' <- Value_Elem rv ;;
          GetNamedSetter_loop e rv' name
      else
        rv' <- Value_Elem rv ;;
        GetNamedSetter_loop e rv' name
  | _ =>
      if negb (Value_CanSet rv) then
        ret (Err (errRequirePointer (Some (Value_Type rv)) name))
      else ret (Ok rv)
  end.

(** [v] is an [interface{}]: [None] is nil, for which [reflect.TypeOf] is
    nil. *)
Definition GetNamedSetter (v : option GoValue) (name : string) : M (result Value) :=
  match v with
  | None => ret (Err (errNilType name))
  | Some x =>
      let rv := reflect_ValueOf x in
      GetNamedSetter_loop (Value_Type rv) rv name
  end.

Definition nil_ptr_or_iface (rv : Value) : M bool :=
  match Value_Kind rv with
  | Ptr | Interface => Value_IsNil rv
  | OtherKind => ret false
  end.

(** The loop of [GetNamedInstance], entered with [t = rv.Type()]. *)
Fixpoint GetNamedInstance_loop (t : GoType) (rv : Value) (name : string)
    : M (result Value) :=
  match t with
  | TPtr e =>
      rv' <- Value_Elem rv ;;
      isnil <- nil_ptr_or_iface rv' ;;
      if isnil then ret (Err (errNilValue (Some (Value_Type rv')) name))
      else GetNamedInstance_loop e rv' name
  | _ => ret (Ok rv)
  end.

Definition GetNamedInstance (v : option GoValue) (name : string) : M (result Value) :=
  match v with
  | None => ret (Err (errNilType name))
  | Some x =>
      let rv := reflect_ValueOf x in
      isnil <- nil_ptr_or_iface rv ;;
      if isnil then ret (Err (errNilValue (Some (Value_Type rv)) name))
      else GetNamedInstance_loop (Value_Type rv) rv name
  end.

(** [for typ.Elem().Kind() == reflect.Ptr { typ = typ.Elem() }; typ.Elem()] *)
Fixpoint GetNamedType_loop (elem : GoType) : GoType :=
  match elem with
  | TPtr e => GetNamedType_loop e
  | _ => elem
  end.

Definition GetNamedType (v : option GoValue) (name : string) : result GoType :=
  match v with
  | None => Err (errNilType name)
  | Some x =>
      match typeof x with
      | TPtr e => Ok (GetNamedType_loop e)
      | typ => Err (errRequirePointer (Some typ) name)
      end
  end.

(** ** Values (values.go) *)

Definition NewValuesScope (parent : option loc) : M loc :=
  vs <- gets values ;;
  let l := fresh_loc vs in
  modify (state_upd_values <[l:=mkValues parent ∅]>) ;;; ret l.

Definition NewValues : M loc := NewValuesScope None.

(** [named[name]] on the inner map of [typ], nil when either is missing. *)
Definition Values_get (v : loc) (typ : reflect_Type) (name : string)
    : M (option Value) :=
  vs <- gets values ;;
  this <- deref (vs !! v) ;;
  ret (match v_instances this !! typ with
       | Some named => named !! name
       | None => None
       end).

(** The loop [for parent != nil] of [getParent].  A walk that takes more
    turns than there are addresses has come back to a store it has already
    visited without finding the instance: Go's loop then never ends, and
    the walk runs out of [fuel]. *)
Fixpoint getParent_loop (fuel : nat) (parent : option loc)
    (typ : reflect_Type) (name : string) : M (option Value) :=
  match parent with
  | None => ret None
  | Some p =>
      match fuel with
      | O => panic
      | S fuel' =>
          instance <- Values_get p typ name ;;
          match instance with
          | Some i => ret (Some i)
          | None =>
              vs <- gets values ;;
              pv <- deref (vs !! p) ;;
              getParent_loop fuel' (v_parent pv) typ name
          end
      end
  end.

Definition Values_getParent (v : loc) (typ : reflect_Type) (name : string)
    : M (option Value) :=
  vs <- gets values ;;
  this <- deref (vs !! v) ;;
  getParent_loop (fresh_loc vs) (v_parent this) typ name.

Definition Values_set (v : loc) (typ : reflect_Type) (name : string)
    (instance : Value) : M unit :=
  vs <- gets values ;;
  this <- deref (vs !! v) ;;
  let instances :=
    match v_instances this !! typ with
    | Some named => <[typ:=<[name:=instance]> named]> (v_instances this)
    | None => <[typ:={[name:=instance]}]> (v_instances this)
    end in
  modify (state_upd_values <[v:=mkValues (v_parent this) instances]>).

Definition Values_GetNamed (v : loc) (x : option GoValue) (name : string)
    : M (option error) :=
  setter <- GetNamedSetter x name ;;
  match setter with
  | Err err => ret (Some err)
  | Ok instanceSetter =>
      let typ := Some (Value_Type instanceSetter) in
      instance <- Values_get v typ name ;;
      instance <- match instance with
                  | Some i => ret (Some i)
                  | None => Values_getParent v typ name
                  end ;;
      match instance with
      | None => ret (Some (errInstanceNotFound typ name))
      | Some i => Value_Set instanceSetter i ;;; ret None
      end
  end.

Definition Values_SetNamed (v : loc) (x : option GoValue) (name : string)
    : M (option error) :=
  instance <- GetNamedInstance x name ;;
  match instance with
  | Err err => ret (Some err)
  | Ok instance =>
      Values_set v (Some (Value_Type instance)) name instance ;;; ret None
  end.

(** ** registry (errors.go) *)

Definition newRegistry : M loc :=
  rs <- gets registries ;;
  let l := fresh_loc rs in
  modify (state_upd_registries <[l:=mkRegistry ∅]>) ;;; ret l.

Definition registry_get (r : loc) (typ : reflect_Type) (name : string)
    : M (option Registration) :=
  rs <- gets registries ;;
  this <- deref (rs !! r) ;;
  match registrations this !! typ with
  | Some ref =>
      ns <- gets named ;;
      named <- deref (ns !! ref) ;;
      ret (named !! name)
  | None => ret None
  end.

Definition registry_set (r : loc) (typ : reflect_Type) (name : string)
    (registration : Registration) : M unit :=
  rs <- gets registries ;;
  this <- deref (rs !! r) ;;
  ns <- gets named ;;
  match registrations this !! typ with
  | Some ref =>
      named <- deref (ns !! ref) ;;
      modify (state_upd_named <[ref:=<[name:=registration]> named]>)
  | None =>
      let ref := fresh_loc ns in
      modify (state_upd_named <[ref:={[name:=registration]}]>) ;;;
      modify (state_upd_registries
                <[r:=mkRegistry (<[typ:=ref]> (registrations this))]>)
  end.

(** One turn of the outer loop of [clone]: a new inner map receives the
    entries of [named], and the clone's outer map receives its address. *)
Definition clone_entry (clone : loc) (k : reflect_Type) (ref : loc) : M unit :=
  ns <- gets named ;;
  named <- deref (ns !! ref) ;;
  let namedClone :=
    map_fold (λ name registration acc, <[name:=registration]> acc) ∅ named in
  let ref' := fresh_loc ns in
  modify (state_upd_named <[ref':=namedClone]>) ;;;
  rs <- gets registries ;;
  c <- deref (rs !! clone) ;;
  modify (state_upd_registries
            <[clone:=mkRegistry (<[k:=ref']> (registrations c))]>).

Definition registry_clone (r : loc) : M loc :=
  rs <- gets registries ;;
  this <- deref (rs !! r) ;;
  clone <- newRegistry ;;
  map_fold (λ k ref rest, rest ;;; clone_entry clone k ref) (ret tt)
           (registrations this) ;;;
  ret clone.

(** ** The recursion graph (resolver) *)

Definition newDependencyResolverGraph : M loc :=
  gs <- gets graphs ;;
  let l := fresh_loc gs in
  modify (state_upd_graphs <[l:=mkGraph false ∅]>) ;;; ret l.

Definition get_graph (g : loc) : M dependencyResolverGraph :=
  gs <- gets graphs ;; deref (gs !! g).

(** [g.m.Lock()]: a [sync.Mutex] is not reentrant, and in a sequential run
    nobody else can release it, so locking a held mutex never returns. *)
Definition graph_Lock (g : loc) : M unit :=
  this <- get_graph g ;;
  if g_m this then panic
  else modify (state_upd_graphs <[g:=mkGraph true (g_lookup this)]>).

Definition graph_Unlock (g : loc) : M unit :=
  this <- get_graph g ;;
  modify (state_upd_graphs <[g:=mkGraph false (g_lookup this)]>).

Definition graph_store (g : loc) (lookup : gmap reflect_Type (gmap string Z)) : M unit :=
  this <- get_graph g ;;
  modify (state_upd_graphs <[g:=mkGraph (g_m this) lookup]>).

Definition track (g : loc) (typ : reflect_Type) (name : string) : M bool :=
  graph_Lock g ;;;
  this <- get_graph g ;;
  match g_lookup this !! typ with
  | Some named =>
      match named !! name with
      | Some count =>
          let count := int_add count 1 in
          limit <- gets RecursionLimit ;;
          if (limit <=? count)%Z then
            ret false
          else
            graph_store g (<[typ:=<[name:=count]> named]> (g_lookup this)) ;;;
            graph_Unlock g ;;; ret true
      | None =>
          graph_store g (<[typ:=<[name:=1%Z]> named]> (g_lookup this)) ;;;
          graph_Unlock g ;;; ret true
      end
  | None =>
      graph_store g (<[typ:={[name:=1%Z]}]> (g_lookup this)) ;;;
      graph_Unlock g ;;; ret true
  end.

(** ** Registration.CreateInstance (errors.go) *)

(** Running the body of a factory function that received [factory];
    [ResolveNamed] is the method of the factory it calls back. *)
Fixpoint call_factory
    (ResolveNamed : dependencyResolver → option GoValue → string → M (option error))
    (fn : FactoryFn) (factory : dependencyResolver)
    : M (option GoValue * option error) :=
  match fn with
  | FnReturn v err => ret (v, err)
  | FnVar t k =>
      l <- alloc (zero t) ;; call_factory ResolveNamed (k l) factory
  | FnResolveNamed v name k =>
      err <- ResolveNamed factory v name ;;
      call_factory ResolveNamed (k err) factory
  | FnLoad l k =>
      x <- load l ;; call_factory ResolveNamed (k x) factory
  end.

Section resolve.

(** The [ResolveNamed] that factory functions call back; the resolver ties
    the knot below. *)
Variable ResolveNamed :
  dependencyResolver → option GoValue → string → M (option error).

Definition CreateInstance (r : Registration) (factory : dependencyResolver)
    : M (result Value) :=
  match r_CreateInstanceFn r with
  | None => ret (Err (errCreateInstanceFnNil (r_Type r) (r_Name r)))
  | Some fn =>
      out <- call_factory ResolveNamed fn factory ;;
      let '(instance, err) := out in
      match err with
      | Some err => ret (Err (errCreateInstance (r_Type r) (r_Name r) err))
      | None =>
          rv <- GetNamedInstance instance (r_Name r) ;;
          match rv with
          | Err err => ret (Err err)
          | Ok rv =>
              let typ := Value_Type rv in
              if decide (Some typ = r_Type r) then ret (Ok rv)
              else
                match r_Type r, instance with
                | Some (TInterface i), Some x =>
                    let typ := typeof x in
                    if negb (Implements typ (TInterface i)) then
                      ret (Err (errInterfaceNotImplemented (Some typ) (r_Name r) (r_Type r)))
                    else ret (Ok (reflect_ValueOf x))
                | Some (TInterface _), None => panic
                | _, _ =>
                    ret (Err (errUnexpectedValueType (Some typ) (r_Name r) (r_Type r)))
                end
          end
      end
  end.

(** ** The lifetimes (resolver) *)

Definition resolveSingletonLifetime (resolver : dependencyResolver)
    (registration : Registration) : M (result Value) :=
  instance <- Values_get (c_instances (dr_c resolver))
                (r_Type registration) (r_Name registration) ;;
  match instance with
  | Some instance => ret (Ok instance)
  | None =>
      ok <- track (dr_g resolver) (r_Type registration) (r_Name registration) ;;
      if negb ok then
        ret (Err (errResolveInfiniteRecursion (r_Type registration) (r_Name registration)))
      else
        res <- CreateInstance registration resolver ;;
        match res with
        | Err err => ret (Err err)
        | Ok instance =>
            Values_set (c_instances (dr_c resolver))
              (r_Type registration) (r_Name registration) instance ;;;
            ret (Ok instance)
        end
  end.

Definition resolvePerRequestLifetime (resolver : dependencyResolver)
    (registration : Registration) : M (result Value) :=
  ok <- track (dr_g resolver) (r_Type registration) (r_Name registration) ;;
  if negb ok then
    ret (Err (errResolveInfiniteRecursion (r_Type registration) (r_Name registration)))
  else CreateInstance registration resolver.

End resolve.

(** ** The resolver (resolver) *)

Definition typeContainer : GoType := TBasic "ioc.Container".
Definition typeFactory : GoType := TInterface "ioc.Factory".

(** [reflect.ValueOf(resolver.c).Elem()]: the Container struct itself. *)
Definition Container_value (c : Container) : Value :=
  Copy (VData "ioc.Container" (DContainer c)).

(** [reflect.ValueOf(factory)] for [var factory Factory = resolver]. *)
Definition resolver_value (resolver : dependencyResolver) : Value :=
  Copy (VData "*ioc.dependencyResolver"
          (DResolver (dr_c resolver) (dr_g resolver))).

Definition root_of (c : Container) : Container :=
  match c_root c with
  | Some root => root
  | None => c
  end.

(** [dependencyResolver.ResolveNamed].  A factory function may call it
    again, to any depth: [fuel] bounds the depth of these nested calls, and
    a run that needs more has no result. *)
Fixpoint resolver_ResolveNamed (fuel : nat) (resolver : dependencyResolver)
    (v : option GoValue) (name : string) : M (option error) :=
  match fuel with
  | O => panic
  | S fuel' =>
      let nested := resolver_ResolveNamed fuel' in
      setter <- GetNamedSetter v name ;;
      match setter with
      | Err err => ret (Some err)
      | Ok instanceSetter =>
          let typ := Value_Type instanceSetter in
          if decide (name = "" ∧ typ = typeContainer) then
            Value_Set instanceSetter (Container_value (dr_c resolver)) ;;;
            ret None
          else if decide (name = "" ∧ typ = typeFactory) then
            Value_Set instanceSetter (resolver_value resolver) ;;;
            ret None
          else
            (* get the registration *)
            registration <- registry_get (c_r (dr_c resolver)) (Some typ) name ;;
            match registration with
            | None =>
                (* try to resolve using the scoped container values *)
                instance <- Values_get (c_Values (dr_c resolver)) (Some typ) name ;;
                match instance with
                | Some instance =>
                    Value_Set instanceSetter instance ;;; ret None
                | None => ret (Some (errUnresolvedDependency (Some typ) name))
                end
            | Some registration =>
                res <-
                  (if decide (r_Lifetime registration = PerContainer) then
                     let resolver1 :=
                       match c_root (dr_c resolver) with
                       | Some root => newDependencyResolver root (dr_g resolver)
                       | None => resolver
                       end in
                     resolveSingletonLifetime nested resolver1 registration
                   else if decide (r_Lifetime registration = PerScope) then
                     resolveSingletonLifetime nested resolver registration
                   else if decide (r_Lifetime registration = PerRequest) then
                     resolvePerRequestLifetime nested resolver registration
                   else
                     ret (Err (errUnsupportedLifetime (r_Type registration)
                                 (r_Name registration)))) ;;
                match res with
                | Err err => ret (Some err)
                | Ok instance =>
                    Value_Set instanceSetter instance ;;; ret None
                end
            end
      end
  end.

(** ** Container (container) *)

Definition NewContainer : M Container :=
  v <- NewValues ;;
  r <- newRegistry ;;
  instances <- NewValues ;;
  ret (mkContainer None v r instances).

Definition Scope (c : Container) : M Container :=
  let root := root_of c in
  v <- NewValuesScope (Some (c_Values c)) ;;
  r <- registry_clone (c_r c) ;;
  instances <- NewValues ;;
  ret (mkContainer (Some root) v r instances).

Definition RegisterNamed (c : Container) (createInstance : option FactoryFn)
    (implType : option GoValue) (name : string) (lifetime : Lifetime)
    : M (option error) :=
  match GetNamedType implType name with
  | Err err => ret (Some err)
  | Ok typ =>
      match createInstance with
      | None => ret (Some (errCreateInstanceFnNil (Some typ) name))
      | Some fn =>
          let registration :=
            mkRegistration (Some typ) name None (Some fn) lifetime in
          if decide (lifetime ≠ PerContainer ∧ lifetime ≠ PerScope
                     ∧ lifetime ≠ PerRequest) then
            ret (Some (errUnsupportedLifetime (r_Type registration)
                         (r_Name registration)))
          else
            registry_set (c_r c) (Some typ) name registration ;;; ret None
      end
  end.

Definition RegisterNamedInstance (c : Container) (v : option GoValue)
    (name : string) : M (option error) :=
  instance <- GetNamedInstance v name ;;
  match instance with
  | Err err => ret (Some err)
  | Ok instance =>
      let typ := Value_Type instance in
      let createInstance := FnReturn v None in
      let registration :=
        mkRegistration (Some typ) name v (Some createInstance) PerContainer in
      registry_set (c_r c) (Some typ) name registration ;;;
      let root := root_of c in
      Values_set (c_instances root) (Some typ) name instance ;;;
      ret None
  end.

(** [Container.ResolveNamed]: a new graph for every call. *)
Definition Container_ResolveNamed (fuel : nat) (c : Container)
    (v : option GoValue) (name : string) : M (option error) :=
  g <- newDependencyResolverGraph ;;
  resolver_ResolveNamed fuel (newDependencyResolver c g) v name.

(** ** The rest of the API

    The remaining methods are defined from the ones above.  *)

(** [if err != nil { panic(err) }], the body of the Must variants. *)
Definition must (m : M (option error)) : M unit :=
  err <- m ;;
  match err with
  | Some _ => panic
  | None => ret tt
  end.

(** values.go *)
Definition Values_Get (v : loc) (x : option GoValue) : M (option error) :=
  Values_GetNamed v x "".
Definition Values_MustGet (v : loc) (x : option GoValue) : M unit :=
  must (Values_Get v x).
Definition Values_MustGetNamed (v : loc) (x : option GoValue) (name : string) : M unit :=
  must (Values_GetNamed v x name).
Definition Values_Set (v : loc) (x : option GoValue) : M (option error) :=
  Values_SetNamed v x "".
Definition Values_MustSet (v : loc) (x : option GoValue) : M unit :=
  must (Values_Set v x).
Definition Values_MustSetNamed (v : loc) (x : option GoValue) (name : string) : M unit :=
  must (Values_SetNamed v x name).
Definition Values_ResolveNamed (v : loc) (x : option GoValue) (name : string)
    : M (option error) :=
  Values_GetNamed v x name.

(** [registry.getAll].  Go leaves the order of a [range] over a map open;
    here the entries come in the order of [map_fold], and what is proved
    about the result does not depend on it. *)
Definition registry_getAll (r : loc) : M (list Registration) :=
  rs <- gets registries ;;
  this <- deref (rs !! r) ;;
  map_fold (λ _ ref rest,
              registrations <- rest ;;
              ns <- gets named ;;
              named <- deref (ns !! ref) ;;
              ret (map_fold (λ _ registration acc, acc ++ [registration])
                            registrations named))
           (ret []) (registrations this).

(** Container *)
Definition Registrations (c : Container) : M (list Registration) :=
  registry_getAll (c_r c).

Definition Register (c : Container) (createInstance : option FactoryFn)
    (implType : option GoValue) (lifetime : Lifetime) : M (option error) :=
  RegisterNamed c createInstance implType "" lifetime.
Definition MustRegister (c : Container) (createInstance : option FactoryFn)
    (implType : option GoValue) (lifetime : Lifetime) : M unit :=
  must (Register c createInstance implType lifetime).
Definition MustRegisterNamed (c : Container) (createInstance : option FactoryFn)
    (implType : option GoValue) (name : string) (lifetime : Lifetime) : M unit :=
  must (RegisterNamed c createInstance implType name lifetime).

Definition RegisterInstance (c : Container) (v : option GoValue) : M (option error) :=
  RegisterNamedInstance c v "".
Definition MustRegisterInstance (c : Container) (v : option GoValue) : M unit :=
  must (RegisterInstance c v).
Definition MustRegisterNamedInstance (c : Container) (v : option GoValue)
    (name : string) : M unit :=
  must (RegisterNamedInstance c v name).

Definition Container_Resolve (fuel : nat) (c : Container) (v : option GoValue)
    : M (option error) :=
  Container_ResolveNamed fuel c v "".
Definition Container_MustResolve (fuel : nat) (c : Container) (v : option GoValue)
    : M unit :=
  must (Container_Resolve fuel c v).
Definition Container_MustResolveNamed (fuel : nat) (c : Container)
    (v : option GoValue) (name : string) : M unit :=
  must (Container_ResolveNamed fuel c v name).

(** ** The package-level helpers

    [factory] is a value of the interface [Factory]; it is given by its one
    method, [ResolveNamed]. *)
Fixpoint Resolve (factory : option GoValue → string → M (option error))
    (instances : list (option GoValue)) : M (option error) :=
  match instances with
  | [] => ret None
  | instance :: instances =>
      err <- factory instance "" ;;
      match err with
      | Some err => ret (Some err)
      | None => Resolve factory instances
      end
  end.

Definition MustResolve (factory : option GoValue → string → M (option error))
    (instances : list (option GoValue)) : M unit :=
  must (Resolve factory instances).

End ioc.
(** * Properties *)

Ltac munfold :=
  unfold deref in *; unfold bind, ret, gets, modify, panic in *.

(** ** The recursion graph *)

(** The count recorded for a key, and the map with a count recorded. *)
Definition count_of (G : dependencyResolverGraph) (typ : reflect_Type)
    (name : string) : option Z :=
  match g_lookup G !! typ with
  | Some named => named !! name
  | None => None
  end.

Definition set_count (lookup : gmap reflect_Type (gmap string Z))
    (typ : reflect_Type) (name : string) (count : Z)
    : gmap reflect_Type (gmap string Z) :=
  <[typ:=<[name:=count]> (default ∅ (lookup !! typ))]> lookup.

Definition put_graph (g : loc) (G : dependencyResolverGraph) (s : State) : State :=
  state_upd_graphs <[g:=G]> s.

(** Whether [track] refuses a key: never on the first attempt. *)
Definition limit_hit (s : State) (G : dependencyResolverGraph)
    (typ : reflect_Type) (name : string) : bool :=
  match count_of G typ name with
  | Some n => (RecursionLimit s <=? int_add n 1)%Z
  | None => false
  end.

Definition next_count (G : dependencyResolverGraph) (typ : reflect_Type)
    (name : string) : Z :=
  match count_of G typ name with
  | Some n => int_add n 1
  | None => 1
  end.

(** The state [track] leaves behind: on refusal the counts are as they were
    and the mutex is held. *)
Definition tracked (s : State) (g : loc) (G : dependencyResolverGraph)
    (typ : reflect_Type) (name : string) : State :=
  if limit_hit s G typ name then put_graph g (mkGraph true (g_lookup G)) s
  else put_graph g
         (mkGraph false (set_count (g_lookup G) typ name (next_count G typ name))) s.


(** What [CreateInstance] returns once the factory gave [x] and
    [GetNamedInstance] turned it into [rv]. *)
Definition CreateInstance_result (Implements : GoType → GoType → bool)
    (r : Registration) (x : GoValue) (rv : Value) : result Value :=
  if decide (Some (Value_Type rv) = r_Type r) then Ok rv
  else match r_Type r with
       | Some (TInterface i) =>
           if Implements (typeof x) (TInterface i) then Ok (Copy x)
           else Err (errInterfaceNotImplemented (Some (typeof x)) (r_Name r) (r_Type r))
       | _ => Err (errUnexpectedValueType (Some (Value_Type rv)) (r_Name r) (r_Type r))
       end.


(** ** Sample data *)

Definition tint : GoType := TBasic "int".
Definition tstring : GoType := TBasic "string".

(** Nothing implements anything: the strictest [Implements]. *)
Definition implements_nothing : GoType → GoType → bool := λ _ _, false.

(** A factory that is never asked to resolve. *)
Definition no_nested : dependencyResolver → option GoValue → string → M (option error) :=
  λ _ _ _, panic.

(** A state holding one released graph at address 1. *)
Definition graph_state (limit : Z) (lookup : gmap reflect_Type (gmap string Z)) : State :=
  state_upd_graphs <[1:=mkGraph false lookup]> (empty_state limit).

(** [m[typ][name]] in a two-level Go map. *)
Definition lookup2 {A} (m : gmap reflect_Type (gmap string A))
    (typ : reflect_Type) (name : string) : option A :=
  match m !! typ with
  | Some named => named !! name
  | None => None
  end.

(** What a singleton resolution does with the outcome of [CreateInstance]. *)
Definition cache_result (cache : loc) (registration : Registration)
    (res : result Value) : M (result Value) :=
  match res with
  | Err err => ret (Err err)
  | Ok instance =>
      Values_set cache (r_Type registration) (r_Name registration) instance ;;;
      ret (Ok instance)
  end.

Definition int_value (z : Z) : GoValue := VData "int" (DInt z).

(** A registration of (int, "") whose factory returns [z]. *)
Definition int_registration (z : Z) (lifetime : Lifetime) : Registration :=
  mkRegistration (Some tint) "" None
    (Some (FnReturn (Some (int_value z)) None)) lifetime.

(** A resolver on a root container, sharing the graph at address 1. *)
Definition sample_resolver : dependencyResolver :=
  newDependencyResolver (mkContainer None 1 1 2) 1.

(** ** The scoped value store *)

(** [m[typ][name] = x], creating the inner map when it is missing. *)
Definition insert2 {A} (m : gmap reflect_Type (gmap string A))
    (typ : reflect_Type) (name : string) (x : A) : gmap reflect_Type (gmap string A) :=
  <[typ:=<[name:=x]> (default ∅ (m !! typ))]> m.

(** The stores are built by [NewValuesScope]: the parent of a store exists
    and was allocated before it. *)
Definition values_wf (s : State) : Prop :=
  ∀ l V p, values s !! l = Some V → v_parent V = Some p →
           p < l ∧ is_Some (values s !! p).

(** [ancestor s v a]: the store [a] is on the parent chain of the store [v]. *)
Inductive ancestor (s : State) : loc → loc → Prop :=
| ancestor_parent v V p :
    values s !! v = Some V → v_parent V = Some p → ancestor s v p
| ancestor_step v V p a :
    values s !! v = Some V → v_parent V = Some p → ancestor s p a →
    ancestor s v a.

(** The state after [Values_set]. *)
Definition with_instance (s : State) (v : loc) (V : Values)
    (typ : reflect_Type) (name : string) (instance : Value) : State :=
  state_upd_values
    <[v:=mkValues (v_parent V) (insert2 (v_instances V) typ name instance)]> s.

(** The state after [NewValuesScope]. *)
Definition with_store (s : State) (parent : option loc) : State :=
  state_upd_values <[fresh_loc (values s):=mkValues parent ∅]> s.

(** A root store at address 1 binding (int, "") to 1, and a store at
    address 2 scoped from it. *)
Definition sample_stores : State :=
  with_store
    (with_instance (with_store (empty_state 30) None) 1 (mkValues None ∅)
       (Some tint) "" (Copy (int_value 1)))
    (Some 1).

(** ** Targets of a resolution *)

(** [chain s t l]: the variable at [l] holds a value of type [t], and so do,
    each for its element type, the variables reached from it through
    pointers that are not nil. *)
Inductive chain (s : State) : GoType → loc → Prop :=
| chain_end t l x :
    Type_Kind t ≠ Ptr → mem s !! l = Some x → chain s t l
| chain_nil e l :
    mem s !! l = Some (VPtr e None) → chain s (TPtr e) l
| chain_ptr e l l' :
    mem s !! l = Some (VPtr e (Some l')) → chain s e l' → chain s (TPtr e) l.

(** [leads s t l t' l']: from the variable of type [t] at [l], going through
    pointers that are not nil, one arrives at the variable of type [t'] at
    [l']. *)
Inductive leads (s : State) : GoType → loc → GoType → loc → Prop :=
| leads_here t l : leads s t l t l
| leads_on e l p t' l' :
    mem s !! l = Some (VPtr e (Some p)) → leads s e p t' l' →
    leads s (TPtr e) l t' l'.

(** [settled s t l rv]: from the variable at [l] every pointer is set, and
    the last one points at the variable [rv]. *)
Fixpoint settled (s : State) (t : GoType) (l : loc) (rv : Value) : Prop :=
  match t with
  | TPtr e => ∃ l', mem s !! l = Some (VPtr e (Some l')) ∧ settled s e l' rv
  | _ => rv = Ref t l ∧ is_Some (mem s !! l)
  end.

(** [filled s s']: [s'] is [s] where some nil pointers were set to the
    addresses of new variables; a new variable holds the zero value of its
    type or, when that is a pointer, the address of a further new variable. *)
Definition filled (s s' : State) : Prop :=
  values s' = values s ∧ registries s' = registries s ∧ named s' = named s
  ∧ graphs s' = graphs s ∧ RecursionLimit s' = RecursionLimit s
  ∧ (∀ a x, mem s !! a = Some x →
       mem s' !! a = Some x
       ∨ ∃ e l', x = VPtr e None ∧ mem s' !! a = Some (VPtr e (Some l'))
                 ∧ mem s !! l' = None)
  ∧ (∀ a x, mem s !! a = None → mem s' !! a = Some x →
       x = zero (typeof x)
       ∨ ∃ e l', x = VPtr e (Some l') ∧ mem s !! l' = None).

(** ** Lookups through the parent chain *)

(** [bound s typ name v i]: going up from the store [v], the first store
    that holds the key holds [i] for it. *)
Inductive bound (s : State) (typ : reflect_Type) (name : string)
    : loc → Value → Prop :=
| bound_here v V i :
    values s !! v = Some V → lookup2 (v_instances V) typ name = Some i →
    bound s typ name v i
| bound_above v V p i :
    values s !! v = Some V → lookup2 (v_instances V) typ name = None →
    v_parent V = Some p → bound s typ name p i →
    bound s typ name v i.

(** [unbound s typ name v]: neither [v] nor a store above it holds the key. *)
Definition unbound (s : State) (typ : reflect_Type) (name : string) (v : loc) : Prop :=
  ∀ a A, a = v ∨ ancestor s v a → values s !! a = Some A →
         lookup2 (v_instances A) typ name = None.

(** The variable at [l] receives [w]. *)
Definition with_var (s : State) (l : loc) (w : GoValue) : State :=
  state_upd_mem <[l:=w]> s.

(** Everything but the Go variables is the same in both states. *)
Definition same_objects (s s' : State) : Prop :=
  values s' = values s ∧ registries s' = registries s ∧ named s' = named s
  ∧ graphs s' = graphs s ∧ RecursionLimit s' = RecursionLimit s.

(** ** Registries *)

(** [r.registrations[typ][name]], read off the heaps. *)
Definition registered (s : State) (r : loc) (typ : reflect_Type) (name : string)
    : option Registration :=
  R ← registries s !! r;
  ref ← registrations R !! typ;
  inner ← named s !! ref;
  inner !! name.

(** The registries are well formed: the inner map of every entry exists,
    and no inner map is reached through two entries, be it of one registry
    or of two. *)
Definition registries_wf (s : State) : Prop :=
  (∀ r R typ ref, registries s !! r = Some R → registrations R !! typ = Some ref →
     is_Some (named s !! ref))
  ∧ (∀ r1 R1 typ1 r2 R2 typ2 ref,
       registries s !! r1 = Some R1 → registrations R1 !! typ1 = Some ref →
       registries s !! r2 = Some R2 → registrations R2 !! typ2 = Some ref →
       r1 = r2 ∧ typ1 = typ2).

(** Only the registries may differ between the two states. *)
Definition same_but_registries (s s' : State) : Prop :=
  mem s' = mem s ∧ values s' = values s ∧ graphs s' = graphs s
  ∧ RecursionLimit s' = RecursionLimit s.

(** A registry at address 1 holding a registration for (int, ""). *)
Definition sample_registry : State :=
  state_upd_named <[1:={["" := int_registration 1 PerScope]}]>
    (state_upd_registries <[1:=mkRegistry {[Some tint := 1]}]> (empty_state 30)).

(** ** Resolution *)

(** The keys that [ResolveNamed] answers by itself. *)
Definition reserved (t : GoType) (name : string) : Prop :=
  name = "" ∧ (t = typeContainer ∨ t = typeFactory).

(** The state after [newDependencyResolverGraph]. *)
Definition with_graph (s : State) : State :=
  state_upd_graphs <[fresh_loc (graphs s):=mkGraph false ∅]> s.

(** [sample_stores] with an empty registry at address 1: the root container
    [mkContainer None 1 1 3] and the container [sample_scope] scoped from
    it, whose own store is empty. *)
Definition sample_containers : State :=
  state_upd_values <[4:=mkValues None ∅]>
    (state_upd_values <[3:=mkValues None ∅]>
       (state_upd_registries <[2:=mkRegistry ∅]>
          (state_upd_registries <[1:=mkRegistry ∅]>
             (with_var sample_stores 1 (int_value 0))))).

Definition sample_root : Container := mkContainer None 1 1 3.
Definition sample_scope : Container := mkContainer (Some sample_root) 2 2 4.

(** A registration for the key ([typeof x], [name]) whose factory returns
    [x] and resolves nothing. *)
Definition returns (reg : Registration) (x : GoValue) (name : string) : Prop :=
  r_Type reg = Some (typeof x) ∧ r_Name reg = name
  ∧ r_CreateInstanceFn reg = Some (FnReturn (Some x) None).

(** The store in which a singleton of the given lifetime is kept when it is
    resolved through the container [c]. *)
Definition cache_of (c : Container) (lifetime : Z) : loc :=
  if decide (lifetime = PerContainer) then c_instances (root_of c)
  else c_instances c.

(** [sample_containers] after [reg] was registered for ([t], "") on the
    root container and the scope was derived: both registries hold the
    registration, each in an inner map of its own. *)
Definition sample_keyed (t : GoType) (reg : Registration) : State :=
  state_upd_named
    (λ _, {[1 := {["" := reg]}; 2 := {["" := reg]}]})
    (state_upd_registries
       (λ _, {[1 := mkRegistry {[Some t := 1]};
               2 := mkRegistry {[Some t := 2]}]})
       sample_containers).

Definition sample_with (reg : Registration) : State := sample_keyed tint reg.

(** The registration is a factory returning the int 7. *)
Definition sample_registered (lifetime : Z) : State :=
  sample_with (int_registration 7 lifetime).

(** [n] calls of [track] in a row for the same key, with their results. *)
Fixpoint tracks (n : nat) (g : loc) (typ : reflect_Type) (name : string)
    : M (list bool) :=
  match n with
  | O => ret []
  | S n =>
      ok <- track g typ name ;;
      oks <- tracks n g typ name ;;
      ret (ok :: oks)
  end.

(** A factory that resolves the key it is registered for:
    [var v T; if err := f.ResolveNamed(&v, name); err != nil { return nil, err };
     return v, nil]. *)
Definition resolve_self (t : GoType) (name : string) : FactoryFn :=
  FnVar t (λ v,
    FnResolveNamed (Some (VPtr t (Some v))) name (λ err,
      match err with
      | Some e => FnReturn None (Some e)
      | None => FnLoad v (λ x, FnReturn (Some x) None)
      end)).

(** The state keeps its stores, its registries and its limit, and every
    variable it had. *)
Definition grows (s s' : State) : Prop :=
  values s' = values s ∧ registries s' = registries s ∧ named s' = named s
  ∧ RecursionLimit s' = RecursionLimit s
  ∧ ∀ a x, mem s !! a = Some x → mem s' !! a = Some x.

(** The registration is a per-request factory that resolves (int, ""). *)
Definition sample_self : State :=
  sample_with (mkRegistration (Some tint) "" None (Some (resolve_self tint "")) PerRequest).

(** The registration is a per-scope factory that fails. *)
Definition sample_failing : State :=
  sample_with (mkRegistration (Some tint) "" None
                 (Some (FnReturn None (Some (errorString "no instance")))) PerScope).



(** A factory that resolves a dependency and fails all the same:
    [var v T; f.ResolveNamed(&v, dep); return nil, cause]. *)
Definition fail_after (t : GoType) (dep : string) (cause : error) : FactoryFn :=
  FnVar t (λ v,
    FnResolveNamed (Some (VPtr t (Some v))) dep (λ _, FnReturn None (Some cause))).

(** The registration for (int, "") is a per-scope factory that resolves
    (int, "dep"), which the Values of the scoped container hold, and
    fails. *)
Definition sample_failing_dependency : State :=
  state_upd_values
    <[2:=mkValues (Some 1) {[Some tint := {["dep" := Copy (int_value 5)]}]}]>
    (sample_with (mkRegistration (Some tint) "" None
                    (Some (fail_after tint "dep" (errorString "no instance")))
                    PerScope)).

(** An interface and the one type that implements it. *)
Definition twriter : GoType := TInterface "Writer".
Definition tfile : GoType := TBasic "File".
Definition implements_writer : GoType → GoType → bool :=
  λ a b, bool_decide (a = tfile ∧ b = twriter).

(** The registration is a per-request factory for the interface that
    returns a File; the variable at address 2 is of the interface type. *)
Definition sample_interface : State :=
  with_var
    (sample_keyed twriter
       (mkRegistration (Some twriter) "" None
          (Some (FnReturn (Some (VData "File" (DInt 1))) None)) PerRequest))
    2 (VIface "Writer" None).

(** The registration for (int, "") is a factory that resolves (int, "dep"),
    which only the Values of the scoped container hold. *)
Definition dependent (lifetime : Z) : Registration :=
  mkRegistration (Some tint) "" None (Some (resolve_self tint "dep")) lifetime.

Definition scope_values : Values :=
  mkValues (Some 1) {[Some tint := {["dep" := Copy (int_value 5)]}]}.
Definition root_values : Values :=
  mkValues None (insert2 ∅ (Some tint) "" (Copy (int_value 1))).

Definition sample_dependency (lifetime : Z) : State :=
  state_upd_values <[2:=scope_values]> (sample_with (dependent lifetime)).

Lemma track_eq s g typ name G :
  graphs s !! g = Some G → g_m G = false →
  track g typ name s = Some (negb (limit_hit s G typ name), tracked s g G typ name).
Proof.
  intros Hg Hm. destruct s as [me vs rs ns gs lim].
  unfold track, graph_Lock, graph_store, graph_Unlock, get_graph, tracked,
    limit_hit, next_count, count_of, set_count, put_graph, state_upd_graphs.
  munfold. cbn in *. rewrite Hg. cbn. rewrite Hm. cbn.
  rewrite lookup_insert_eq. cbn.
  destruct (g_lookup G !! typ) as [named|] eqn:Ht; cbn.
  - destruct (named !! name) as [n|] eqn:Hn; cbn.
    + destruct (lim <=? int_add n 1)%Z; cbn; [reflexivity|].
      rewrite !lookup_insert_eq. cbn. rewrite !lookup_insert_eq. cbn.
      rewrite !insert_insert_eq. reflexivity.
    + rewrite !lookup_insert_eq. cbn. rewrite !lookup_insert_eq. cbn.
      rewrite !insert_insert_eq. reflexivity.
  - rewrite !lookup_insert_eq. cbn. rewrite !lookup_insert_eq. cbn.
    rewrite !insert_insert_eq. reflexivity.
Qed.

Lemma track_locked s g typ name G :
  graphs s !! g = Some G → g_m G = true → track g typ name s = None.
Proof.
  intros Hg Hm. unfold track, graph_Lock, get_graph. munfold.
  rewrite Hg. by rewrite Hm.
Qed.

Lemma tracked_graph s g G typ name :
  graphs (tracked s g G typ name) !! g =
    Some (if limit_hit s G typ name then mkGraph true (g_lookup G)
          else mkGraph false (set_count (g_lookup G) typ name (next_count G typ name))).
Proof.
  unfold tracked, put_graph, state_upd_graphs.
  destruct (limit_hit s G typ name); cbn; by rewrite lookup_insert_eq.
Qed.

Lemma count_of_set_count m lookup typ name count :
  count_of (mkGraph m (set_count lookup typ name count)) typ name = Some count.
Proof.
  unfold count_of, set_count. cbn. rewrite lookup_insert_eq.
  by rewrite lookup_insert_eq.
Qed.

Lemma tracked_frame s g G typ name :
  let s' := tracked s g G typ name in
  mem s' = mem s ∧ values s' = values s ∧ registries s' = registries s
  ∧ named s' = named s ∧ RecursionLimit s' = RecursionLimit s.
Proof.
  unfold tracked, put_graph, state_upd_graphs.
  by destruct (limit_hit s G typ name).
Qed.

(** ** The state monad and the reflection helpers *)

Lemma bind_Some {A B} (m : M A) (k : A → M B) s r :
  bind m k s = Some r ↔ ∃ a s1, m s = Some (a, s1) ∧ k a s1 = Some r.
Proof.
  unfold bind. split.
  - destruct (m s) as [[a s1]|]; [eauto | discriminate].
  - intros (a & s1 & -> & H). exact H.
Qed.

Lemma load_Some l s x s' :
  load l s = Some (x, s') ↔ mem s !! l = Some x ∧ s' = s.
Proof.
  unfold load. munfold. destruct (mem s !! l) as [y|]; split.
  - intros [= -> ->]. done.
  - intros [[= ->] ->]. done.
  - discriminate.
  - intros [[=] _].
Qed.

Lemma Value_read_Some rv s x s' :
  Value_read rv s = Some (x, s') →
  s' = s ∧ match rv with Copy v => x = v | Ref _ l => mem s !! l = Some x end.
Proof.
  destruct rv as [v|t l]; unfold Value_read.
  - unfold ret. intros [= -> ->]. done.
  - rewrite load_Some. intros [? ->]. done.
Qed.

Lemma Value_IsNil_Some rv s b s' :
  Value_IsNil rv s = Some (b, s') →
  s' = s ∧ ∃ x, Value_read rv s = Some (x, s) ∧ b = is_nil x.
Proof.
  unfold Value_IsNil. rewrite bind_Some. intros (x & s1 & Hr & Hk).
  pose proof (Value_read_Some _ _ _ _ Hr) as [-> _].
  unfold ret in Hk. naive_solver.
Qed.

Lemma Value_IsNil_Ref t l s x :
  mem s !! l = Some x → Value_IsNil (Ref t l) s = Some (is_nil x, s).
Proof.
  intros Hl. unfold Value_IsNil, Value_read, load. munfold. by rewrite Hl.
Qed.

Lemma Value_Elem_Some rv s rv' s' :
  Value_Elem rv s = Some (rv', s') →
  s' = s ∧ ∃ e e' p, Value_Type rv = TPtr e ∧ rv' = Ref e p
           ∧ Value_read rv s = Some (VPtr e' (Some p), s).
Proof.
  unfold Value_Elem. rewrite bind_Some. intros (x & s1 & Hr & Hk).
  pose proof (Value_read_Some _ _ _ _ Hr) as [-> _].
  destruct (Value_Type rv) as [| |e]; try discriminate.
  destruct x as [| e' [p|] |]; try discriminate.
  unfold ret in Hk. naive_solver.
Qed.

Lemma nil_ptr_or_iface_Some rv s b s' :
  nil_ptr_or_iface rv s = Some (b, s') → s' = s.
Proof.
  unfold nil_ptr_or_iface. destruct (Value_Kind rv).
  - intros H. by apply Value_IsNil_Some in H as [-> _].
  - intros H. by apply Value_IsNil_Some in H as [-> _].
  - unfold ret. naive_solver.
Qed.

(** [GetNamedInstance] only reads, and the one error of its loop is
    [ErrNilValue]. *)
Lemma GetNamedInstance_loop_Some t rv name s r s' :
  GetNamedInstance_loop t rv name s = Some (r, s') →
  s' = s ∧ match r with
           | Ok rv' => True
           | Err e => ∃ t', e = errNilValue (Some t') name
           end.
Proof.
  revert rv. induction t as [n|n|e IH]; intros rv; cbn.
  - unfold ret. intros [= <- <-]. done.
  - unfold ret. intros [= <- <-]. done.
  - rewrite bind_Some. intros (rv' & s1 & He & Hk).
    apply Value_Elem_Some in He as [-> _].
    apply bind_Some in Hk as (b & s1 & Hn & Hk).
    apply nil_ptr_or_iface_Some in Hn as ->.
    destruct b.
    + unfold ret in Hk. injection Hk as <- <-. eauto.
    + by apply IH in Hk.
Qed.

Lemma GetNamedInstance_Some v name s r s' :
  GetNamedInstance v name s = Some (r, s') →
  s' = s ∧ match r with
           | Ok rv' => is_Some v
           | Err e => (v = None ∧ e = errNilType name)
                      ∨ (is_Some v ∧ ∃ t', e = errNilValue (Some t') name)
           end.
Proof.
  destruct v as [x|]; cbn.
  - rewrite bind_Some. intros (b & s1 & Hn & Hk).
    apply nil_ptr_or_iface_Some in Hn as ->.
    destruct b.
    + unfold ret in Hk. injection Hk as <- <-. eauto 10.
    + apply GetNamedInstance_loop_Some in Hk as [-> Hr].
      destruct r; eauto.
  - unfold ret. intros [= <- <-]. eauto.
Qed.

(** A nil pointer or nil interface handed to [GetNamedInstance]. *)
Lemma GetNamedInstance_nil x name s :
  is_nil x = true →
  GetNamedInstance (Some x) name s = Some (Err (errNilValue (Some (typeof x)) name), s).
Proof.
  intros Hnil. unfold GetNamedInstance, nil_ptr_or_iface, reflect_ValueOf, Value_Kind.
  destruct x as [n d|e [p|]|n [d|]]; try discriminate; reflexivity.
Qed.


(** A value that is not a pointer is its own instance. *)
Lemma GetNamedInstance_value x name s :
  Type_Kind (typeof x) ≠ Ptr → is_nil x = false →
  GetNamedInstance (Some x) name s = Some (Ok (Copy x), s).
Proof. intros Hk Hnil. destruct x as [n d|e p|n [d|]]; try done. Qed.

Lemma GetNamedInstance_loop_kind t rv name s rv' s' :
  Value_Type rv = t →
  GetNamedInstance_loop t rv name s = Some (Ok rv', s') →
  Value_Kind rv' ≠ Ptr.
Proof.
  revert rv. induction t as [n|n|e IH]; intros rv Ht; cbn.
  - unfold ret. intros [= <- <-]. unfold Value_Kind. by rewrite Ht.
  - unfold ret. intros [= <- <-]. unfold Value_Kind. by rewrite Ht.
  - rewrite bind_Some. intros (rv1 & s1 & He & Hk).
    apply Value_Elem_Some in He as [-> (e1 & e2 & p & Hty & -> & _)].
    rewrite Ht in Hty. injection Hty as <-.
    apply bind_Some in Hk as (b & s1 & Hn & Hk).
    apply nil_ptr_or_iface_Some in Hn as ->.
    destruct b; [discriminate|].
    by apply IH in Hk.
Qed.

(** The instance [GetNamedInstance] returns is fully dereferenced. *)
Lemma GetNamedInstance_kind v name s rv s' :
  GetNamedInstance v name s = Some (Ok rv, s') → Value_Kind rv ≠ Ptr.
Proof.
  destruct v as [x|]; cbn; [|discriminate].
  rewrite bind_Some. intros (b & s1 & Hn & Hk).
  destruct b; [discriminate|].
  by apply GetNamedInstance_loop_kind in Hk.
Qed.

(** ** Registration.CreateInstance *)

Lemma CreateInstance_no_factory I nested r factory s :
  r_CreateInstanceFn r = None →
  CreateInstance I nested r factory s
  = Some (Err (errCreateInstanceFnNil (r_Type r) (r_Name r)), s).
Proof. intros H. unfold CreateInstance. by rewrite H. Qed.

Lemma CreateInstance_eq I nested r factory s fn instance err s1 :
  r_CreateInstanceFn r = Some fn →
  call_factory nested fn factory s = Some ((instance, err), s1) →
  CreateInstance I nested r factory s =
    match err with
    | Some cause => Some (Err (errCreateInstance (r_Type r) (r_Name r) cause), s1)
    | None =>
        match GetNamedInstance instance (r_Name r) s1, instance with
        | Some (Err e, s2), _ => Some (Err e, s2)
        | Some (Ok rv, s2), Some x => Some (CreateInstance_result I r x rv, s2)
        | _, _ => None
        end
    end.
Proof.
  intros Hfn Hcall. unfold CreateInstance. rewrite Hfn.
  unfold bind at 1. rewrite Hcall.
  destruct err as [cause|]; [reflexivity|].
  unfold bind.
  destruct (GetNamedInstance instance (r_Name r) s1) as [[[rv|e] s2]|] eqn:Hg;
    [|reflexivity|reflexivity].
  apply GetNamedInstance_Some in Hg as [-> [x ->]].
  unfold CreateInstance_result.
  destruct (decide (Some (Value_Type rv) = r_Type r)); [reflexivity|].
  destruct (r_Type r) as [[| i |]|]; try reflexivity.
  by destruct (I (typeof x) (TInterface i)).
Qed.


(** ** The recursion check *)

(** C9 (the code does not do this): after [track] on a released graph the
    mutex is held exactly when [track] returned false; it is released only on
    the paths that return true, and after a refusal a further [track] on the
    same graph never returns. *)
Theorem track_mutex s g typ name G :
  graphs s !! g = Some G → g_m G = false →
  ∃ ok s' G',
    track g typ name s = Some (ok, s')
    ∧ graphs s' !! g = Some G'
    ∧ g_m G' = negb ok
    ∧ (ok = false → track g typ name s' = None).
Proof.
  intros Hg Hm. rewrite (track_eq _ _ _ _ _ Hg Hm).
  eexists _, _, _. split; [reflexivity|].
  split; [apply tracked_graph|].
  destruct (limit_hit s G typ name) eqn:Hhit; cbn; split; try done.
  intros _. eapply track_locked; [apply tracked_graph|]. by rewrite Hhit.
Qed.

(** With a limit of 2 and a count of 1 for (int, ""), [track] returns false
    and leaves the mutex held. *)
Lemma track_mutex_witness :
  ∃ s' G',
    track 1 (Some tint) "" (graph_state 2 {[Some tint := {["" := 1%Z]}]}) = Some (false, s')
    ∧ graphs s' !! 1 = Some G' ∧ g_m G' = true
    ∧ track 1 (Some tint) "" s' = None.
Proof.
  destruct (track_mutex (graph_state 2 {[Some tint := {["" := 1%Z]}]}) 1
              (Some tint) "" (mkGraph false {[Some tint := {["" := 1%Z]}]}))
    as (ok & s' & G' & Ht & Hg & Hm & Hagain); [reflexivity|reflexivity|].
  assert (ok = false) as ->.
  { vm_compute in Ht. by injection Ht as <- _. }
  exists s', G'. split; [exact Ht|]. split; [exact Hg|]. split; [exact Hm|].
  by apply Hagain.
Defined.

Lemma Values_get_Some v typ name s r s' :
  Values_get v typ name s = Some (r, s') ↔
  ∃ V, values s !! v = Some V ∧ s' = s ∧ r = lookup2 (v_instances V) typ name.
Proof.
  unfold Values_get, lookup2. munfold. destruct (values s !! v) as [V|]; split.
  - intros [= <- <-]. eauto.
  - intros (V' & [= <-] & -> & ->). done.
  - discriminate.
  - intros (V' & [=] & _).
Qed.

Lemma resolvePerRequestLifetime_eq I nested resolver reg s G :
  graphs s !! dr_g resolver = Some G → g_m G = false →
  resolvePerRequestLifetime I nested resolver reg s =
    let s1 := tracked s (dr_g resolver) G (r_Type reg) (r_Name reg) in
    if limit_hit s G (r_Type reg) (r_Name reg)
    then Some (Err (errResolveInfiniteRecursion (r_Type reg) (r_Name reg)), s1)
    else CreateInstance I nested reg resolver s1.
Proof.
  intros Hg Hm. unfold resolvePerRequestLifetime. unfold bind at 1.
  rewrite (track_eq _ _ _ _ _ Hg Hm).
  by destruct (limit_hit s G (r_Type reg) (r_Name reg)).
Qed.

Lemma resolveSingletonLifetime_hit I nested resolver reg s instance :
  Values_get (c_instances (dr_c resolver)) (r_Type reg) (r_Name reg) s
    = Some (Some instance, s) →
  resolveSingletonLifetime I nested resolver reg s = Some (Ok instance, s).
Proof.
  intros Hget. unfold resolveSingletonLifetime. unfold bind at 1. by rewrite Hget.
Qed.

Lemma resolveSingletonLifetime_miss I nested resolver reg s G :
  Values_get (c_instances (dr_c resolver)) (r_Type reg) (r_Name reg) s
    = Some (None, s) →
  graphs s !! dr_g resolver = Some G → g_m G = false →
  resolveSingletonLifetime I nested resolver reg s =
    let s1 := tracked s (dr_g resolver) G (r_Type reg) (r_Name reg) in
    if limit_hit s G (r_Type reg) (r_Name reg)
    then Some (Err (errResolveInfiniteRecursion (r_Type reg) (r_Name reg)), s1)
    else bind (CreateInstance I nested reg resolver)
              (cache_result (c_instances (dr_c resolver)) reg) s1.
Proof.
  intros Hget Hg Hm. unfold resolveSingletonLifetime. unfold bind at 1.
  rewrite Hget. unfold bind at 1. rewrite (track_eq _ _ _ _ _ Hg Hm).
  destruct (limit_hit s G (r_Type reg) (r_Name reg)); [reflexivity|].
  cbn. unfold bind at 1. unfold bind at 2.
  destruct (CreateInstance I nested reg resolver _) as [[[i|e] s2]|]; reflexivity.
Qed.





(** The loop of [GetNamedInstance] on a pointer to a variable from which
    non-nil pointers lead to the variable [l']: the answer depends on what
    [l'] holds. *)
Lemma GetNamedInstance_loop_leads s t l t' l' w name :
  leads s t l t' l' → mem s !! l' = Some w →
  ∀ rv, Value_Type rv = TPtr t → Value_read rv s = Some (VPtr t (Some l), s) →
  (typeof w = t' → is_nil w = true →
     GetNamedInstance_loop (TPtr t) rv name s
     = Some (Err (errNilValue (Some t') name), s))
  ∧ (Type_Kind t' ≠ Ptr → is_nil w = false →
     GetNamedInstance_loop (TPtr t) rv name s = Some (Ok (Ref t' l'), s)).
Proof.
  intros Hleads Hw. induction Hleads as [t l|e l p t' l' Hl Hleads IH];
    intros rv Hty Hread.
  - assert (Value_Elem rv s = Some (Ref t l, s)) as Helem.
    { unfold Value_Elem, bind. by rewrite Hread, Hty. }
    split.
    + intros Htw Hnil. cbn [GetNamedInstance_loop].
      unfold bind at 1. rewrite Helem. unfold bind at 1.
      assert (nil_ptr_or_iface (Ref t l) s = Some (true, s)) as ->; [|reflexivity].
      unfold nil_ptr_or_iface, Value_Kind. cbn [Value_Type].
      rewrite <- Htw.
      destruct w as [n d|e [p|]|n [d|]]; try discriminate; cbn [typeof Type_Kind];
        by rewrite (Value_IsNil_Ref _ _ _ _ Hw).
    + intros Hk Hnil. cbn [GetNamedInstance_loop].
      unfold bind at 1. rewrite Helem. unfold bind at 1.
      assert (nil_ptr_or_iface (Ref t l) s = Some (false, s)) as ->.
      { unfold nil_ptr_or_iface, Value_Kind. cbn [Value_Type].
        destruct (Type_Kind t) eqn:Hkt; [done| |reflexivity].
        rewrite (Value_IsNil_Ref _ _ _ _ Hw). by rewrite Hnil. }
      by destruct t.
  - assert (Value_Elem rv s = Some (Ref (TPtr e) l, s)) as Helem.
    { unfold Value_Elem, bind. by rewrite Hread, Hty. }
    assert (nil_ptr_or_iface (Ref (TPtr e) l) s = Some (false, s)) as Hnn.
    { unfold nil_ptr_or_iface, Value_Kind. cbn [Value_Type Type_Kind].
      by rewrite (Value_IsNil_Ref _ _ _ _ Hl). }
    assert (Value_read (Ref (TPtr e) l) s = Some (VPtr e (Some p), s)) as Hread'.
    { unfold Value_read. by apply load_Some. }
    destruct (IH Hw (Ref (TPtr e) l) eq_refl Hread') as [IHnil IHok].
    split.
    + intros Htw Hnil. change (GetNamedInstance_loop (TPtr (TPtr e)) rv name s)
        with ((rv' <- Value_Elem rv ;;
               isnil <- nil_ptr_or_iface rv' ;;
               if isnil then ret (Err (errNilValue (Some (Value_Type rv')) name))
               else GetNamedInstance_loop (TPtr e) rv' name) s).
      unfold bind at 1. rewrite Helem. unfold bind at 1. rewrite Hnn.
      by apply IHnil.
    + intros Hk Hnil. change (GetNamedInstance_loop (TPtr (TPtr e)) rv name s)
        with ((rv' <- Value_Elem rv ;;
               isnil <- nil_ptr_or_iface rv' ;;
               if isnil then ret (Err (errNilValue (Some (Value_Type rv')) name))
               else GetNamedInstance_loop (TPtr e) rv' name) s).
      unfold bind at 1. rewrite Helem. unfold bind at 1. rewrite Hnn.
      by apply IHok.
Qed.

(** [GetNamedInstance] on a pointer that is not nil. *)
Lemma GetNamedInstance_leads s t l t' l' w name :
  leads s t l t' l' → mem s !! l' = Some w →
  (typeof w = t' → is_nil w = true →
     GetNamedInstance (Some (VPtr t (Some l))) name s
     = Some (Err (errNilValue (Some t') name), s))
  ∧ (Type_Kind t' ≠ Ptr → is_nil w = false →
     GetNamedInstance (Some (VPtr t (Some l))) name s = Some (Ok (Ref t' l'), s)).
Proof.
  intros Hleads Hw.
  destruct (GetNamedInstance_loop_leads s t l t' l' w name Hleads Hw
              (Copy (VPtr t (Some l))) eq_refl eq_refl) as [Hnil Hok].
  split; intros; [by apply Hnil | by apply Hok].
Qed.

(** C5 (as amended): [CreateInstance] fails with CreateInstanceNil when no
    factory is attached; wraps an error of the factory as CreateInstanceFailed
    carrying the cause; fails with NilType when the factory returns nil, and
    with NilValue when it returns a nil pointer, or a pointer from which
    pointers that are not nil lead to a variable holding a nil pointer or a
    nil interface; otherwise, with [rv] the fully dereferenced value (the
    value itself when it is not a pointer, else the variable that the
    pointers lead to), it succeeds with [rv] when the type of [rv] is the
    declared type, else with the value as returned when the declared type is
    an interface that the value's type implements, else fails with
    InterfaceNotImplemented when the declared type is an interface and with
    UnexpectedValueType when it is not. *)
Theorem CreateInstance_cases I nested r factory s :
  (r_CreateInstanceFn r = None →
     CreateInstance I nested r factory s
     = Some (Err (errCreateInstanceFnNil (r_Type r) (r_Name r)), s))
  ∧ (∀ fn instance err s1,
       r_CreateInstanceFn r = Some fn →
       call_factory nested fn factory s = Some ((instance, err), s1) →
       (∀ cause, err = Some cause →
          CreateInstance I nested r factory s
          = Some (Err (errCreateInstance (r_Type r) (r_Name r) cause), s1))
       ∧ (err = None → instance = None →
            CreateInstance I nested r factory s
            = Some (Err (errNilType (r_Name r)), s1))
       ∧ (∀ e, err = None → instance = Some (VPtr e None) →
            CreateInstance I nested r factory s
            = Some (Err (errNilValue (Some (TPtr e)) (r_Name r)), s1))
       ∧ (∀ t l t' l' w, err = None → instance = Some (VPtr t (Some l)) →
            leads s1 t l t' l' → mem s1 !! l' = Some w →
            typeof w = t' → is_nil w = true →
            CreateInstance I nested r factory s
            = Some (Err (errNilValue (Some t') (r_Name r)), s1))
       ∧ (∀ x, err = None → instance = Some x →
            Type_Kind (typeof x) = OtherKind →
            CreateInstance I nested r factory s
            = Some (CreateInstance_result I r x (Copy x), s1))
       ∧ (∀ t l t' l' w, err = None → instance = Some (VPtr t (Some l)) →
            leads s1 t l t' l' → mem s1 !! l' = Some w →
            Type_Kind t' ≠ Ptr → is_nil w = false →
            CreateInstance I nested r factory s
            = Some (CreateInstance_result I r (VPtr t (Some l)) (Ref t' l'), s1))
       ∧ (∀ x e s2, err = None → instance = Some x →
            GetNamedInstance (Some x) (r_Name r) s1 = Some (Err e, s2) →
            Code e = Some ErrNilValue
            ∧ CreateInstance I nested r factory s = Some (Err e, s1))
       ∧ (∀ x rv s2, err = None → instance = Some x →
            GetNamedInstance (Some x) (r_Name r) s1 = Some (Ok rv, s2) →
            Value_Kind rv ≠ Ptr
            ∧ CreateInstance I nested r factory s
              = Some (CreateInstance_result I r x rv, s1)))
  ∧ (∀ x rv, Some (Value_Type rv) = r_Type r →
       CreateInstance_result I r x rv = Ok rv)
  ∧ (∀ x rv i, Some (Value_Type rv) ≠ r_Type r → r_Type r = Some (TInterface i) →
       CreateInstance_result I r x rv =
         if I (typeof x) (TInterface i) then Ok (reflect_ValueOf x)
         else Err (errInterfaceNotImplemented (Some (typeof x)) (r_Name r) (r_Type r)))
  ∧ (∀ x rv, Some (Value_Type rv) ≠ r_Type r →
       (∀ i, r_Type r ≠ Some (TInterface i)) →
       CreateInstance_result I r x rv
       = Err (errUnexpectedValueType (Some (Value_Type rv)) (r_Name r) (r_Type r))).
Proof.
  split; [apply CreateInstance_no_factory|].
  split.
  { intros fn instance err s1 Hfn Hcall.
    pose proof (CreateInstance_eq I nested r factory s fn instance err s1 Hfn Hcall) as Heq.
    split. { intros cause ->. exact Heq. }
    split. { intros -> ->. exact Heq. }
    split. { intros e -> ->. rewrite Heq. by rewrite GetNamedInstance_nil. }
    split.
    { intros t l t' l' w -> -> Hleads Hw Htw Hnil. rewrite Heq.
      destruct (GetNamedInstance_leads s1 t l t' l' w (r_Name r) Hleads Hw) as [-> _];
        done. }
    split.
    { intros x -> -> Hk. rewrite Heq.
      rewrite GetNamedInstance_value; [done| by rewrite Hk |by destruct x]. }
    split.
    { intros t l t' l' w -> -> Hleads Hw Hk Hnil. rewrite Heq.
      destruct (GetNamedInstance_leads s1 t l t' l' w (r_Name r) Hleads Hw) as [_ ->];
        done. }
    split.
    - intros x e s2 -> -> Hg. rewrite Heq, Hg.
      apply GetNamedInstance_Some in Hg as [-> [[[=] _]|[_ [t' ->]]]]. done.
    - intros x rv s2 -> -> Hg. rewrite Heq, Hg.
      pose proof (GetNamedInstance_kind _ _ _ _ _ Hg).
      by apply GetNamedInstance_Some in Hg as [-> _]. }
  unfold CreateInstance_result. split.
  { intros x rv Ht. by destruct (decide _). }
  split.
  { intros x rv i Hne Hi. destruct (decide _); [done|]. by rewrite Hi. }
  intros x rv Hne Hni. destruct (decide _); [done|].
  destruct (r_Type r) as [[| i |]|]; try done. by destruct (Hni i).
Qed.

(** A factory returning the int 1 for a registration of (int, ""); a
    factory returning a pointer to the variable at address 1, which holds a
    nil pointer to an int; and a factory returning a pointer to the variable
    at address 1, of the interface type Writer, which holds nil. *)
Lemma CreateInstance_cases_witness :
  let r := int_registration 1 PerRequest in
  let s := empty_state 30 in
  let p := VPtr (TPtr tint) (Some 1) in
  let r' := mkRegistration (Some tint) "" None (Some (FnReturn (Some p) None)) PerRequest in
  let s' := with_var s 1 (VPtr tint None) in
  let q := VPtr twriter (Some 1) in
  let r'' := mkRegistration (Some twriter) "" None (Some (FnReturn (Some q) None))
               PerRequest in
  let s'' := with_var s 1 (VIface "Writer" None) in
  (r_CreateInstanceFn r = Some (FnReturn (Some (int_value 1)) None)
   ∧ call_factory no_nested (FnReturn (Some (int_value 1)) None) sample_resolver s
     = Some ((Some (int_value 1), None), s)
   ∧ CreateInstance implements_nothing no_nested r sample_resolver s
     = Some (Ok (Copy (int_value 1)), s))
  ∧ (leads s' (TPtr tint) 1 (TPtr tint) 1
     ∧ mem s' !! 1 = Some (VPtr tint None)
     ∧ CreateInstance implements_nothing no_nested r' sample_resolver s'
       = Some (Err (errNilValue (Some (TPtr tint)) ""), s'))
  ∧ (leads s'' twriter 1 twriter 1
     ∧ mem s'' !! 1 = Some (VIface "Writer" None)
     ∧ CreateInstance implements_nothing no_nested r'' sample_resolver s''
       = Some (Err (errNilValue (Some twriter) ""), s'')).
Proof.
  intros r s p r' s' q r'' s''. split; [|split].
  - split; [reflexivity|]. split; [reflexivity|].
    destruct (CreateInstance_cases implements_nothing no_nested r sample_resolver s)
      as (_ & Hcall & _).
    destruct (Hcall _ _ _ _ eq_refl eq_refl) as (_ & _ & _ & _ & Hval & _).
    rewrite (Hval (int_value 1) eq_refl eq_refl eq_refl). reflexivity.
  - split; [apply leads_here|]. split; [reflexivity|].
    destruct (CreateInstance_cases implements_nothing no_nested r' sample_resolver s')
      as (_ & Hcall & _).
    destruct (Hcall _ _ _ _ eq_refl eq_refl) as (_ & _ & _ & Hnil & _).
    exact (Hnil (TPtr tint) 1 (TPtr tint) 1 (VPtr tint None) eq_refl eq_refl
             (leads_here _ _ _) eq_refl eq_refl eq_refl).
  - split; [apply leads_here|]. split; [reflexivity|].
    destruct (CreateInstance_cases implements_nothing no_nested r'' sample_resolver s'')
      as (_ & Hcall & _).
    destruct (Hcall _ _ _ _ eq_refl eq_refl) as (_ & _ & _ & Hnil & _).
    exact (Hnil twriter 1 twriter 1 (VIface "Writer" None) eq_refl eq_refl
             (leads_here _ _ _) eq_refl eq_refl eq_refl).
Defined.

(** C5 as stated fails: a factory that returns nil (and no error) makes
    [CreateInstance] fail with NilType, not with NilValue. *)
Lemma CreateInstance_nil_is_NilType :
  let r := mkRegistration (Some tint) "" None (Some (FnReturn None None)) PerRequest in
  CreateInstance implements_nothing no_nested r sample_resolver (empty_state 30)
  = Some (Err (errNilType ""), empty_state 30)
  ∧ Code (errNilType "") = Some ErrNilType
  ∧ Code (errNilType "") ≠ Some ErrNilValue.
Proof. split; [reflexivity|]. split; [reflexivity|discriminate]. Qed.

(** ** Allocation *)

Lemma fresh_loc_gt {A} (h : gmap loc A) l :
  is_Some (h !! l) → l < fresh_loc h.
Proof.
  intros Hl. unfold fresh_loc.
  apply elem_of_dom, elem_of_elements, max_list_elem_of_le in Hl. lia.
Qed.

Lemma fresh_loc_None {A} (h : gmap loc A) : h !! fresh_loc h = None.
Proof.
  destruct (h !! fresh_loc h) eqn:H; [|done].
  assert (fresh_loc h < fresh_loc h) by (apply fresh_loc_gt; eauto). lia.
Qed.

Lemma fresh_loc_insert {A} (h : gmap loc A) l x :
  is_Some (h !! l) → fresh_loc (<[l:=x]> h) = fresh_loc h.
Proof.
  intros Hl. unfold fresh_loc. f_equal. f_equal. f_equal.
  apply dom_insert_lookup_L. done.
Qed.

(** ** Two-level maps *)

Lemma lookup2_insert2 {A} (m : gmap reflect_Type (gmap string A)) typ name x :
  lookup2 (insert2 m typ name x) typ name = Some x.
Proof.
  unfold lookup2, insert2. rewrite lookup_insert_eq. apply lookup_insert_eq.
Qed.

Lemma lookup2_insert2_ne {A} (m : gmap reflect_Type (gmap string A))
    typ name x typ' name' :
  (typ, name) ≠ (typ', name') →
  lookup2 (insert2 m typ name x) typ' name' = lookup2 m typ' name'.
Proof.
  intros Hne. unfold lookup2, insert2.
  destruct (decide (typ = typ')) as [<-|Ht].
  - rewrite lookup_insert_eq.
    assert (name ≠ name') by congruence.
    rewrite lookup_insert_ne by done.
    destruct (m !! typ); [done | apply lookup_empty].
  - by rewrite lookup_insert_ne.
Qed.

(** ** Values *)

Lemma Values_set_eq v typ name instance s V :
  values s !! v = Some V →
  Values_set v typ name instance s = Some (tt, with_instance s v V typ name instance).
Proof.
  intros Hv. unfold Values_set, with_instance, insert2. munfold. rewrite Hv.
  destruct (v_instances V !! typ) as [named|]; reflexivity.
Qed.

Lemma ancestor_lt s v a : values_wf s → ancestor s v a → a < v.
Proof.
  intros Hwf. induction 1 as [v V p Hv Hp|v V p a Hv Hp _ IH].
  - by destruct (Hwf _ _ _ Hv Hp).
  - destruct (Hwf _ _ _ Hv Hp). lia.
Qed.

Lemma ancestor_allocated s v a :
  values_wf s → ancestor s v a → is_Some (values s !! a).
Proof.
  intros Hwf. induction 1 as [v V p Hv Hp|v V p a Hv Hp _ IH]; [|done].
  by destruct (Hwf _ _ _ Hv Hp).
Qed.

Lemma getParent_loop_state fuel parent typ name s r s' :
  getParent_loop fuel parent typ name s = Some (r, s') → s' = s.
Proof.
  revert parent s. induction fuel as [|fuel IH]; intros [p|] s; cbn; try discriminate.
  - unfold ret. by intros [= _ <-].
  - rewrite bind_Some. intros ([i|] & s1 & Hget & Hk).
    + apply Values_get_Some in Hget as (_ & _ & -> & _).
      unfold ret in Hk. by injection Hk as _ <-.
    + apply Values_get_Some in Hget as (_ & _ & -> & _).
      munfold. destruct (values s !! p); [|discriminate]. by apply IH in Hk.
  - unfold ret. by intros [= _ <-].
Qed.

(** With well-founded stores the walk ends, whatever it finds. *)
Lemma getParent_loop_total s typ name :
  values_wf s →
  ∀ p fuel, p < fuel → is_Some (values s !! p) →
  ∃ r, getParent_loop fuel (Some p) typ name s = Some (r, s).
Proof.
  intros Hwf p. induction (lt_wf p) as [p _ IH].
  intros [|fuel] Hlt [V HV]; [lia|]. cbn.
  unfold bind at 1.
  assert (Values_get p typ name s = Some (lookup2 (v_instances V) typ name, s)) as ->.
  { apply Values_get_Some. eauto. }
  destruct (lookup2 (v_instances V) typ name) as [i|]; [by eexists|].
  munfold. rewrite HV.
  destruct (v_parent V) as [q|] eqn:Hq.
  - destruct (Hwf _ _ _ HV Hq) as [Hqp Hqa].
    apply IH; [done | lia | done].
  - destruct fuel; by eexists.
Qed.

(** Two states that agree on the stores up to [p] give the same walk. *)
Lemma getParent_loop_agree s s' typ name :
  values_wf s →
  ∀ p fuel, (∀ a, a ≤ p → values s' !! a = values s !! a) →
  ∀ r, getParent_loop fuel (Some p) typ name s = Some (r, s) →
       getParent_loop fuel (Some p) typ name s' = Some (r, s').
Proof.
  intros Hwf p. induction (lt_wf p) as [p _ IH].
  intros [|fuel] Hagree r; cbn; [discriminate|].
  rewrite bind_Some. intros (i & s1 & Hget & Hk).
  apply Values_get_Some in Hget as (V & HV & -> & ->).
  unfold bind at 1.
  assert (Values_get p typ name s' = Some (lookup2 (v_instances V) typ name, s')) as ->.
  { apply Values_get_Some. exists V. by rewrite Hagree. }
  destruct (lookup2 (v_instances V) typ name) as [i|].
  { unfold ret in *. by injection Hk as <-. }
  munfold. rewrite Hagree by done. rewrite HV in *.
  destruct (v_parent V) as [q|] eqn:Hq.
  - destruct (Hwf _ _ _ HV Hq) as [Hqp _].
    apply IH; [done | | done]. intros a Ha. apply Hagree. lia.
  - destruct fuel; cbn in *; unfold ret in *; by injection Hk as <-.
Qed.

Lemma values_wf_empty limit : values_wf (empty_state limit).
Proof. intros l V p Hl. cbn in Hl. by rewrite lookup_empty in Hl. Qed.

Lemma NewValuesScope_eq parent s :
  NewValuesScope parent s = Some (fresh_loc (values s), with_store s parent).
Proof. reflexivity. Qed.

Lemma with_store_wf s parent :
  values_wf s → (∀ p, parent = Some p → is_Some (values s !! p)) →
  values_wf (with_store s parent).
Proof.
  intros Hwf Hp l V p. unfold with_store, state_upd_values. cbn.
  intros [[<- <-]|[Hne Hl]]%lookup_insert_Some; cbn.
  - intros Hpar. pose proof (Hp _ Hpar) as Hal. split.
    + by apply fresh_loc_gt.
    + rewrite lookup_insert_ne; [done|].
      intros <-. rewrite fresh_loc_None in Hal. by destruct Hal.
  - intros Hpar. destruct (Hwf _ _ _ Hl Hpar) as [Hlt Hal]. split; [done|].
    rewrite lookup_insert_ne; [done|].
    intros <-. rewrite fresh_loc_None in Hal. by destruct Hal.
Qed.

Lemma with_instance_wf s v V typ name instance :
  values_wf s → values s !! v = Some V →
  values_wf (with_instance s v V typ name instance).
Proof.
  intros Hwf Hv l V' p. unfold with_instance, state_upd_values. cbn.
  intros [[<- <-]|[Hne Hl]]%lookup_insert_Some; cbn; intros Hpar.
  - destruct (Hwf _ _ _ Hv Hpar) as [Hlt Hal]. split; [done|].
    rewrite lookup_insert_ne; [done | lia].
  - destruct (Hwf _ _ _ Hl Hpar) as [Hlt Hal]. split; [done|].
    destruct (decide (v = p)) as [<-|]; [by rewrite lookup_insert_eq|].
    by rewrite lookup_insert_ne.
Qed.

(** X5: [set] on a store modifies the local mapping of that store and
    nothing else; afterwards a lookup on the writing store finds the new
    instance, and every ancestor is the object it was: its own bindings are
    intact and its lookups, local and through its own ancestors, return what
    they returned before. *)
Theorem Values_set_local s v typ name instance V :
  values_wf s → values s !! v = Some V →
  ∃ s' V',
    Values_set v typ name instance s = Some (tt, s')
    ∧ (∀ a, a ≠ v → values s' !! a = values s !! a)
    ∧ values s' !! v = Some V'
    ∧ v_parent V' = v_parent V
    ∧ lookup2 (v_instances V') typ name = Some instance
    ∧ (∀ typ' name', (typ, name) ≠ (typ', name') →
         lookup2 (v_instances V') typ' name' = lookup2 (v_instances V) typ' name')
    ∧ Values_get v typ name s' = Some (Some instance, s')
    ∧ values_wf s'
    ∧ (∀ a, ancestor s v a →
         a ≠ v
         ∧ values s' !! a = values s !! a
         ∧ (∀ typ' name', ∃ r,
              Values_get a typ' name' s = Some (r, s)
              ∧ Values_get a typ' name' s' = Some (r, s'))
         ∧ (∀ typ' name', ∃ r,
              Values_getParent a typ' name' s = Some (r, s)
              ∧ Values_getParent a typ' name' s' = Some (r, s'))).
Proof.
  intros Hwf Hv.
  exists (with_instance s v V typ name instance),
         (mkValues (v_parent V) (insert2 (v_instances V) typ name instance)).
  assert (∀ a, a ≠ v →
            values (with_instance s v V typ name instance) !! a = values s !! a)
    as Hother.
  { intros a Ha. unfold with_instance, state_upd_values. cbn.
    by rewrite lookup_insert_ne. }
  assert (values (with_instance s v V typ name instance) !! v
          = Some (mkValues (v_parent V) (insert2 (v_instances V) typ name instance)))
    as Hself.
  { unfold with_instance, state_upd_values. cbn. apply lookup_insert_eq. }
  split; [by apply Values_set_eq|].
  split; [exact Hother|].
  split; [exact Hself|].
  split; [reflexivity|].
  split; [apply lookup2_insert2|].
  split; [intros; by apply lookup2_insert2_ne|].
  split.
  { apply Values_get_Some. eexists. split; [exact Hself|].
    split; [done|]. cbn. by rewrite lookup2_insert2. }
  split; [by apply with_instance_wf|].
  intros a Hanc.
  pose proof (ancestor_lt _ _ _ Hwf Hanc) as Hlt.
  destruct (ancestor_allocated _ _ _ Hwf Hanc) as [A HA].
  assert (a ≠ v) as Hne by lia.
  split; [done|]. split; [by apply Hother|]. split.
  - intros typ' name'. exists (lookup2 (v_instances A) typ' name'). split.
    + apply Values_get_Some. eauto.
    + apply Values_get_Some. exists A. by rewrite Hother.
  - intros typ' name'. unfold Values_getParent. munfold.
    rewrite Hother by done. rewrite HA.
    assert (fresh_loc (values (with_instance s v V typ name instance))
            = fresh_loc (values s)) as ->.
    { unfold with_instance, state_upd_values. cbn. apply fresh_loc_insert. eauto. }
    destruct (v_parent A) as [q|] eqn:Hq.
    + destruct (Hwf _ _ _ HA Hq) as [Hqa Hqal].
      destruct (getParent_loop_total s typ' name' Hwf q (fresh_loc (values s)))
        as [r Hr]; [by apply fresh_loc_gt | done |].
      exists r. split; [exact Hr|].
      eapply getParent_loop_agree; [exact Hwf | | exact Hr].
      intros b Hb. apply Hother. lia.
    + exists None. by destruct (fresh_loc (values s)).
Qed.

Lemma sample_stores_wf : values_wf sample_stores.
Proof.
  apply with_store_wf.
  - apply with_instance_wf; [|reflexivity].
    apply with_store_wf; [apply values_wf_empty | discriminate].
  - intros p [= <-]. by eexists.
Qed.

(** The scoped store shadows (int, "") with 2: it reads 2, its parent still
    reads 1. *)
Lemma Values_set_local_witness :
  values_wf sample_stores
  ∧ values sample_stores !! 2 = Some (mkValues (Some 1) ∅)
  ∧ ∃ s', Values_set 2 (Some tint) "" (Copy (int_value 2)) sample_stores = Some (tt, s')
          ∧ Values_get 2 (Some tint) "" s' = Some (Some (Copy (int_value 2)), s')
          ∧ Values_get 1 (Some tint) "" s' = Some (Some (Copy (int_value 1)), s').
Proof.
  split; [apply sample_stores_wf|]. split; [reflexivity|].
  destruct (Values_set_local sample_stores 2 (Some tint) "" (Copy (int_value 2))
              (mkValues (Some 1) ∅) sample_stores_wf eq_refl)
    as (s' & V' & Hset & _ & _ & _ & _ & _ & Hget & _ & Hanc).
  exists s'. split; [exact Hset|]. split; [exact Hget|].
  destruct (Hanc 1) as (_ & _ & Hget1 & _).
  { by eapply ancestor_parent. }
  destruct (Hget1 (Some tint) "") as (r & Hr & Hr').
  vm_compute in Hr. injection Hr as <-. exact Hr'.
Defined.

(** ** GetNamedSetter *)

Lemma filled_refl s : filled s s.
Proof.
  repeat split; try done.
  - intros a x Ha. by left.
  - intros a x Ha Ha'. congruence.
Qed.

Lemma filled_dom s s' a :
  filled s s' → is_Some (mem s !! a) → is_Some (mem s' !! a).
Proof.
  intros (_ & _ & _ & _ & _ & Hold & _) [x Hx].
  destruct (Hold _ _ Hx) as [?|(e & l' & _ & ? & _)]; eauto.
Qed.

Lemma filled_new s s' a :
  filled s s' → mem s' !! a = None → mem s !! a = None.
Proof.
  intros Hf Ha. destruct (mem s !! a) as [x|] eqn:Hx; [|done].
  destruct (filled_dom s s' a Hf) as [y Hy]; [eauto|]. congruence.
Qed.

Lemma filled_trans s1 s2 s3 : filled s1 s2 → filled s2 s3 → filled s1 s3.
Proof.
  intros H12 H23.
  destruct H12 as (Hv1 & Hr1 & Hn1 & Hg1 & Hl1 & Hold1 & Hnew1).
  pose proof H23 as (Hv2 & Hr2 & Hn2 & Hg2 & Hl2 & Hold2 & Hnew2).
  assert (∀ a, mem s2 !! a = None → mem s1 !! a = None) as Hdom.
  { intros a Ha. destruct (mem s1 !! a) as [x|] eqn:Hx; [|done].
    destruct (Hold1 _ _ Hx) as [?|(e & l' & _ & ? & _)]; congruence. }
  repeat split; try congruence.
  - intros a x Hx. destruct (Hold1 _ _ Hx) as [H2|(e & l' & -> & H2 & Hl')].
    + destruct (Hold2 _ _ H2) as [H3|(e & l' & -> & H3 & Hl')]; [by left|].
      right. eauto 10.
    + destruct (Hold2 _ _ H2) as [H3|(e2 & l2 & [=] & _)].
      right. eauto 10.
  - intros a x Ha1 Ha3. destruct (mem s2 !! a) as [y|] eqn:Hy.
    + destruct (Hold2 _ _ Hy) as [H3|(e & l' & -> & H3 & Hl')].
      * assert (x = y) as -> by congruence. by apply (Hnew1 a).
      * assert (x = VPtr e (Some l')) as -> by congruence. right. eauto.
    + destruct (Hnew2 _ _ Hy Ha3) as [?|(e & l' & -> & Hl')]; [by left|].
      right. eauto.
Qed.

Lemma settled_filled s s' t l rv :
  filled s s' → settled s t l rv → settled s' t l rv.
Proof.
  intros Hf. revert l. induction t as [n|n|e IH]; intros l; cbn.
  - intros [-> Hl]. split; [done|]. by eapply filled_dom.
  - intros [-> Hl]. split; [done|]. by eapply filled_dom.
  - intros (l' & Hl & Hs). exists l'. split; [|by apply IH].
    destruct Hf as (_ & _ & _ & _ & _ & Hold & _).
    by destruct (Hold _ _ Hl) as [?|(e2 & l2 & [=] & _)].
Qed.

Lemma chain_zero s e l : mem s !! l = Some (zero e) → chain s e l.
Proof.
  destruct e as [n|n|e]; cbn; intros Hl.
  - by eapply chain_end.
  - by eapply chain_end.
  - by apply chain_nil.
Qed.

Lemma Value_Elem_Ref e l s e' p :
  mem s !! l = Some (VPtr e' (Some p)) →
  Value_Elem (Ref (TPtr e) l) s = Some (Ref e p, s).
Proof.
  intros Hl. unfold Value_Elem, Value_read, load. munfold. by rewrite Hl.
Qed.

Lemma reflect_New_eq t s :
  reflect_New t s
  = Some (Copy (VPtr t (Some (fresh_loc (mem s)))),
          state_upd_mem <[fresh_loc (mem s):=zero t]> s).
Proof. reflexivity. Qed.

Lemma assign_same I t v : typeof v = t → assign I t v = Some v.
Proof. intros H. unfold assign. by destruct (decide _). Qed.

Lemma Value_Set_Ref I t l x s v old :
  mem s !! l = Some old → Value_read x s = Some (v, s) →
  Value_Set I (Ref t l) x s =
    match assign I t v with
    | Some w => Some (tt, state_upd_mem <[l:=w]> s)
    | None => None
    end.
Proof.
  intros Hl Hx. unfold Value_Set. unfold bind at 1. rewrite Hx.
  unfold bind at 1. unfold deref. destruct (assign I t v) as [w|]; [|done].
  unfold ret, store, load. munfold. by rewrite Hl.
Qed.

Lemma GetNamedSetter_loop_Ptr I e l name s x :
  mem s !! l = Some x →
  GetNamedSetter_loop I (TPtr e) (Ref (TPtr e) l) name s =
    if is_nil x then
      (p <- reflect_New e ;;
       Value_Set I (Ref (TPtr e) l) p ;;;
       rv' <- Value_Elem (Ref (TPtr e) l) ;;
       GetNamedSetter_loop I e rv' name) s
    else
      (rv' <- Value_Elem (Ref (TPtr e) l) ;;
       GetNamedSetter_loop I e rv' name) s.
Proof.
  intros Hl. cbn [GetNamedSetter_loop]. unfold bind at 1.
  rewrite (Value_IsNil_Ref _ _ _ _ Hl). by destruct (is_nil x).
Qed.

(** The loop of [GetNamedSetter] on a variable: it walks to the end of the
    chain and sets every nil pointer on its way. *)
Lemma GetNamedSetter_loop_Ref I name t :
  ∀ s l, chain s t l →
  ∃ s' rv,
    GetNamedSetter_loop I t (Ref t l) name s = Some (Ok rv, s')
    ∧ Value_CanSet rv = true ∧ Value_Kind rv ≠ Ptr
    ∧ settled s' t l rv ∧ filled s s'.
Proof.
  induction t as [n|n|e IH]; intros s l Hc.
  - exists s, (Ref (TBasic n) l). cbn.
    split; [reflexivity|]. split; [done|]. split; [done|].
    split; [|apply filled_refl]. split; [done|].
    inversion Hc; subst. eauto.
  - exists s, (Ref (TInterface n) l). cbn.
    split; [reflexivity|]. split; [done|]. split; [done|].
    split; [|apply filled_refl]. split; [done|].
    inversion Hc; subst. eauto.
  - inversion Hc as [t0 l0 x Hk Hl|e0 l0 Hl|e0 l0 l' Hl Hc']; subst.
    + by destruct Hk.
    + (* a nil pointer that can be set *)
      rewrite (GetNamedSetter_loop_Ptr _ _ _ _ _ _ Hl). cbn [is_nil].
      unfold bind at 1. rewrite reflect_New_eq.
      set (l' := fresh_loc (mem s)).
      set (s1 := state_upd_mem <[l':=zero e]> s).
      assert (l ≠ l') as Hne.
      { intros ->. unfold l' in Hl. by rewrite fresh_loc_None in Hl. }
      assert (mem s1 !! l = Some (VPtr e None)) as Hl1.
      { unfold s1, state_upd_mem. cbn. by rewrite lookup_insert_ne. }
      unfold bind at 1.
      rewrite (Value_Set_Ref I (TPtr e) l (Copy (VPtr e (Some l'))) s1 (VPtr e (Some l')) _ Hl1 eq_refl).
      rewrite assign_same by done.
      set (s2 := state_upd_mem <[l:=VPtr e (Some l')]> s1).
      assert (mem s2 !! l = Some (VPtr e (Some l'))) as Hl2.
      { unfold s2, state_upd_mem. cbn. apply lookup_insert_eq. }
      assert (mem s2 !! l' = Some (zero e)) as Hl2'.
      { unfold s2, s1, state_upd_mem. cbn.
        rewrite lookup_insert_ne by done. apply lookup_insert_eq. }
      unfold bind at 1. rewrite (Value_Elem_Ref _ _ _ _ _ Hl2).
      destruct (IH s2 l' (chain_zero _ _ _ Hl2'))
        as (s' & rv & Hloop & Hset & Hkind & Hsettled & Hfilled).
      exists s', rv. split; [exact Hloop|]. split; [done|]. split; [done|].
      assert (filled s s2) as Hf2.
      { split; [done|]. split; [done|]. split; [done|]. split; [done|].
        split; [done|]. split.
        - intros a x Ha. unfold s2, s1, state_upd_mem. cbn.
          destruct (decide (a = l)) as [->|Hal].
          + right. exists e, l'. rewrite lookup_insert_eq.
            split; [congruence|]. split; [done | apply fresh_loc_None].
          + left. rewrite lookup_insert_ne by done.
            rewrite lookup_insert_ne; [done|].
            intros <-. unfold l' in Ha. by rewrite fresh_loc_None in Ha.
        - intros a x Ha. unfold s2, s1, state_upd_mem. cbn.
          destruct (decide (a = l)) as [->|Hal]; [congruence|].
          rewrite lookup_insert_ne by done.
          intros [[<- <-]|[_ Hx]]%lookup_insert_Some; [|congruence].
          left. by destruct e. }
      split.
      * cbn. exists l'. split; [|done].
        destruct Hfilled as (_ & _ & _ & _ & _ & Hold & _).
        by destruct (Hold _ _ Hl2) as [?|(e2 & l2 & [=] & _)].
      * by eapply filled_trans.
    + (* a pointer that is set *)
      rewrite (GetNamedSetter_loop_Ptr _ _ _ _ _ _ Hl). cbn [is_nil].
      unfold bind at 1. rewrite (Value_Elem_Ref _ _ _ _ _ Hl).
      destruct (IH s l' Hc') as (s' & rv & Hloop & Hset & Hkind & Hsettled & Hfilled).
      exists s', rv. split; [exact Hloop|]. split; [done|]. split; [done|].
      split; [|done].
      cbn. exists l'. split; [|done].
      destruct Hfilled as (_ & _ & _ & _ & _ & Hold & _).
      by destruct (Hold _ _ Hl) as [?|(e2 & l2 & [=] & _)].
Qed.

Lemma GetNamedSetter_loop_Copy I x name s :
  Type_Kind (typeof x) ≠ Ptr →
  GetNamedSetter_loop I (typeof x) (Copy x) name s
  = Some (Err (errRequirePointer (Some (typeof x)) name), s).
Proof. destruct x as [n d|e p|n d]; cbn; done. Qed.

(** X1: [GetNamedSetter] refuses an untyped nil (NilType), a value that is
    not a pointer (RequirePointer) and a nil pointer passed by value
    (NonSetNilPointer), each time without touching anything.  Given a pointer
    to a variable it walks the chain of pointers below it, sets every nil
    pointer on the way to a new zero variable, and returns the variable at
    the end of the chain: a value that can be set and is not a pointer. *)
Theorem GetNamedSetter_target I name s :
  GetNamedSetter I None name s = Some (Err (errNilType name), s)
  ∧ (∀ x, Type_Kind (typeof x) ≠ Ptr →
       GetNamedSetter I (Some x) name s
       = Some (Err (errRequirePointer (Some (typeof x)) name), s))
  ∧ (∀ e, GetNamedSetter I (Some (VPtr e None)) name s
          = Some (Err (errNonSetNilPointer (Some (TPtr e)) name), s))
  ∧ (∀ t l, chain s t l →
       ∃ s' rv,
         GetNamedSetter I (Some (VPtr t (Some l))) name s = Some (Ok rv, s')
         ∧ Value_CanSet rv = true ∧ Value_Kind rv ≠ Ptr
         ∧ settled s' t l rv ∧ filled s s').
Proof.
  split; [reflexivity|].
  split. { intros x Hk. unfold GetNamedSetter, reflect_ValueOf. cbn [Value_Type].
           by apply GetNamedSetter_loop_Copy. }
  split; [reflexivity|].
  intros t l Hc.
  destruct (GetNamedSetter_loop_Ref I name t s l Hc) as (s' & rv & Hloop & H).
  exists s', rv. split; [|exact H].
  unfold GetNamedSetter, reflect_ValueOf. cbn [Value_Type typeof GetNamedSetter_loop].
  unfold bind at 1. cbn [Value_IsNil Value_read]. unfold Value_IsNil, Value_read.
  unfold bind at 1. unfold ret at 1. unfold ret at 1. cbn [is_nil].
  unfold bind at 1. unfold Value_Elem, Value_read. unfold bind at 1. unfold ret at 1.
  cbn [Value_Type typeof]. unfold ret at 1. exact Hloop.
Qed.

(** A pointer to a nil pointer to an int: the inner pointer is set to a new
    int variable, which is the setter. *)
Lemma GetNamedSetter_target_witness :
  let s := state_upd_mem <[1:=VPtr tint None]> (empty_state 30) in
  chain s (TPtr tint) 1
  ∧ GetNamedSetter implements_nothing (Some (VPtr (TPtr tint) (Some 1))) "" s
    = Some (Ok (Ref tint 2),
            state_upd_mem (λ _, <[1:=VPtr tint (Some 2)]> (<[2:=VData "int" DZero]> (<[1:=VPtr tint None]> ∅)))
              (empty_state 30)).
Proof.
  intros s.
  assert (chain s (TPtr tint) 1) as Hc by (by apply chain_nil).
  split; [exact Hc|].
  destruct (GetNamedSetter_target implements_nothing "" s) as (_ & _ & _ & H).
  destruct (H _ _ Hc) as (s' & rv & Hget & _).
  rewrite Hget. vm_compute in Hget. injection Hget as <- <-. reflexivity.
Defined.

(** ** GetNamedType *)

Lemma GetNamedType_loop_kind e : Type_Kind (GetNamedType_loop e) ≠ Ptr.
Proof. induction e; done. Qed.

Lemma GetNamedType_loop_iter e : ∃ n, e = Nat.iter n TPtr (GetNamedType_loop e).
Proof.
  induction e as [n|n|e [k IH]]; [by exists 0 | by exists 0 |].
  exists (S k). change (TPtr e = TPtr (Nat.iter k TPtr (GetNamedType_loop e))).
  by f_equal.
Qed.

Lemma GetNamedType_loop_base n t :
  Type_Kind t ≠ Ptr → GetNamedType_loop (Nat.iter n TPtr t) = t.
Proof.
  intros Hk. induction n as [|n IH]; [by destruct t|].
  change (GetNamedType_loop (TPtr (Nat.iter n TPtr t)) = t). exact IH.
Qed.

(** X3: [GetNamedType] returns the type of [v] with every pointer level
    removed, and only for a [v] that is a pointer; an untyped nil fails with
    NilType and any other value with RequirePointer. *)
Theorem GetNamedType_strips v name :
  (∀ t, GetNamedType v name = Ok t ↔
        Type_Kind t ≠ Ptr ∧ ∃ x n, v = Some x ∧ typeof x = Nat.iter (S n) TPtr t)
  ∧ (∀ err, GetNamedType v name = Err err ↔
        (v = None ∧ err = errNilType name)
        ∨ ∃ x, v = Some x ∧ Type_Kind (typeof x) ≠ Ptr
               ∧ err = errRequirePointer (Some (typeof x)) name).
Proof.
  split.
  - intros t. split.
    + destruct v as [x|]; cbn; [|discriminate].
      destruct (typeof x) as [n|n|e] eqn:Hx; try discriminate.
      intros [= <-]. split; [apply GetNamedType_loop_kind|].
      destruct (GetNamedType_loop_iter e) as [k Hk].
      exists x, k. split; [done|]. rewrite Hx.
      change (TPtr e = TPtr (Nat.iter k TPtr (GetNamedType_loop e))). by f_equal.
    + intros (Hk & x & n & -> & Hx). unfold GetNamedType. rewrite Hx.
      change (Ok (GetNamedType_loop (Nat.iter n TPtr t)) = Ok t).
      by rewrite GetNamedType_loop_base.
  - intros err. split.
    + destruct v as [x|]; cbn.
      * destruct (typeof x) as [n|n|e] eqn:Hx; try discriminate;
          intros [= <-]; right; exists x; by rewrite Hx.
      * intros [= <-]. by left.
    + intros [[-> ->]|(x & -> & Hk & ->)]; [reflexivity|].
      unfold GetNamedType. by destruct (typeof x).
Qed.

(** ** The key of a target and of an instance *)

Lemma GetNamedSetter_loop_type I t rv name s rv' s' :
  Value_Type rv = t →
  GetNamedSetter_loop I t rv name s = Some (Ok rv', s') →
  Value_Type rv' = GetNamedType_loop t.
Proof.
  revert rv s. induction t as [n|n|e IH]; intros rv s Ht; cbn [GetNamedSetter_loop].
  - destruct (negb (Value_CanSet rv)); unfold ret; intros [= <- <-]. done.
  - destruct (negb (Value_CanSet rv)); unfold ret; intros [= <- <-]. done.
  - rewrite bind_Some. intros (b & s1 & Hn & Hk).
    apply Value_IsNil_Some in Hn as [-> _].
    assert (∀ s2, (rv1 <- Value_Elem rv ;; GetNamedSetter_loop I e rv1 name) s2
                  = Some (Ok rv', s') → Value_Type rv' = GetNamedType_loop e) as Hrest.
    { intros s2. rewrite bind_Some. intros (rv1 & s3 & He & Hl).
      apply Value_Elem_Some in He as [-> (e1 & e2 & p & Hty & -> & _)].
      rewrite Ht in Hty. injection Hty as <-. exact (IH (Ref e p) s2 eq_refl Hl). }
    destruct b; [|by eapply Hrest].
    destruct (negb (Value_CanSet rv)); [discriminate|].
    apply bind_Some in Hk as (p & s2 & _ & Hk).
    apply bind_Some in Hk as (u & s3 & _ & Hk).
    by eapply Hrest.
Qed.

Lemma GetNamedInstance_loop_type t rv name s rv' s' :
  Value_Type rv = t →
  GetNamedInstance_loop t rv name s = Some (Ok rv', s') →
  Value_Type rv' = GetNamedType_loop t.
Proof.
  revert rv. induction t as [n|n|e IH]; intros rv Ht; cbn.
  - unfold ret. intros [= <- <-]. done.
  - unfold ret. intros [= <- <-]. done.
  - rewrite bind_Some. intros (rv1 & s1 & He & Hk).
    apply Value_Elem_Some in He as [-> (e1 & e2 & p & Hty & -> & _)].
    rewrite Ht in Hty. injection Hty as <-.
    apply bind_Some in Hk as (b & s1 & Hn & Hk).
    apply nil_ptr_or_iface_Some in Hn as ->.
    destruct b; [discriminate|]. exact (IH (Ref e p) eq_refl Hk).
Qed.

(** X4: the three helpers agree on the key.  The setter that
    [GetNamedSetter] returns for a target has the type that [GetNamedType]
    returns for the same argument, and the instance that [GetNamedInstance]
    returns for a value has the type of the value with every pointer level
    removed: what was registered through a [*T] is found through a [*T]. *)
Theorem key_of_target_and_instance I v name s :
  (∀ rv s', GetNamedSetter I v name s = Some (Ok rv, s') →
     GetNamedType v name = Ok (Value_Type rv))
  ∧ (∀ rv s', GetNamedInstance v name s = Some (Ok rv, s') →
       ∃ x, v = Some x ∧ Value_Type rv = GetNamedType_loop (typeof x)
            ∧ (Type_Kind (typeof x) = Ptr → GetNamedType v name = Ok (Value_Type rv))).
Proof.
  split.
  - intros rv s'. destruct v as [x|]; cbn; [|discriminate].
    intros Hloop.
    pose proof (GetNamedSetter_loop_type _ _ _ _ _ _ _ eq_refl Hloop) as Hty.
    cbn in Hty. rewrite Hty. unfold GetNamedType.
    destruct (typeof x) as [n|n|e] eqn:Hx; cbn; [| |done].
    + destruct x; discriminate.
    + destruct x; discriminate.
  - intros rv s'. destruct v as [x|]; cbn; [|discriminate].
    rewrite bind_Some. intros (b & s1 & Hn & Hk).
    destruct b; [discriminate|].
    pose proof (GetNamedInstance_loop_type _ _ _ _ _ _ eq_refl Hk) as Hty.
    cbn in Hty. exists x. split; [done|]. split; [done|].
    intros Hp. unfold GetNamedType. rewrite Hty.
    by destruct (typeof x).
Qed.

(** [&v] for an int variable holding 7, as a target and as an instance. *)
Lemma key_of_target_and_instance_witness :
  let s := state_upd_mem <[1:=int_value 7]> (empty_state 30) in
  GetNamedSetter implements_nothing (Some (VPtr tint (Some 1))) "" s = Some (Ok (Ref tint 1), s)
  ∧ GetNamedInstance (Some (VPtr tint (Some 1))) "" s = Some (Ok (Ref tint 1), s)
  ∧ GetNamedType (Some (VPtr tint (Some 1))) "" = Ok tint.
Proof.
  intros s. split; [reflexivity|]. split; [reflexivity|].
  exact (proj1 (key_of_target_and_instance implements_nothing
                  (Some (VPtr tint (Some 1))) "" s) (Ref tint 1) s eq_refl).
Defined.

(** ** GetNamedInstance *)

Lemma GetNamedInstance_loop_not_nil t rv name s rv' s' :
  Value_Type rv = t →
  nil_ptr_or_iface rv s = Some (false, s) →
  GetNamedInstance_loop t rv name s = Some (Ok rv', s') →
  nil_ptr_or_iface rv' s = Some (false, s).
Proof.
  revert rv. induction t as [n|n|e IH]; intros rv Ht Hnn; cbn.
  - unfold ret. by intros [= <- <-].
  - unfold ret. by intros [= <- <-].
  - rewrite bind_Some. intros (rv1 & s1 & He & Hk).
    apply Value_Elem_Some in He as [-> (e1 & e2 & p & Hty & -> & _)].
    rewrite Ht in Hty. injection Hty as <-.
    apply bind_Some in Hk as (b & s1 & Hn & Hk).
    pose proof (nil_ptr_or_iface_Some _ _ _ _ Hn) as ->.
    destruct b; [discriminate|].
    exact (IH (Ref e p) eq_refl Hn Hk).
Qed.

(** The instance of [&x] is the variable [x]. *)
Lemma GetNamedInstance_var t l w name s :
  Type_Kind t ≠ Ptr → mem s !! l = Some w → is_nil w = false →
  GetNamedInstance (Some (VPtr t (Some l))) name s = Some (Ok (Ref t l), s).
Proof.
  intros Hk Hl Hnil.
  unfold GetNamedInstance, reflect_ValueOf. cbn.
  unfold nil_ptr_or_iface, Value_Kind. cbn [Value_Type].
  destruct t as [n|n|e]; cbn; [reflexivity| |done].
  unfold bind at 1. rewrite (Value_IsNil_Ref _ _ _ _ Hl). by rewrite Hnil.
Qed.

(** X2: [GetNamedInstance] only reads.  Its errors are NilType, for an
    untyped nil, and NilValue; the instance it returns is not a pointer and
    is not nil.  A value that is not a pointer is returned as it was passed;
    for a pointer to a variable the instance is that variable itself, not a
    copy of what it holds. *)
Theorem GetNamedInstance_result v name s :
  (∀ r s', GetNamedInstance v name s = Some (r, s') →
     s' = s
     ∧ match r with
       | Ok rv => Value_Kind rv ≠ Ptr ∧ nil_ptr_or_iface rv s = Some (false, s)
       | Err e => (v = None ∧ e = errNilType name)
                  ∨ (is_Some v ∧ ∃ t', e = errNilValue (Some t') name)
       end)
  ∧ (∀ x, v = Some x → Type_Kind (typeof x) ≠ Ptr → is_nil x = false →
       GetNamedInstance v name s = Some (Ok (Copy x), s))
  ∧ (∀ t l w, v = Some (VPtr t (Some l)) → Type_Kind t ≠ Ptr →
       mem s !! l = Some w → is_nil w = false →
       GetNamedInstance v name s = Some (Ok (Ref t l), s)).
Proof.
  split.
  - intros r s' Hg.
    pose proof (GetNamedInstance_Some _ _ _ _ _ Hg) as [-> Hr].
    split; [done|]. destruct r as [rv|e]; [|exact Hr].
    split; [by eapply GetNamedInstance_kind|].
    destruct v as [x|]; cbn in Hg; [|discriminate].
    apply bind_Some in Hg as (b & s1 & Hn & Hk).
    pose proof (nil_ptr_or_iface_Some _ _ _ _ Hn) as ->.
    destruct b; [discriminate|].
    exact (GetNamedInstance_loop_not_nil _ _ _ _ _ _ eq_refl Hn Hk).
  - split.
    + intros x -> Hk Hnil. by apply GetNamedInstance_value.
    + intros t l w -> Hk Hl Hnil. by eapply GetNamedInstance_var.
Qed.

(** A pointer to an int variable holding 7. *)
Lemma GetNamedInstance_result_witness :
  let s := state_upd_mem <[1:=int_value 7]> (empty_state 30) in
  GetNamedInstance (Some (VPtr tint (Some 1))) "" s = Some (Ok (Ref tint 1), s)
  ∧ GetNamedInstance (Some (int_value 7)) "" s = Some (Ok (Copy (int_value 7)), s).
Proof.
  intros s.
  destruct (GetNamedInstance_result (Some (VPtr tint (Some 1))) "" s) as (_ & _ & Hp).
  split; [by eapply Hp|].
  destruct (GetNamedInstance_result (Some (int_value 7)) "" s) as (_ & Hv & _).
  by apply Hv.
Defined.

(** ** Values.GetNamed and Values.SetNamed *)

Lemma getParent_loop_bound s typ name p i :
  values_wf s → bound s typ name p i →
  ∀ fuel, p < fuel → getParent_loop fuel (Some p) typ name s = Some (Some i, s).
Proof.
  intros Hwf. induction 1 as [v V i Hv Hi|v V p i Hv Hi Hp Hb IH];
    intros [|fuel] Hlt; try lia; cbn [getParent_loop]; unfold bind at 1;
    rewrite (proj2 (Values_get_Some v typ name s _ s)
               (ex_intro _ V (conj Hv (conj eq_refl eq_refl)))), Hi.
  - reflexivity.
  - munfold. rewrite Hv, Hp. apply IH.
    destruct (Hwf _ _ _ Hv Hp). lia.
Qed.

Lemma getParent_loop_unbound s typ name :
  values_wf s →
  ∀ p fuel, p < fuel → is_Some (values s !! p) → unbound s typ name p →
  getParent_loop fuel (Some p) typ name s = Some (None, s).
Proof.
  intros Hwf p. induction (lt_wf p) as [p _ IH].
  intros [|fuel] Hlt [V HV] Hun; [lia|]. cbn [getParent_loop]. unfold bind at 1.
  rewrite (proj2 (Values_get_Some p typ name s _ s)
             (ex_intro _ V (conj HV (conj eq_refl eq_refl)))).
  rewrite (Hun p V (or_introl eq_refl) HV).
  munfold. rewrite HV.
  destruct (v_parent V) as [q|] eqn:Hq.
  - destruct (Hwf _ _ _ HV Hq) as [Hqp Hqa].
    apply IH; [done | lia | done |].
    intros a A [->|Ha] HA.
    + apply (Hun q A); [|done]. right. by eapply ancestor_parent.
    + apply (Hun a A); [|done]. right. by eapply ancestor_step.
  - by destruct fuel.
Qed.

(** The lookup of [GetNamed]: the store itself, then the stores above it. *)
Lemma Values_lookup_bound s typ name v i :
  values_wf s → bound s typ name v i →
  (instance <- Values_get v typ name ;;
   match instance with
   | Some i => ret (Some i)
   | None => Values_getParent v typ name
   end) s = Some (Some i, s).
Proof.
  intros Hwf Hb. unfold bind at 1.
  destruct Hb as [v V i Hv Hi|v V p i Hv Hi Hp Hb];
    rewrite (proj2 (Values_get_Some v typ name s _ s)
               (ex_intro _ V (conj Hv (conj eq_refl eq_refl)))), Hi; [reflexivity|].
  unfold Values_getParent. munfold. rewrite Hv, Hp.
  apply getParent_loop_bound; [done | done |].
  destruct (Hwf _ _ _ Hv Hp) as [? ?].
  assert (v < fresh_loc (values s)) by (apply fresh_loc_gt; eauto). lia.
Qed.

Lemma Values_lookup_unbound s typ name v :
  values_wf s → is_Some (values s !! v) → unbound s typ name v →
  (instance <- Values_get v typ name ;;
   match instance with
   | Some i => ret (Some i)
   | None => Values_getParent v typ name
   end) s = Some (None, s).
Proof.
  intros Hwf [V Hv] Hun. unfold bind at 1.
  rewrite (proj2 (Values_get_Some v typ name s _ s)
             (ex_intro _ V (conj Hv (conj eq_refl eq_refl)))).
  rewrite (Hun v V (or_introl eq_refl) Hv).
  unfold Values_getParent. munfold. rewrite Hv.
  destruct (v_parent V) as [q|] eqn:Hq; [|by destruct (fresh_loc (values s))].
  destruct (Hwf _ _ _ Hv Hq) as [Hqp Hqa].
  apply getParent_loop_unbound; [done| |done|].
  - assert (v < fresh_loc (values s)) by (apply fresh_loc_gt; eauto). lia.
  - intros a A [->|Ha] HA.
    + apply (Hun q A); [|done]. right. by eapply ancestor_parent.
    + apply (Hun a A); [|done]. right. by eapply ancestor_step.
Qed.

(** The setter for [&x], [x] a variable whose type is not a pointer. *)
Lemma GetNamedSetter_var I t l name s old :
  Type_Kind t ≠ Ptr → mem s !! l = Some old →
  GetNamedSetter I (Some (VPtr t (Some l))) name s = Some (Ok (Ref t l), s).
Proof.
  intros Hk Hl. destruct t as [n|n|e]; [reflexivity | reflexivity | done].
Qed.

Lemma Values_GetNamed_var I v t l name s old :
  Type_Kind t ≠ Ptr → mem s !! l = Some old →
  Values_GetNamed I v (Some (VPtr t (Some l))) name s =
    (instance <- (instance <- Values_get v (Some t) name ;;
                  match instance with
                  | Some i => ret (Some i)
                  | None => Values_getParent v (Some t) name
                  end) ;;
     match instance with
     | None => ret (Some (errInstanceNotFound (Some t) name))
     | Some i => Value_Set I (Ref t l) i ;;; ret None
     end) s.
Proof.
  intros Hk Hl. unfold Values_GetNamed. unfold bind at 1.
  rewrite (GetNamedSetter_var _ _ _ _ _ _ Hk Hl). cbn [Value_Type].
  unfold bind. destruct (Values_get v (Some t) name s) as [[[i|] s1]|]; reflexivity.
Qed.

(** X6: [GetNamed] into [&x] finds the instance of the nearest store that
    holds the key, the store itself first and then its ancestors from the
    closest on, and assigns what the instance holds to [x]; when no store on
    the chain holds the key it fails with InstanceNotFound and changes
    nothing. *)
Theorem Values_GetNamed_nearest I s v t l old name :
  values_wf s → is_Some (values s !! v) →
  Type_Kind t ≠ Ptr → mem s !! l = Some old →
  (∀ i w, bound s (Some t) name v i →
     Value_read i s = Some (w, s) → typeof w = t →
     Values_GetNamed I v (Some (VPtr t (Some l))) name s
     = Some (None, with_var s l w))
  ∧ (unbound s (Some t) name v →
     Values_GetNamed I v (Some (VPtr t (Some l))) name s
     = Some (Some (errInstanceNotFound (Some t) name), s)).
Proof.
  intros Hwf Hv Hk Hl. split.
  - intros i w Hb Hr Hty.
    rewrite (Values_GetNamed_var _ _ _ _ _ _ _ Hk Hl).
    unfold bind at 1. rewrite (Values_lookup_bound _ _ _ _ _ Hwf Hb).
    unfold bind at 1. rewrite (Value_Set_Ref I t l i s w old Hl Hr).
    by rewrite assign_same.
  - intros Hun.
    rewrite (Values_GetNamed_var _ _ _ _ _ _ _ Hk Hl).
    unfold bind at 1. by rewrite (Values_lookup_unbound _ _ _ _ Hwf Hv Hun).
Qed.

(** The scoped store of [sample_stores] reads the 1 bound by its parent
    into the variable at address 1. *)
Lemma Values_GetNamed_nearest_witness :
  let s := with_var sample_stores 1 (int_value 0) in
  values_wf s ∧ bound s (Some tint) "" 2 (Copy (int_value 1))
  ∧ Values_GetNamed implements_nothing 2 (Some (VPtr tint (Some 1))) "" s
    = Some (None, with_var s 1 (int_value 1)).
Proof.
  intros s.
  assert (values_wf s) as Hwf by exact sample_stores_wf.
  assert (bound s (Some tint) "" 2 (Copy (int_value 1))) as Hb.
  { eapply bound_above; [reflexivity | reflexivity | reflexivity |].
    eapply bound_here; reflexivity. }
  split; [exact Hwf|]. split; [exact Hb|].
  destruct (Values_GetNamed_nearest implements_nothing s 2 tint 1 (int_value 0) "")
    as [Hhit _]; [exact Hwf | by eexists | done | reflexivity |].
  exact (Hhit (Copy (int_value 1)) (int_value 1) Hb eq_refl eq_refl).
Defined.

Lemma same_objects_refl s : same_objects s s.
Proof. by repeat split. Qed.

Lemma same_objects_trans s1 s2 s3 :
  same_objects s1 s2 → same_objects s2 s3 → same_objects s1 s3.
Proof.
  intros (? & ? & ? & ? & ?) (? & ? & ? & ? & ?). repeat split; congruence.
Qed.

Lemma same_objects_mem f s : same_objects s (state_upd_mem f s).
Proof. by repeat split. Qed.

Lemma Value_Set_Some I rv x s u s' :
  Value_Set I rv x s = Some (u, s') →
  ∃ t l w, rv = Ref t l ∧ s' = with_var s l w.
Proof.
  destruct rv as [v|t l]; [discriminate|]. unfold Value_Set.
  rewrite bind_Some. intros (w0 & s1 & Hr & Hk).
  apply Value_read_Some in Hr as [-> _].
  apply bind_Some in Hk as (w & s1 & Hd & Hk).
  unfold deref in Hd. destruct (assign I t w0) as [w1|]; [|discriminate].
  unfold ret in Hd. injection Hd as -> ->.
  unfold store in Hk. apply bind_Some in Hk as (y & s2 & Hload & Hk).
  apply load_Some in Hload as [_ ->].
  unfold modify in Hk. injection Hk as _ <-. by exists t, l, w.
Qed.

Lemma Value_Set_frame I rv x s u s' :
  Value_Set I rv x s = Some (u, s') → same_objects s s'.
Proof.
  intros H. apply Value_Set_Some in H as (t & l & w & _ & ->).
  apply same_objects_mem.
Qed.

Lemma GetNamedSetter_loop_frame I t rv name s r s' :
  GetNamedSetter_loop I t rv name s = Some (r, s') → same_objects s s'.
Proof.
  revert rv s. induction t as [n|n|e IH]; intros rv s; cbn [GetNamedSetter_loop].
  - destruct (negb (Value_CanSet rv)); unfold ret; intros [= <- <-];
      apply same_objects_refl.
  - destruct (negb (Value_CanSet rv)); unfold ret; intros [= <- <-];
      apply same_objects_refl.
  - rewrite bind_Some. intros (b & s1 & Hn & Hk).
    apply Value_IsNil_Some in Hn as [-> _].
    assert (∀ s2, (rv1 <- Value_Elem rv ;; GetNamedSetter_loop I e rv1 name) s2
                  = Some (r, s') → same_objects s2 s') as Hrest.
    { intros s2. rewrite bind_Some. intros (rv1 & s3 & He & Hl).
      apply Value_Elem_Some in He as [-> _]. exact (IH _ _ Hl). }
    destruct b; [|exact (Hrest _ Hk)].
    destruct (negb (Value_CanSet rv)).
    { unfold ret in Hk. injection Hk as <- <-. apply same_objects_refl. }
    apply bind_Some in Hk as (p & s2 & Hnew & Hk).
    rewrite reflect_New_eq in Hnew. injection Hnew as <- <-.
    apply bind_Some in Hk as (u & s3 & Hset & Hk).
    apply Value_Set_frame in Hset. apply Hrest in Hk.
    eapply same_objects_trans; [apply same_objects_mem|].
    by eapply same_objects_trans.
Qed.

(** On a variable the loop of [GetNamedSetter] has no error to return. *)
Lemma GetNamedSetter_loop_Ref_Ok I t t0 l name s r s' :
  GetNamedSetter_loop I t (Ref t0 l) name s = Some (r, s') → ∃ rv, r = Ok rv.
Proof.
  revert t0 l s. induction t as [n|n|e IH]; intros t0 l s; cbn [GetNamedSetter_loop].
  - cbn. unfold ret. intros [= <- <-]. eauto.
  - cbn. unfold ret. intros [= <- <-]. eauto.
  - rewrite bind_Some. intros (b & s1 & Hn & Hk).
    assert (∀ s2, (rv1 <- Value_Elem (Ref t0 l) ;; GetNamedSetter_loop I e rv1 name) s2
                  = Some (r, s') → ∃ rv, r = Ok rv) as Hrest.
    { intros s2. rewrite bind_Some. intros (rv1 & s3 & He & Hl).
      apply Value_Elem_Some in He as [-> (e1 & e2 & p & _ & -> & _)].
      exact (IH _ _ _ Hl). }
    destruct b; [|exact (Hrest _ Hk)]. cbn [Value_CanSet negb] in Hk.
    apply bind_Some in Hk as (p & s2 & _ & Hk).
    apply bind_Some in Hk as (u & s3 & _ & Hk).
    exact (Hrest _ Hk).
Qed.

Lemma GetNamedSetter_ptr I t l name s :
  GetNamedSetter I (Some (VPtr t (Some l))) name s
  = GetNamedSetter_loop I t (Ref t l) name s.
Proof. reflexivity. Qed.

(** An error of [GetNamedSetter] comes before any pointer is set. *)
Lemma GetNamedSetter_Err I v name s e s' :
  GetNamedSetter I v name s = Some (Err e, s') →
  s' = s ∧ (Code e = Some ErrNilType ∨ Code e = Some ErrRequirePointer
            ∨ Code e = Some ErrNonSetNilPointer).
Proof.
  destruct v as [x|]; [|cbn; unfold ret; intros [= <- <-]; eauto].
  destruct x as [n d|e0 [p|]|n d].
  - cbn. unfold ret. intros [= <- <-]. eauto.
  - rewrite GetNamedSetter_ptr.
    intros H. by apply GetNamedSetter_loop_Ref_Ok in H as [rv [=]].
  - cbn. unfold ret. intros [= <- <-]. eauto 10.
  - cbn. unfold ret. intros [= <- <-]. eauto.
Qed.

Lemma GetNamedSetter_frame I v name s r s' :
  GetNamedSetter I v name s = Some (r, s') → same_objects s s'.
Proof.
  destruct v as [x|]; cbn.
  - apply GetNamedSetter_loop_frame.
  - unfold ret. intros [= <- <-]. apply same_objects_refl.
Qed.

Lemma Values_get_frame v typ name s r s' :
  Values_get v typ name s = Some (r, s') → s' = s.
Proof. rewrite Values_get_Some. by intros (_ & _ & -> & _). Qed.

Lemma Values_getParent_frame v typ name s r s' :
  Values_getParent v typ name s = Some (r, s') → s' = s.
Proof.
  unfold Values_getParent. munfold. destruct (values s !! v); [|discriminate].
  apply getParent_loop_state.
Qed.

(** X7: the errors of [SetNamed] are NilType and NilValue, and a failed
    [SetNamed] stores nothing.  The errors of [GetNamed] are NilType,
    RequirePointer, NonSetNilPointer and InstanceNotFound; a [GetNamed] that
    fails never writes to a store, and changes nothing at all unless the
    error is InstanceNotFound, which comes after the nil pointers of the
    target were set. *)
Theorem Values_errors I v x name s :
  (∀ err s', Values_SetNamed v x name s = Some (Some err, s') →
     s' = s ∧ (Code err = Some ErrNilType ∨ Code err = Some ErrNilValue))
  ∧ (∀ err s', Values_GetNamed I v x name s = Some (Some err, s') →
       same_objects s s'
       ∧ (Code err = Some ErrInstanceNotFound
          ∨ s' = s ∧ (Code err = Some ErrNilType ∨ Code err = Some ErrRequirePointer
                      ∨ Code err = Some ErrNonSetNilPointer))).
Proof.
  split.
  - intros err s'. unfold Values_SetNamed. rewrite bind_Some.
    intros ([rv|e] & s1 & Hg & Hk).
    + apply bind_Some in Hk as (u & s2 & _ & [=]).
    + unfold ret in Hk. injection Hk as <- <-.
      apply GetNamedInstance_Some in Hg as [-> [[_ ->]|[_ [t' ->]]]]; eauto.
  - intros err s'. unfold Values_GetNamed. rewrite bind_Some.
    intros ([rv|e] & s1 & Hg & Hk).
    + pose proof (GetNamedSetter_frame _ _ _ _ _ _ Hg) as Hf.
      apply bind_Some in Hk as (i1 & s2 & Hget & Hk).
      apply Values_get_frame in Hget as ->.
      apply bind_Some in Hk as (i2 & s2 & Hpar & Hk).
      assert (s2 = s1) as ->.
      { destruct i1; [unfold ret in Hpar; by injection Hpar as _ <-|].
        by apply Values_getParent_frame in Hpar. }
      destruct i2 as [i|].
      * apply bind_Some in Hk as (u & s2 & _ & [=]).
      * unfold ret in Hk. injection Hk as <- <-. split; [done | by left].
    + unfold ret in Hk. injection Hk as <- <-.
      apply GetNamedSetter_Err in Hg as [-> Hc].
      split; [apply same_objects_refl | by right].
Qed.

(** [GetNamed] into a pointer to a nil [*int] on an empty store: the error
    is InstanceNotFound, and the nil pointer has been set to a new int. *)
Lemma Values_errors_witness :
  let s := with_var (with_store (empty_state 30) None) 1 (VPtr tint None) in
  Values_GetNamed implements_nothing 1 (Some (VPtr (TPtr tint) (Some 1))) "" s
  = Some (Some (errInstanceNotFound (Some tint) ""),
          with_var (with_var s 2 (VData "int" DZero)) 1 (VPtr tint (Some 2)))
  ∧ same_objects s (with_var (with_var s 2 (VData "int" DZero)) 1 (VPtr tint (Some 2))).
Proof.
  intros s. split; [reflexivity|].
  exact (proj1 (proj2 (Values_errors implements_nothing 1
                  (Some (VPtr (TPtr tint) (Some 1))) "" s) _ _ eq_refl)).
Defined.

Lemma Values_SetNamed_eq v x name s V rv :
  values s !! v = Some V →
  GetNamedInstance (Some x) name s = Some (Ok rv, s) →
  Values_SetNamed v (Some x) name s
  = Some (None, with_instance s v V (Some (Value_Type rv)) name rv).
Proof.
  intros Hv Hg. unfold Values_SetNamed. unfold bind at 1. rewrite Hg.
  unfold bind at 1. by rewrite (Values_set_eq _ _ _ _ _ _ Hv).
Qed.

Lemma bound_with_instance s v V typ name i :
  values s !! v = Some V →
  bound (with_instance s v V typ name i) typ name v i.
Proof.
  intros Hv. eapply bound_here.
  - unfold with_instance, state_upd_values. cbn. apply lookup_insert_eq.
  - cbn. apply lookup2_insert2.
Qed.

(** What [GetNamed] into [&x] does once the store itself holds the key. *)
Lemma Values_GetNamed_here I s v V t l old name i w :
  values s !! v = Some V → lookup2 (v_instances V) (Some t) name = Some i →
  Type_Kind t ≠ Ptr → mem s !! l = Some old →
  Value_read i s = Some (w, s) → typeof w = t →
  Values_GetNamed I v (Some (VPtr t (Some l))) name s = Some (None, with_var s l w).
Proof.
  intros Hv Hi Hk Hl Hr Hty.
  rewrite (Values_GetNamed_var _ _ _ _ _ _ _ Hk Hl).
  unfold bind at 1. unfold bind at 1.
  rewrite (proj2 (Values_get_Some v (Some t) name s _ s)
             (ex_intro _ V (conj Hv (conj eq_refl eq_refl)))), Hi.
  unfold ret at 1. unfold bind at 1.
  rewrite (Value_Set_Ref I t l i s w old Hl Hr). by rewrite assign_same.
Qed.

(** The same from a store scoped directly under the one that holds the key. *)
Lemma Values_GetNamed_parent I s c v V t l old name i w :
  values s !! c = Some (mkValues (Some v) ∅) →
  values s !! v = Some V → lookup2 (v_instances V) (Some t) name = Some i →
  Type_Kind t ≠ Ptr → mem s !! l = Some old →
  Value_read i s = Some (w, s) → typeof w = t →
  Values_GetNamed I c (Some (VPtr t (Some l))) name s = Some (None, with_var s l w).
Proof.
  intros Hc Hv Hi Hk Hl Hr Hty.
  rewrite (Values_GetNamed_var _ _ _ _ _ _ _ Hk Hl).
  unfold bind at 1. unfold bind at 1.
  rewrite (proj2 (Values_get_Some c (Some t) name s _ s)
             (ex_intro _ _ (conj Hc (conj eq_refl eq_refl)))).
  cbn [v_instances lookup2]. unfold lookup2. rewrite lookup_empty.
  unfold Values_getParent. munfold. rewrite Hc. cbn [v_parent].
  assert (∃ fuel, fresh_loc (values s) = S fuel) as [fuel ->] by (by eexists).
  cbn [getParent_loop]. unfold bind at 1.
  rewrite (proj2 (Values_get_Some v (Some t) name s _ s)
             (ex_intro _ V (conj Hv (conj eq_refl eq_refl)))), Hi.
  unfold ret at 1.
  rewrite (Value_Set_Ref I t l i s w old Hl Hr). by rewrite assign_same.
Qed.

(** X8: what [SetNamed] stored, [GetNamed] returns.  After [SetNamed] of a
    value [x] that is not a pointer on a store, [GetNamed] into a variable
    of the type of [x] assigns [x] to it, on that store and on a store
    scoped from it afterwards. *)
Theorem Values_SetNamed_GetNamed I s v V x name l old :
  values s !! v = Some V →
  Type_Kind (typeof x) ≠ Ptr → is_nil x = false →
  mem s !! l = Some old →
  ∃ s1 c s2,
    Values_SetNamed v (Some x) name s = Some (None, s1)
    ∧ NewValuesScope (Some v) s1 = Some (c, s2)
    ∧ Values_GetNamed I v (Some (VPtr (typeof x) (Some l))) name s2
      = Some (None, with_var s2 l x)
    ∧ Values_GetNamed I c (Some (VPtr (typeof x) (Some l))) name s2
      = Some (None, with_var s2 l x).
Proof.
  intros Hv Hk Hnil Hl.
  pose proof (GetNamedInstance_value x name s Hk Hnil) as Hg.
  set (s1 := with_instance s v V (Some (typeof x)) name (Copy x)).
  set (c := fresh_loc (values s1)).
  set (s2 := with_store s1 (Some v)).
  set (V1 := mkValues (v_parent V) (insert2 (v_instances V) (Some (typeof x)) name (Copy x))).
  assert (values s1 !! v = Some V1) as Hv1.
  { unfold s1, with_instance, state_upd_values. cbn. apply lookup_insert_eq. }
  assert (values s2 !! v = Some V1) as Hv2.
  { unfold s2, with_store, state_upd_values. cbn.
    rewrite lookup_insert_ne; [done|].
    intros Heq. change (fresh_loc (values s1) = v) in Heq.
    assert (v < fresh_loc (values s1)) by (apply fresh_loc_gt; eauto). lia. }
  assert (values s2 !! c = Some (mkValues (Some v) ∅)) as Hc2.
  { unfold s2, with_store, state_upd_values. cbn. apply lookup_insert_eq. }
  exists s1, c, s2.
  split. { exact (Values_SetNamed_eq v x name s V (Copy x) Hv Hg). }
  split; [reflexivity|].
  split.
  - eapply Values_GetNamed_here; [exact Hv2 | apply lookup2_insert2 | done | exact Hl
                                 | reflexivity | reflexivity].
  - eapply Values_GetNamed_parent; [exact Hc2 | exact Hv2 | apply lookup2_insert2 | done
                                   | exact Hl | reflexivity | reflexivity].
Qed.

(** The int 7 set on a root store and read back into the variable at 1. *)
Lemma Values_SetNamed_GetNamed_witness :
  let s := with_var (with_store (empty_state 30) None) 1 (int_value 0) in
  ∃ s1 s2,
    Values_SetNamed 1 (Some (int_value 7)) "" s = Some (None, s1)
    ∧ NewValuesScope (Some 1) s1 = Some (2, s2)
    ∧ Values_GetNamed implements_nothing 2 (Some (VPtr tint (Some 1))) "" s2
      = Some (None, with_var s2 1 (int_value 7)).
Proof.
  intros s.
  destruct (Values_SetNamed_GetNamed implements_nothing s 1 (mkValues None ∅)
              (int_value 7) "" 1 (int_value 0))
    as (s1 & c & s2 & Hset & Hscope & _ & Hget);
    [reflexivity | done | reflexivity | reflexivity |].
  assert (c = 2) as ->.
  { vm_compute in Hset. injection Hset as <-.
    vm_compute in Hscope. by injection Hscope as <- _. }
  exists s1, s2. split; [exact Hset|]. split; [exact Hscope | exact Hget].
Defined.

(** X9: an instance set through a pointer is shared, not copied.  After
    [SetNamed] of [&x] the store holds the variable [x] itself, so that a
    later [GetNamed] assigns what [x] holds at that time, not what it held
    when it was set. *)
Theorem Values_SetNamed_shares I s v V t lx w name l old w' :
  values s !! v = Some V → Type_Kind t ≠ Ptr →
  mem s !! lx = Some w → is_nil w = false →
  mem s !! l = Some old → typeof w' = t →
  ∃ s1,
    Values_SetNamed v (Some (VPtr t (Some lx))) name s = Some (None, s1)
    ∧ mem s1 = mem s
    ∧ Values_GetNamed I v (Some (VPtr t (Some l))) name (with_var s1 lx w')
      = Some (None, with_var (with_var s1 lx w') l w').
Proof.
  intros Hv Hk Hlx Hnil Hl Hty.
  pose proof (GetNamedInstance_var t lx w name s Hk Hlx Hnil) as Hg.
  exists (with_instance s v V (Some t) name (Ref t lx)).
  split. { exact (Values_SetNamed_eq v _ name s V (Ref t lx) Hv Hg). }
  split; [reflexivity|].
  assert (∃ old', mem (with_var (with_instance s v V (Some t) name (Ref t lx)) lx w') !! l
                  = Some old') as [old' Hl'].
  { unfold with_var, with_instance, state_upd_values, state_upd_mem. cbn.
    destruct (decide (lx = l)) as [->|Hne].
    - rewrite lookup_insert_eq. eauto.
    - rewrite lookup_insert_ne by done. eauto. }
  eapply (Values_GetNamed_here I _ v _ t l old' name (Ref t lx) w').
  - unfold with_var, with_instance, state_upd_values, state_upd_mem. cbn.
    apply lookup_insert_eq.
  - apply lookup2_insert2.
  - done.
  - exact Hl'.
  - unfold Value_read, load. munfold.
    unfold with_var, with_instance, state_upd_values, state_upd_mem. cbn.
    by rewrite lookup_insert_eq.
  - done.
Qed.

(** [&x] is set while [x] holds 1; [x] then becomes 2, and 2 is read. *)
Lemma Values_SetNamed_shares_witness :
  let s := with_var (with_var (with_store (empty_state 30) None) 1 (int_value 1))
             2 (int_value 0) in
  ∃ s1,
    Values_SetNamed 1 (Some (VPtr tint (Some 1))) "" s = Some (None, s1)
    ∧ Values_GetNamed implements_nothing 1 (Some (VPtr tint (Some 2))) ""
        (with_var s1 1 (int_value 2))
      = Some (None, with_var (with_var s1 1 (int_value 2)) 2 (int_value 2)).
Proof.
  intros s.
  destruct (Values_SetNamed_shares implements_nothing s 1 (mkValues None ∅) tint 1
              (int_value 1) "" 2 (int_value 0) (int_value 2))
    as (s1 & Hset & _ & Hget); try reflexivity; [done|].
  exists s1. split; [exact Hset | exact Hget].
Defined.

(** ** The registry *)

Lemma registry_get_eq r typ name s :
  registries_wf s → is_Some (registries s !! r) →
  registry_get r typ name s = Some (registered s r typ name, s).
Proof.
  intros [Hal _] [R HR]. unfold registry_get, registered. munfold. rewrite HR. cbn.
  destruct (registrations R !! typ) as [ref|] eqn:Ht; cbn; [|done].
  destruct (Hal _ _ _ _ HR Ht) as [inner Hin]. by rewrite Hin.
Qed.

Lemma registries_wf_empty limit : registries_wf (empty_state limit).
Proof. split; intros *; cbn; by rewrite lookup_empty. Qed.

Lemma newRegistry_eq s :
  newRegistry s
  = Some (fresh_loc (registries s),
          state_upd_registries <[fresh_loc (registries s):=mkRegistry ∅]> s).
Proof. reflexivity. Qed.

Lemma newRegistry_wf s :
  registries_wf s →
  registries_wf (state_upd_registries <[fresh_loc (registries s):=mkRegistry ∅]> s).
Proof.
  intros [Hal Hsep]. split.
  - intros r R typ ref. cbn.
    intros [[<- <-]|[Hne HR]]%lookup_insert_Some; cbn; [by rewrite lookup_empty|].
    by eapply Hal.
  - intros r1 R1 typ1 r2 R2 typ2 ref. cbn.
    intros [[<- <-]|[Hne1 HR1]]%lookup_insert_Some; cbn; [by rewrite lookup_empty|].
    intros H1.
    intros [[<- <-]|[Hne2 HR2]]%lookup_insert_Some; cbn; [by rewrite lookup_empty|].
    by eapply Hsep.
Qed.

(** The state after [registry_set]. *)
Lemma registry_set_eq r typ name reg s R :
  registries_wf s → registries s !! r = Some R →
  registry_set r typ name reg s =
    Some (tt,
      match registrations R !! typ with
      | Some ref =>
          state_upd_named <[ref:=<[name:=reg]> (default ∅ (named s !! ref))]> s
      | None =>
          state_upd_registries <[r:=mkRegistry (<[typ:=fresh_loc (named s)]> (registrations R))]>
            (state_upd_named <[fresh_loc (named s):={[name:=reg]}]> s)
      end).
Proof.
  intros [Hal _] HR. unfold registry_set. munfold. rewrite HR. cbn.
  destruct (registrations R !! typ) as [ref|] eqn:Ht; cbn; [|done].
  destruct (Hal _ _ _ _ HR Ht) as [inner Hin]. by rewrite Hin.
Qed.

Lemma registry_set_spec r typ name reg s :
  registries_wf s → is_Some (registries s !! r) →
  ∃ s', registry_set r typ name reg s = Some (tt, s')
        ∧ registries_wf s'
        ∧ same_but_registries s s'
        ∧ (∀ r', is_Some (registries s' !! r') ↔ is_Some (registries s !! r'))
        ∧ registered s' r typ name = Some reg
        ∧ (∀ r' typ' name', (r', typ', name') ≠ (r, typ, name) →
             registered s' r' typ' name' = registered s r' typ' name').
Proof.
  intros Hwf [R HR]. pose proof Hwf as [Hal Hsep].
  eexists. split; [by apply registry_set_eq|].
  destruct (registrations R !! typ) as [ref|] eqn:Ht.
  - (* the inner map exists and is updated in place *)
    destruct (Hal _ _ _ _ HR Ht) as [inner Hin]. rewrite Hin. cbn [default].
    split; [|split; [done|split; [done|split]]].
    + split.
      * intros r0 R0 typ0 ref0 HR0 Ht0. cbn.
        destruct (decide (ref0 = ref)) as [->|Hne]; [by rewrite lookup_insert_eq|].
        rewrite lookup_insert_ne by done. by eapply Hal.
      * exact Hsep.
    + unfold registered. cbn. rewrite HR. cbn. rewrite Ht. cbn.
      rewrite lookup_insert_eq. cbn. apply lookup_insert_eq.
    + intros r' typ' name' Hne. unfold registered. cbn.
      destruct (registries s !! r') as [R'|] eqn:HR'; cbn; [|done].
      destruct (registrations R' !! typ') as [ref'|] eqn:Ht'; cbn; [|done].
      destruct (decide (ref' = ref)) as [->|Href].
      * destruct (Hsep _ _ _ _ _ _ _ HR' Ht' HR Ht) as [-> ->].
        rewrite lookup_insert_eq, Hin. cbn.
        rewrite lookup_insert_ne; [done | congruence].
      * by rewrite lookup_insert_ne.
  - (* a new inner map *)
    set (ref := fresh_loc (named s)).
    assert (∀ r0 R0 typ0, registries s !! r0 = Some R0 →
              registrations R0 !! typ0 ≠ Some ref) as Hfresh.
    { intros r0 R0 typ0 HR0 Ht0. destruct (Hal _ _ _ _ HR0 Ht0) as [x Hx].
      unfold ref in Hx. by rewrite fresh_loc_None in Hx. }
    split; [|split; [done|split; [|split]]].
    + split.
      * intros r0 R0 typ0 ref0. cbn.
        intros [[<- <-]|[Hne HR0]]%lookup_insert_Some; cbn.
        -- intros [[<- <-]|[Hne Ht0]]%lookup_insert_Some.
           ++ by rewrite lookup_insert_eq.
           ++ rewrite lookup_insert_ne; [by eapply Hal|].
              intros <-. by eapply Hfresh.
        -- intros Ht0. rewrite lookup_insert_ne; [by eapply Hal|].
           intros <-. by eapply Hfresh.
      * intros r1 R1 typ1 r2 R2 typ2 ref0. cbn.
        intros [[<- <-]|[Hne1 HR1]]%lookup_insert_Some; cbn;
        intros H1;
        intros [[<- <-]|[Hne2 HR2]]%lookup_insert_Some; cbn; intros H2.
        -- split; [done|].
           apply lookup_insert_Some in H1 as [[<- <-]|[Hn1 H1]];
           apply lookup_insert_Some in H2 as [[<- Heq]|[Hn2 H2]]; try done.
           ++ by destruct (Hfresh _ _ _ HR H2).
           ++ subst ref0. by destruct (Hfresh _ _ _ HR H1).
           ++ by destruct (Hsep _ _ _ _ _ _ _ HR H1 HR H2).
        -- apply lookup_insert_Some in H1 as [[<- <-]|[Hn1 H1]].
           ++ by destruct (Hfresh _ _ _ HR2 H2).
           ++ by destruct (Hsep _ _ _ _ _ _ _ HR H1 HR2 H2) as [-> _].
        -- apply lookup_insert_Some in H2 as [[<- <-]|[Hn2 H2]].
           ++ by destruct (Hfresh _ _ _ HR1 H1).
           ++ by destruct (Hsep _ _ _ _ _ _ _ HR1 H1 HR H2) as [-> _].
        -- by eapply Hsep.
    + intros r'. cbn. destruct (decide (r' = r)) as [->|Hne].
      * rewrite lookup_insert_eq, HR. split; eauto.
      * by rewrite lookup_insert_ne.
    + unfold registered. cbn. rewrite lookup_insert_eq. cbn.
      rewrite lookup_insert_eq. cbn. rewrite lookup_insert_eq. cbn.
      apply lookup_singleton_eq.
    + intros r' typ' name' Hne. unfold registered. cbn.
      destruct (decide (r' = r)) as [->|Hr].
      * rewrite lookup_insert_eq, HR. cbn.
        destruct (decide (typ' = typ)) as [->|Htyp].
        -- rewrite lookup_insert_eq, Ht. cbn. rewrite lookup_insert_eq. cbn.
           apply lookup_singleton_ne. congruence.
        -- rewrite lookup_insert_ne by done.
           destruct (registrations R !! typ') as [ref'|] eqn:Ht'; cbn; [|done].
           rewrite lookup_insert_ne; [done|].
           intros <-. by eapply Hfresh.
      * rewrite lookup_insert_ne by done.
        destruct (registries s !! r') as [R'|] eqn:HR'; cbn; [|done].
        destruct (registrations R' !! typ') as [ref'|] eqn:Ht'; cbn; [|done].
        rewrite lookup_insert_ne; [done|].
        intros <-. by eapply Hfresh.
Qed.

(** X10: what [set] stored in a registry, [get] returns, and no other entry
    changes: every other key of the registry, and every key of every other
    registry, reads as before.  Nothing but registries is touched. *)
Theorem registry_set_get r typ name reg s :
  registries_wf s → is_Some (registries s !! r) →
  ∃ s', registry_set r typ name reg s = Some (tt, s')
        ∧ registries_wf s'
        ∧ same_but_registries s s'
        ∧ registry_get r typ name s' = Some (Some reg, s')
        ∧ (∀ r' typ' name',
             is_Some (registries s !! r') → (r', typ', name') ≠ (r, typ, name) →
             ∃ o, registry_get r' typ' name' s = Some (o, s)
                  ∧ registry_get r' typ' name' s' = Some (o, s')).
Proof.
  intros Hwf Hr.
  destruct (registry_set_spec r typ name reg s Hwf Hr)
    as (s' & Hset & Hwf' & Hsame & Hdom & Hnew & Hold).
  exists s'. split; [exact Hset|]. split; [exact Hwf'|]. split; [exact Hsame|].
  split.
  - rewrite registry_get_eq; [by rewrite Hnew | done | by apply Hdom].
  - intros r' typ' name' Hr' Hne. exists (registered s r' typ' name'). split.
    + by apply registry_get_eq.
    + rewrite registry_get_eq; [by rewrite Hold | done | by apply Hdom].
Qed.

(** A registration of (int, "") set on an empty registry. *)
Lemma registry_set_get_witness :
  let s := state_upd_registries <[1:=mkRegistry ∅]> (empty_state 30) in
  registries_wf s
  ∧ ∃ s', registry_set 1 (Some tint) "" (int_registration 1 PerScope) s = Some (tt, s')
          ∧ registry_get 1 (Some tint) "" s' = Some (Some (int_registration 1 PerScope), s')
          ∧ registry_get 1 (Some tstring) "" s' = Some (None, s').
Proof.
  intros s.
  assert (registries_wf s) as Hwf.
  { exact (newRegistry_wf _ (registries_wf_empty 30)). }
  split; [exact Hwf|].
  destruct (registry_set_get 1 (Some tint) "" (int_registration 1 PerScope) s Hwf)
    as (s' & Hset & _ & _ & Hget & Hother); [by eexists|].
  exists s'. split; [exact Hset|]. split; [exact Hget|].
  destruct (Hother 1 (Some tstring) "") as (o & Ho & Ho'); [by eexists | done |].
  vm_compute in Ho. injection Ho as <-. exact Ho'.
Defined.

(** ** registry.clone *)

Lemma map_fold_copy {A} (m : gmap string A) :
  map_fold (λ name x acc, <[name:=x]> acc) ∅ m = m.
Proof.
  apply (map_fold_weak_ind (λ acc m, acc = m)); [done|].
  intros i x m0 r _ ->. done.
Qed.

Lemma clone_entry_eq clone k ref s inner C :
  named s !! ref = Some inner → registries s !! clone = Some C →
  clone_entry clone k ref s =
    Some (tt, state_upd_registries
                <[clone:=mkRegistry (<[k:=fresh_loc (named s)]> (registrations C))]>
                (state_upd_named <[fresh_loc (named s):=inner]> s)).
Proof.
  intros Hin HC. unfold clone_entry. munfold. rewrite Hin. cbn. rewrite HC. cbn.
  by rewrite map_fold_copy.
Qed.

(** The loop of [clone], from the state [s] in which the clone [c] is still
    empty, over the entries [m] of the registry that is cloned. *)
Lemma clone_loop (s : State) (c : loc) (m : gmap reflect_Type loc) :
  registries s !! c = Some (mkRegistry ∅) →
  (∀ k ref, m !! k = Some ref → is_Some (named s !! ref)) →
  ∃ s1 M',
    map_fold (λ k ref rest, rest ;;; clone_entry c k ref) (ret tt) m s = Some (tt, s1)
    ∧ same_but_registries s s1
    ∧ (∀ a, a ≠ c → registries s1 !! a = registries s !! a)
    ∧ registries s1 !! c = Some (mkRegistry M')
    ∧ (∀ a x, named s !! a = Some x → named s1 !! a = Some x)
    ∧ (∀ a, named s !! a = None → is_Some (named s1 !! a) → ∃ k, M' !! k = Some a)
    ∧ (∀ k, M' !! k = None ↔ m !! k = None)
    ∧ (∀ k ref', M' !! k = Some ref' →
         named s !! ref' = None
         ∧ ∃ ref, m !! k = Some ref ∧ named s1 !! ref' = named s !! ref)
    ∧ (∀ k1 k2 ref', M' !! k1 = Some ref' → M' !! k2 = Some ref' → k1 = k2).
Proof.
  intros Hc. revert m.
  apply (map_fold_weak_ind (λ (comp : M unit) (m : gmap reflect_Type loc),
    (∀ k ref, m !! k = Some ref → is_Some (named s !! ref)) →
    ∃ s1 M',
      comp s = Some (tt, s1)
      ∧ same_but_registries s s1
      ∧ (∀ a, a ≠ c → registries s1 !! a = registries s !! a)
      ∧ registries s1 !! c = Some (mkRegistry M')
      ∧ (∀ a x, named s !! a = Some x → named s1 !! a = Some x)
      ∧ (∀ a, named s !! a = None → is_Some (named s1 !! a) → ∃ k, M' !! k = Some a)
      ∧ (∀ k, M' !! k = None ↔ m !! k = None)
      ∧ (∀ k ref', M' !! k = Some ref' →
           named s !! ref' = None
           ∧ ∃ ref, m !! k = Some ref ∧ named s1 !! ref' = named s !! ref)
      ∧ (∀ k1 k2 ref', M' !! k1 = Some ref' → M' !! k2 = Some ref' → k1 = k2))).
  - intros _. exists s, ∅. split; [done|]. split; [done|]. split; [done|].
    split; [done|]. split; [done|].
    split. { intros a Ha [x Hx]. congruence. }
    split. { intros k. by rewrite !lookup_empty. }
    split. { intros k ref'. by rewrite lookup_empty. }
    intros k1 k2 ref'. by rewrite lookup_empty.
  - intros i ref m rest Hi IH Hal.
    destruct IH as (s1 & M' & Hrest & Hsame & Hother & HM' & Hext & Hnew & Hdom & Hcopy & Hinj).
    { intros k ref0 Hk. apply (Hal k). rewrite lookup_insert_ne; [done|].
      intros <-. congruence. }
    destruct (Hal i ref) as [inner Hin]; [apply lookup_insert_eq|].
    pose proof (Hext _ _ Hin) as Hin1.
    set (ref' := fresh_loc (named s1)).
    assert (named s1 !! ref' = None) as Hfresh1 by apply fresh_loc_None.
    assert (named s !! ref' = None) as Hfresh.
    { destruct (named s !! ref') as [x|] eqn:Hx; [|done].
      apply Hext in Hx. congruence. }
    assert (∀ k, M' !! k ≠ Some ref') as Hnot.
    { intros k Hk. destruct (Hcopy _ _ Hk) as (_ & ref0 & Hm & Heq).
      destruct (Hal k ref0) as [x Hx].
      { rewrite lookup_insert_ne; [done|]. intros <-. congruence. }
      rewrite Hx in Heq. congruence. }
    eexists _, (<[i:=ref']> M').
    split.
    { unfold bind. rewrite Hrest. by apply clone_entry_eq. }
    destruct Hsame as (? & ? & ? & ?).
    split; [done|].
    split. { intros a Ha. cbn. rewrite lookup_insert_ne by done. by apply Hother. }
    split. { cbn. by rewrite lookup_insert_eq. }
    split.
    { intros a x Ha. cbn. rewrite lookup_insert_ne; [by apply Hext|].
      intros Heq. change (ref' = a) in Heq. subst a. congruence. }
    split.
    { intros a Ha. cbn. destruct (decide (a = ref')) as [->|Hne].
      - intros _. exists i. apply lookup_insert_eq.
      - rewrite lookup_insert_ne by (intros Heq; by apply Hne). intros Hs.
        destruct (Hnew a Ha Hs) as [k Hk]. exists k.
        rewrite lookup_insert_ne; [done|]. intros <-.
        apply Hdom in Hi. congruence. }
    split.
    { intros k. destruct (decide (k = i)) as [->|Hne].
      - by rewrite !lookup_insert_eq.
      - rewrite !lookup_insert_ne by done. apply Hdom. }
    split.
    { intros k ref0. cbn. destruct (decide (k = i)) as [->|Hne].
      - rewrite lookup_insert_eq. intros [= <-]. split; [done|].
        exists ref. rewrite lookup_insert_eq. split; [done|].
        rewrite Hin. apply lookup_insert_eq.
      - rewrite lookup_insert_ne by done. intros Hk.
        destruct (Hcopy _ _ Hk) as (Hf & ref1 & Hm & Heq).
        split; [done|]. exists ref1. rewrite (lookup_insert_ne _ i k) by done.
        split; [done|]. rewrite lookup_insert_ne; [done|].
        intros Hsame. change (ref' = ref0) in Hsame. subst ref0. by destruct (Hnot k). }
    intros k1 k2 ref0.
    destruct (decide (k1 = i)) as [->|Hne1]; destruct (decide (k2 = i)) as [->|Hne2];
      [done| | |].
    + rewrite lookup_insert_eq, lookup_insert_ne by done. intros [= <-] Hk2.
      by destruct (Hnot k2).
    + rewrite lookup_insert_eq, lookup_insert_ne by done. intros Hk1 [= <-].
      by destruct (Hnot k1).
    + rewrite !lookup_insert_ne by done. apply Hinj.
Qed.

Lemma registry_clone_spec r s :
  registries_wf s → is_Some (registries s !! r) →
  ∃ s', registry_clone r s = Some (fresh_loc (registries s), s')
        ∧ registries_wf s'
        ∧ same_but_registries s s'
        ∧ (∀ r', is_Some (registries s' !! r') ↔
                 r' = fresh_loc (registries s) ∨ is_Some (registries s !! r'))
        ∧ (∀ typ name,
             registered s' (fresh_loc (registries s)) typ name = registered s r typ name)
        ∧ (∀ r' typ name, is_Some (registries s !! r') →
             registered s' r' typ name = registered s r' typ name).
Proof.
  intros Hwf [R HR]. pose proof Hwf as [Hal Hsep].
  set (c := fresh_loc (registries s)).
  set (s0 := state_upd_registries <[c:=mkRegistry ∅]> s).
  assert (registries s !! c = None) as Hc by apply fresh_loc_None.
  assert (c ≠ r) as Hcr by (intros ->; congruence).
  destruct (clone_loop s0 c (registrations R))
    as (s1 & M' & Hloop & Hsame & Hother & HM' & Hext & Hnew & Hdom & Hcopy & Hinj).
  { cbn. apply lookup_insert_eq. }
  { intros k ref Hk. cbn. by eapply Hal. }
  assert (∀ a, a ≠ c → registries s1 !! a = registries s !! a) as Hother'.
  { intros a Ha. rewrite Hother by done. cbn. by rewrite lookup_insert_ne. }
  exists s1. split.
  { unfold registry_clone.
    apply bind_Some. exists (registries s), s. split; [reflexivity|].
    apply bind_Some. exists R, s. split; [unfold deref; by rewrite HR|].
    apply bind_Some. exists c, s0. split; [reflexivity|].
    apply bind_Some. exists tt, s1. split; [exact Hloop | reflexivity]. }
  split.
  { split.
    - intros a Ra typ ref HRa Ht.
      destruct (decide (a = c)) as [->|Ha].
      + rewrite HM' in HRa. injection HRa as <-. cbn in Ht.
        destruct (Hcopy _ _ Ht) as (_ & ref0 & Hm & ->). cbn. by eapply Hal.
      + rewrite Hother' in HRa by done.
        destruct (Hal _ _ _ _ HRa Ht) as [x Hx]. exists x. by apply Hext.
    - intros r1 R1 typ1 r2 R2 typ2 ref HR1 Ht1 HR2 Ht2.
      destruct (decide (r1 = c)) as [->|H1]; destruct (decide (r2 = c)) as [->|H2].
      + split; [done|]. rewrite HM' in HR1, HR2.
        injection HR1 as <-. injection HR2 as <-. by eapply Hinj.
      + rewrite HM' in HR1. injection HR1 as <-. cbn in Ht1.
        destruct (Hcopy _ _ Ht1) as (Hf & _). cbn in Hf.
        rewrite Hother' in HR2 by done.
        destruct (Hal _ _ _ _ HR2 Ht2) as [x Hx]. congruence.
      + rewrite HM' in HR2. injection HR2 as <-. cbn in Ht2.
        destruct (Hcopy _ _ Ht2) as (Hf & _). cbn in Hf.
        rewrite Hother' in HR1 by done.
        destruct (Hal _ _ _ _ HR1 Ht1) as [x Hx]. congruence.
      + rewrite Hother' in HR1, HR2 by done. by eapply Hsep. }
  split. { exact Hsame. }
  split.
  { intros r'. destruct (decide (r' = c)) as [->|Hne].
    - rewrite HM'. split; eauto.
    - rewrite Hother' by done. split; [eauto | by intros [?|?]]. }
  split.
  { intros typ name. unfold registered. rewrite HM', HR. cbn.
    destruct (M' !! typ) as [ref'|] eqn:Ht; cbn.
    - destruct (Hcopy _ _ Ht) as (_ & ref & -> & ->). done.
    - apply Hdom in Ht. by rewrite Ht. }
  intros r' typ name [R' HR']. unfold registered.
  assert (r' ≠ c) as Hne by (intros ->; congruence).
  rewrite Hother' by done. rewrite HR'. cbn.
  destruct (registrations R' !! typ) as [ref|] eqn:Ht; cbn; [|done].
  destruct (Hal _ _ _ _ HR' Ht) as [x Hx].
  change (named s0) with (named s) in Hext.
  by rewrite (Hext _ _ Hx), Hx.
Qed.

(** X11: [clone] returns a new registry that holds, under every key, the
    registration that the cloned registry holds, while every registry that
    existed, the cloned one and all others, reads as before under every key;
    the inner maps are copied, not shared, so that a later [set] on the
    clone does not show in any registry that existed, nor a [set] on the
    cloned registry in the clone. *)
Theorem registry_clone_copies r s :
  registries_wf s → is_Some (registries s !! r) →
  ∃ c s', registry_clone r s = Some (c, s')
    ∧ registries s !! c = None
    ∧ registries_wf s'
    ∧ same_but_registries s s'
    ∧ (∀ typ name, ∃ o,
         registry_get r typ name s = Some (o, s)
         ∧ registry_get r typ name s' = Some (o, s')
         ∧ registry_get c typ name s' = Some (o, s'))
    ∧ (∀ r' typ name, is_Some (registries s !! r') → ∃ o,
         registry_get r' typ name s = Some (o, s)
         ∧ registry_get r' typ name s' = Some (o, s'))
    ∧ (∀ typ name reg, ∃ s'',
         registry_set c typ name reg s' = Some (tt, s'')
         ∧ ∀ r' typ' name', is_Some (registries s !! r') → ∃ o,
             registry_get r' typ' name' s = Some (o, s)
             ∧ registry_get r' typ' name' s'' = Some (o, s''))
    ∧ (∀ typ name reg, ∃ s'',
         registry_set r typ name reg s' = Some (tt, s'')
         ∧ ∀ typ' name', ∃ o,
             registry_get r typ' name' s = Some (o, s)
             ∧ registry_get c typ' name' s'' = Some (o, s'')).
Proof.
  intros Hwf Hr.
  destruct (registry_clone_spec r s Hwf Hr)
    as (s' & Hclone & Hwf' & Hsame & Hdom & Hcopy & Hold).
  set (c := fresh_loc (registries s)) in *.
  assert (registries s !! c = None) as Hc by apply fresh_loc_None.
  assert (c ≠ r) as Hcr by (intros ->; destruct Hr; congruence).
  assert (is_Some (registries s' !! c)) as Hc' by (apply Hdom; by left).
  assert (is_Some (registries s' !! r)) as Hr' by (apply Hdom; by right).
  exists c, s'. split; [exact Hclone|]. split; [exact Hc|].
  split; [exact Hwf'|]. split; [exact Hsame|].
  split.
  { intros typ name. exists (registered s r typ name).
    split; [by apply registry_get_eq|].
    split; rewrite registry_get_eq by done; [by rewrite Hold | by rewrite Hcopy]. }
  split.
  { intros r' typ name Hr0. exists (registered s r' typ name).
    split; [by apply registry_get_eq|].
    rewrite registry_get_eq; [|done|apply Hdom; by right]. by rewrite Hold. }
  split.
  - intros typ name reg.
    destruct (registry_set_spec c typ name reg s' Hwf' Hc')
      as (s'' & Hset & Hwf'' & _ & Hdom'' & _ & Hframe).
    exists s''. split; [exact Hset|].
    intros r' typ' name' Hr0. exists (registered s r' typ' name').
    assert (r' ≠ c) as Hne by (intros ->; destruct Hr0; congruence).
    split; [by apply registry_get_eq|].
    rewrite registry_get_eq; [|done|apply Hdom''; apply Hdom; by right].
    rewrite Hframe by congruence. by rewrite Hold.
  - intros typ name reg.
    destruct (registry_set_spec r typ name reg s' Hwf' Hr')
      as (s'' & Hset & Hwf'' & _ & Hdom'' & _ & Hframe).
    exists s''. split; [exact Hset|].
    intros typ' name'. exists (registered s r typ' name').
    split; [by apply registry_get_eq|].
    rewrite registry_get_eq; [|done|by apply Hdom''].
    rewrite Hframe by congruence. by rewrite Hcopy.
Qed.

Lemma sample_registry_wf : registries_wf sample_registry.
Proof.
  split.
  - intros r R typ ref. cbn.
    intros [[<- <-]|[_ H]]%lookup_insert_Some; [|by rewrite lookup_empty in H].
    cbn. intros [<- <-]%lookup_singleton_Some. by rewrite lookup_insert_eq.
  - intros r1 R1 typ1 r2 R2 typ2 ref. cbn.
    intros [[<- <-]|[_ H]]%lookup_insert_Some; [|by rewrite lookup_empty in H].
    cbn. intros [<- <-]%lookup_singleton_Some.
    intros [[<- <-]|[_ H]]%lookup_insert_Some; [|by rewrite lookup_empty in H].
    cbn. by intros [<- _]%lookup_singleton_Some.
Qed.

(** The clone of [sample_registry] holds the registration for (int, ""). *)
Lemma registry_clone_copies_witness :
  registries_wf sample_registry
  ∧ ∃ c s', registry_clone 1 sample_registry = Some (c, s')
            ∧ registry_get c (Some tint) "" s'
              = Some (Some (int_registration 1 PerScope), s').
Proof.
  split; [exact sample_registry_wf|].
  destruct (registry_clone_copies 1 sample_registry sample_registry_wf)
    as (c & s' & Hclone & _ & _ & _ & Hcopy & _); [by eexists|].
  exists c, s'. split; [exact Hclone|].
  destruct (Hcopy (Some tint) "") as (o & Ho & _ & Hc).
  vm_compute in Ho. injection Ho as <-. exact Hc.
Defined.

(** ** registry.getAll *)

Lemma getAll_inner (inner : gmap string Registration) (acc : list Registration) reg :
  reg ∈ map_fold (λ _ registration acc, acc ++ [registration]) acc inner
  ↔ reg ∈ acc ∨ ∃ name, inner !! name = Some reg.
Proof.
  revert inner.
  apply (map_fold_weak_ind (λ (res : list Registration) (inner : gmap string Registration),
           reg ∈ res ↔ reg ∈ acc ∨ ∃ name, inner !! name = Some reg)).
  - split; [by left|]. intros [?|[name Hn]]; [done|]. by rewrite lookup_empty in Hn.
  - intros i x m res Hi IH. rewrite elem_of_app, IH, list_elem_of_singleton. split.
    + intros [[?|[name Hn]]| ->]; [by left| |].
      * right. exists name. rewrite lookup_insert_ne; [done|]. intros <-. congruence.
      * right. exists i. apply lookup_insert_eq.
    + intros [?|[name Hn]]; [by left; left|].
      apply lookup_insert_Some in Hn as [[<- <-]|[Hne Hn]]; [by right|].
      left. right. eauto.
Qed.

Lemma getAll_outer (s : State) (m : gmap reflect_Type loc) :
  (∀ k ref, m !! k = Some ref → is_Some (named s !! ref)) →
  ∃ regs,
    map_fold (λ (_ : reflect_Type) (ref : loc) (rest : M (list Registration)),
                registrations <- rest ;;
                ns <- gets named ;;
                inner <- deref (ns !! ref) ;;
                ret (map_fold (λ (_ : string) registration acc, acc ++ [registration])
                              registrations inner))
             (ret []) m s = Some (regs, s)
    ∧ ∀ reg, reg ∈ regs ↔
             ∃ typ ref inner name,
               m !! typ = Some ref ∧ named s !! ref = Some inner
               ∧ inner !! name = Some reg.
Proof.
  revert m.
  apply (map_fold_weak_ind
    (λ (comp : M (list Registration)) (m : gmap reflect_Type loc),
       (∀ k ref, m !! k = Some ref → is_Some (named s !! ref)) →
       ∃ regs, comp s = Some (regs, s)
         ∧ ∀ reg, reg ∈ regs ↔
                  ∃ typ ref inner name,
                    m !! typ = Some ref ∧ named s !! ref = Some inner
                    ∧ inner !! name = Some reg)).
  - intros _. exists []. split; [done|]. intros reg. split.
    + by intros ?%elem_of_nil.
    + intros (typ & ref & inner & name & Hm & _). by rewrite lookup_empty in Hm.
  - intros i ref m rest Hi IH Hal.
    destruct IH as (regs & Hrest & Hregs).
    { intros k ref0 Hk. apply (Hal k). rewrite lookup_insert_ne; [done|].
      intros <-. congruence. }
    destruct (Hal i ref) as [inner Hin]; [apply lookup_insert_eq|].
    eexists. split.
    { unfold bind at 1. rewrite Hrest. munfold. by rewrite Hin. }
    intros reg. rewrite getAll_inner, Hregs. split.
    + intros [(typ & ref0 & inner0 & name & Hm & Hn & Hr)|[name Hr]].
      * exists typ, ref0, inner0, name. split; [|done].
        rewrite lookup_insert_ne; [done|]. intros <-. congruence.
      * exists i, ref, inner, name. by rewrite lookup_insert_eq.
    + intros (typ & ref0 & inner0 & name & Hm & Hn & Hr).
      apply lookup_insert_Some in Hm as [[<- <-]|[Hne Hm]].
      * right. exists name. congruence.
      * left. eauto 10.
Qed.

(** X12: [getAll], and with it [Registrations] of a container, returns the
    registrations of the registry and nothing else: a registration is in
    the list exactly when [get] returns it for some type and name.  The
    registry is only read. *)
Theorem registry_getAll_registered c s :
  registries_wf s → is_Some (registries s !! c_r c) →
  ∃ regs,
    Registrations c s = Some (regs, s)
    ∧ registry_getAll (c_r c) s = Some (regs, s)
    ∧ ∀ reg, reg ∈ regs ↔
             ∃ typ name, registry_get (c_r c) typ name s = Some (Some reg, s).
Proof.
  intros Hwf [R HR]. pose proof Hwf as [Hal _].
  destruct (getAll_outer s (registrations R)) as (regs & Hall & Hregs).
  { intros k ref Hk. by eapply Hal. }
  assert (registry_getAll (c_r c) s = Some (regs, s)) as Hget.
  { unfold registry_getAll.
    apply bind_Some. exists (registries s), s. split; [reflexivity|].
    apply bind_Some. exists R, s. split; [unfold deref; by rewrite HR|].
    exact Hall. }
  exists regs. split; [exact Hget|]. split; [exact Hget|].
  intros reg. rewrite Hregs. split.
  - intros (typ & ref & inner & name & Hm & Hn & Hr). exists typ, name.
    rewrite registry_get_eq by eauto. unfold registered.
    rewrite HR. cbn. rewrite Hm. cbn. rewrite Hn. cbn. by rewrite Hr.
  - intros (typ & name & Hg). rewrite registry_get_eq in Hg by eauto.
    injection Hg as Hg. unfold registered in Hg. rewrite HR in Hg. cbn in Hg.
    destruct (registrations R !! typ) as [ref|] eqn:Hm; cbn in Hg; [|done].
    destruct (named s !! ref) as [inner|] eqn:Hn; cbn in Hg; [|done].
    eauto 10.
Qed.

(** [sample_registry] lists its one registration. *)
Lemma registry_getAll_registered_witness :
  let c := mkContainer None 1 1 2 in
  registries_wf sample_registry
  ∧ Registrations c sample_registry = Some ([int_registration 1 PerScope], sample_registry)
  ∧ registry_get 1 (Some tint) "" sample_registry
    = Some (Some (int_registration 1 PerScope), sample_registry).
Proof.
  intros c. split; [exact sample_registry_wf|].
  destruct (registry_getAll_registered c sample_registry sample_registry_wf)
    as (regs & Hregs & _ & Hin); [by eexists|].
  assert (regs = [int_registration 1 PerScope]) as ->.
  { vm_compute in Hregs. by injection Hregs as <-. }
  split; [exact Hregs|].
  destruct (proj1 (Hin (int_registration 1 PerScope))) as (typ & name & Hg).
  { apply list_elem_of_singleton. reflexivity. }
  reflexivity.
Defined.

(** ** dependencyResolver.ResolveNamed *)

Lemma not_reserved_decide t name (A B C : M (option error)) :
  ¬ reserved t name →
  (if decide (name = "" ∧ t = typeContainer) then A
   else if decide (name = "" ∧ t = typeFactory) then B else C) = C.
Proof.
  intros Hn. destruct (decide _) as [[? ?]|_].
  { destruct Hn. split; [done | by left]. }
  destruct (decide _) as [[? ?]|_]; [|done].
  destruct Hn. split; [done | by right].
Qed.

(** [ResolveNamed] into [&x] for a key that is not reserved: the setter is
    [x], and the registry of the container is asked first. *)
Lemma resolver_ResolveNamed_var I fuel resolver t l old name s :
  registries_wf s → is_Some (registries s !! c_r (dr_c resolver)) →
  Type_Kind t ≠ Ptr → mem s !! l = Some old → ¬ reserved t name →
  resolver_ResolveNamed I (S fuel) resolver (Some (VPtr t (Some l))) name s =
    match registered s (c_r (dr_c resolver)) (Some t) name with
    | None =>
        (instance <- Values_get (c_Values (dr_c resolver)) (Some t) name ;;
         match instance with
         | Some instance => Value_Set I (Ref t l) instance ;;; ret None
         | None => ret (Some (errUnresolvedDependency (Some t) name))
         end) s
    | Some registration =>
        (res <-
           (if decide (r_Lifetime registration = PerContainer) then
              resolveSingletonLifetime I (resolver_ResolveNamed I fuel)
                (match c_root (dr_c resolver) with
                 | Some root => newDependencyResolver root (dr_g resolver)
                 | None => resolver
                 end) registration
            else if decide (r_Lifetime registration = PerScope) then
              resolveSingletonLifetime I (resolver_ResolveNamed I fuel) resolver registration
            else if decide (r_Lifetime registration = PerRequest) then
              resolvePerRequestLifetime I (resolver_ResolveNamed I fuel) resolver registration
            else ret (Err (errUnsupportedLifetime (r_Type registration)
                             (r_Name registration)))) ;;
         match res with
         | Err err => ret (Some err)
         | Ok instance => Value_Set I (Ref t l) instance ;;; ret None
         end) s
    end.
Proof.
  intros Hwf Hr Hk Hl Hres. cbn [resolver_ResolveNamed].
  unfold bind at 1. rewrite (GetNamedSetter_var _ _ _ _ _ _ Hk Hl). cbn [Value_Type].
  rewrite not_reserved_decide by done.
  unfold bind at 1. rewrite (registry_get_eq _ _ _ _ Hwf Hr).
  by destruct (registered s (c_r (dr_c resolver)) (Some t) name).
Qed.

(** X18: a key that has no registration in the registry of the container is
    resolved from the container's own Values only: when they hold the key
    the target receives the instance, and when they do not the result is
    UnresolvedDependency and nothing changes, whatever the Values of the
    containers above hold. *)
Theorem ResolveNamed_unregistered I fuel resolver t l old name s V :
  registries_wf s → is_Some (registries s !! c_r (dr_c resolver)) →
  values s !! c_Values (dr_c resolver) = Some V →
  Type_Kind t ≠ Ptr → mem s !! l = Some old → ¬ reserved t name →
  registry_get (c_r (dr_c resolver)) (Some t) name s = Some (None, s) →
  (∀ i w, lookup2 (v_instances V) (Some t) name = Some i →
     Value_read i s = Some (w, s) → typeof w = t →
     resolver_ResolveNamed I (S fuel) resolver (Some (VPtr t (Some l))) name s
     = Some (None, with_var s l w))
  ∧ (lookup2 (v_instances V) (Some t) name = None →
     resolver_ResolveNamed I (S fuel) resolver (Some (VPtr t (Some l))) name s
     = Some (Some (errUnresolvedDependency (Some t) name), s)).
Proof.
  intros Hwf Hr HV Hk Hl Hres Hget.
  rewrite (registry_get_eq _ _ _ _ Hwf Hr) in Hget. injection Hget as Hget.
  pose proof (resolver_ResolveNamed_var I fuel resolver t l old name s
                Hwf Hr Hk Hl Hres) as Heq.
  rewrite Hget in Heq.
  assert (Values_get (c_Values (dr_c resolver)) (Some t) name s
          = Some (lookup2 (v_instances V) (Some t) name, s)) as Hvget.
  { apply Values_get_Some. eauto. }
  split.
  - intros i w Hi Hread Hty. rewrite Heq. unfold bind at 1. rewrite Hvget, Hi.
    unfold bind at 1. rewrite (Value_Set_Ref I t l i s w old Hl Hread).
    by rewrite assign_same.
  - intros Hi. rewrite Heq. unfold bind at 1. by rewrite Hvget, Hi.
Qed.

Lemma sample_containers_wf : registries_wf sample_containers.
Proof.
  split.
  - intros r R typ ref. cbn.
    intros [[<- <-]|[_ [[<- <-]|[_ H]]%lookup_insert_Some]]%lookup_insert_Some;
      cbn; by rewrite ?lookup_empty in *.
  - intros r1 R1 typ1 r2 R2 typ2 ref. cbn.
    intros [[<- <-]|[_ [[<- <-]|[_ H]]%lookup_insert_Some]]%lookup_insert_Some;
      cbn; by rewrite ?lookup_empty in *.
Qed.

(** The scoped container of [sample_containers] has no registration and no
    value of its own for (int, ""); the store above it binds it to 1.
    [ResolveNamed] fails, where [GetNamed] on the same Values finds 1. *)
Lemma ResolveNamed_unregistered_witness :
  let resolver := newDependencyResolver sample_scope 1 in
  let target := Some (VPtr tint (Some 1)) in
  registries_wf sample_containers
  ∧ resolver_ResolveNamed implements_nothing 1 resolver target "" sample_containers
    = Some (Some (errUnresolvedDependency (Some tint) ""), sample_containers)
  ∧ Values_GetNamed implements_nothing (c_Values sample_scope) target "" sample_containers
    = Some (None, with_var sample_containers 1 (int_value 1)).
Proof.
  intros resolver target. split; [exact sample_containers_wf|]. split; [|reflexivity].
  assert (¬ reserved tint "") as Hres by (intros [_ [?|?]]; discriminate).
  assert (is_Some (registries sample_containers !! c_r (dr_c resolver))) as Hr
    by (by eexists).
  assert (Type_Kind tint ≠ Ptr) as Hk by done.
  exact (proj2 (ResolveNamed_unregistered implements_nothing 0 resolver tint 1
                  (int_value 0) "" sample_containers (mkValues (Some 1) ∅)
                  sample_containers_wf Hr eq_refl Hk eq_refl Hres eq_refl) eq_refl).
Defined.

(** X17: an unnamed target of type Container or Factory is answered by the
    resolver itself, before the registry or the Values are looked at: the
    target receives the container the resolver works for, respectively the
    resolver, whatever is registered or set under that type. *)
Theorem ResolveNamed_reserved I fuel resolver l old s :
  mem s !! l = Some old →
  resolver_ResolveNamed I (S fuel) resolver (Some (VPtr typeContainer (Some l))) "" s
  = Some (None, with_var s l (VData "ioc.Container" (DContainer (dr_c resolver))))
  ∧ (I (TBasic "*ioc.dependencyResolver") typeFactory = true →
     resolver_ResolveNamed I (S fuel) resolver (Some (VPtr typeFactory (Some l))) "" s
     = Some (None,
             with_var s l
               (VIface "ioc.Factory"
                  (Some (VData "*ioc.dependencyResolver"
                           (DResolver (dr_c resolver) (dr_g resolver))))))).
Proof.
  intros Hl. split.
  - cbn [resolver_ResolveNamed]. unfold bind at 1.
    rewrite (GetNamedSetter_var I typeContainer l "" s old) by done.
    cbn [Value_Type]. destruct (decide _) as [_|Hn]; [|by destruct Hn].
    unfold bind at 1.
    rewrite (Value_Set_Ref I typeContainer l (Container_value (dr_c resolver)) s
               (VData "ioc.Container" (DContainer (dr_c resolver))) old Hl eq_refl).
    by rewrite assign_same.
  - intros Himpl. cbn [resolver_ResolveNamed]. unfold bind at 1.
    rewrite (GetNamedSetter_var I typeFactory l "" s old) by done.
    cbn [Value_Type]. destruct (decide _) as [[_ [=]]|_].
    destruct (decide _) as [_|Hn]; [|by destruct Hn].
    unfold bind at 1.
    rewrite (Value_Set_Ref I typeFactory l (resolver_value resolver) s
               (VData "*ioc.dependencyResolver"
                  (DResolver (dr_c resolver) (dr_g resolver))) old Hl eq_refl).
    unfold assign. cbn. by rewrite Himpl.
Qed.

(** The scoped container of [sample_containers] resolved into a Container
    variable. *)
Lemma ResolveNamed_reserved_witness :
  let s := with_var sample_containers 2 (VData "ioc.Container" DZero) in
  resolver_ResolveNamed implements_nothing 1 (newDependencyResolver sample_scope 1)
    (Some (VPtr typeContainer (Some 2))) "" s
  = Some (None, with_var s 2 (VData "ioc.Container" (DContainer sample_scope))).
Proof.
  intros s.
  exact (proj1 (ResolveNamed_reserved implements_nothing 0
                  (newDependencyResolver sample_scope 1) 2
                  (VData "ioc.Container" DZero) s eq_refl)).
Defined.

(** ** Container.RegisterNamed *)

(** X15: [RegisterNamed] checks, in this order, the implementation type
    (NilType for an untyped nil, RequirePointer for a value that is not a
    pointer), the factory (CreateInstanceNil) and the lifetime
    (UnsupportedLifetime); a registration that fails changes nothing.
    Otherwise the registry of the container holds, under the implementation
    type with its pointers removed and the name, a registration with the
    factory and the lifetime given, and every other entry of every registry
    reads as before. *)
Theorem RegisterNamed_cases c createInstance implType name lifetime s :
  registries_wf s → is_Some (registries s !! c_r c) →
  match GetNamedType implType name, createInstance with
  | Err err, _ =>
      RegisterNamed c createInstance implType name lifetime s = Some (Some err, s)
  | Ok typ, None =>
      RegisterNamed c createInstance implType name lifetime s
      = Some (Some (errCreateInstanceFnNil (Some typ) name), s)
  | Ok typ, Some fn =>
      if decide (lifetime = PerContainer ∨ lifetime = PerScope ∨ lifetime = PerRequest)
      then
        ∃ s', RegisterNamed c createInstance implType name lifetime s = Some (None, s')
              ∧ registries_wf s' ∧ same_but_registries s s'
              ∧ registry_get (c_r c) (Some typ) name s'
                = Some (Some (mkRegistration (Some typ) name None (Some fn) lifetime), s')
              ∧ (∀ r' typ' name',
                   is_Some (registries s !! r') →
                   (r', typ', name') ≠ (c_r c, Some typ, name) →
                   ∃ o, registry_get r' typ' name' s = Some (o, s)
                        ∧ registry_get r' typ' name' s' = Some (o, s'))
      else
        RegisterNamed c createInstance implType name lifetime s
        = Some (Some (errUnsupportedLifetime (Some typ) name), s)
  end.
Proof.
  intros Hwf Hr. unfold RegisterNamed.
  destruct (GetNamedType implType name) as [typ|err]; [|reflexivity].
  destruct createInstance as [fn|]; [|reflexivity].
  destruct (decide (lifetime = PerContainer ∨ lifetime = PerScope ∨ lifetime = PerRequest))
    as [Hl|Hl].
  - destruct (decide (lifetime ≠ PerContainer ∧ lifetime ≠ PerScope ∧ lifetime ≠ PerRequest))
      as [(? & ? & ?)|_]; [by destruct Hl as [?|[?|?]]|].
    destruct (registry_set_spec (c_r c) (Some typ) name
                (mkRegistration (Some typ) name None (Some fn) lifetime) s Hwf Hr)
      as (s' & Hset & Hwf' & Hsame & Hdom & Hnew & Hold).
    exists s'. split; [unfold bind; by rewrite Hset|].
    split; [exact Hwf'|]. split; [exact Hsame|]. split.
    + rewrite registry_get_eq; [by rewrite Hnew | done | by apply Hdom].
    + intros r' typ' name' Hr' Hne. exists (registered s r' typ' name'). split.
      * by apply registry_get_eq.
      * rewrite registry_get_eq; [by rewrite Hold | done | by apply Hdom].
  - destruct (decide (lifetime ≠ PerContainer ∧ lifetime ≠ PerScope ∧ lifetime ≠ PerRequest))
      as [_|Hn]; [reflexivity|].
    destruct Hl.
    destruct (decide (lifetime = PerContainer)); [by left|].
    destruct (decide (lifetime = PerScope)); [by right; left|].
    destruct (decide (lifetime = PerRequest)); [by right; right|].
    by destruct Hn.
Qed.

(** A per-request factory for int registered through a nil pointer to int on the
    root container of [sample_containers]. *)
Lemma RegisterNamed_cases_witness :
  let fn := FnReturn (Some (int_value 1)) None in
  registries_wf sample_containers
  ∧ ∃ s', RegisterNamed sample_root (Some fn) (Some (VPtr tint None)) "" PerRequest
            sample_containers = Some (None, s')
          ∧ registry_get 1 (Some tint) "" s'
            = Some (Some (mkRegistration (Some tint) "" None (Some fn) PerRequest), s').
Proof.
  intros fn. split; [exact sample_containers_wf|].
  assert (is_Some (registries sample_containers !! c_r sample_root)) as Hr by (by eexists).
  pose proof (RegisterNamed_cases sample_root (Some fn) (Some (VPtr tint None)) ""
                PerRequest sample_containers sample_containers_wf Hr) as H.
  cbn in H. destruct H as (s' & Hreg & _ & _ & Hget & _).
  exists s'. split; [exact Hreg | exact Hget].
Defined.

(** ** Resolving a registration *)

Lemma registries_wf_same s s' :
  registries s' = registries s → named s' = named s →
  registries_wf s → registries_wf s'.
Proof. intros Hr Hn [Hal Hsep]. split; rewrite ?Hr, ?Hn; done. Qed.

Lemma registered_same s s' r typ name :
  registries s' = registries s → named s' = named s →
  registered s' r typ name = registered s r typ name.
Proof. intros Hr Hn. unfold registered. by rewrite Hr, Hn. Qed.

Lemma CreateInstance_returns I nested reg x name factory s :
  returns reg x name → Type_Kind (typeof x) ≠ Ptr → is_nil x = false →
  CreateInstance I nested reg factory s = Some (Ok (Copy x), s).
Proof.
  intros (Hty & Hname & Hfn) Hk Hnil.
  rewrite (CreateInstance_eq I nested reg factory s _ (Some x) None s Hfn eq_refl).
  rewrite (GetNamedInstance_value x (r_Name reg) s Hk Hnil).
  unfold CreateInstance_result. cbn [Value_Type].
  destruct (decide _) as [_|Hn]; [done | by rewrite Hty in Hn].
Qed.

Lemma Container_ResolveNamed_eq I fuel c v name s :
  Container_ResolveNamed I fuel c v name s
  = resolver_ResolveNamed I fuel (newDependencyResolver c (fresh_loc (graphs s)))
      v name (with_graph s).
Proof. reflexivity. Qed.

Lemma with_graph_lookup s :
  graphs (with_graph s) !! fresh_loc (graphs s) = Some (mkGraph false ∅).
Proof. unfold with_graph. cbn. apply lookup_insert_eq. Qed.

(** The resolver that a per-container registration is resolved with. *)
Lemma root_resolver c g :
  match c_root c with
  | Some root => newDependencyResolver root g
  | None => newDependencyResolver c g
  end = newDependencyResolver (root_of c) g.
Proof. unfold root_of. by destruct (c_root c). Qed.

Lemma cache_of_resolver c g lifetime :
  lifetime = PerContainer ∨ lifetime = PerScope →
  c_instances (dr_c (if decide (lifetime = PerContainer)
                     then newDependencyResolver (root_of c) g
                     else newDependencyResolver c g))
  = cache_of c lifetime.
Proof. intros _. unfold cache_of. by destruct (decide _). Qed.

(** The resolution of a singleton through the container [c]. *)
Lemma resolver_ResolveNamed_singleton I fuel c g reg t l old name s :
  registries_wf s → is_Some (registries s !! c_r c) →
  registered s (c_r c) (Some t) name = Some reg →
  r_Lifetime reg = PerContainer ∨ r_Lifetime reg = PerScope →
  Type_Kind t ≠ Ptr → ¬ reserved t name → mem s !! l = Some old →
  resolver_ResolveNamed I (S fuel) (newDependencyResolver c g)
    (Some (VPtr t (Some l))) name s
  = (res <- resolveSingletonLifetime I (resolver_ResolveNamed I fuel)
              (if decide (r_Lifetime reg = PerContainer)
               then newDependencyResolver (root_of c) g
               else newDependencyResolver c g) reg ;;
     match res with
     | Err err => ret (Some err)
     | Ok instance => Value_Set I (Ref t l) instance ;;; ret None
     end) s.
Proof.
  intros Hwf Hr Hreg Hlife Hk Hres Hl.
  rewrite (resolver_ResolveNamed_var I fuel (newDependencyResolver c g) t l old name s
             Hwf Hr Hk Hl Hres).
  cbn [dr_c dr_g]. rewrite Hreg. rewrite root_resolver.
  destruct (decide (r_Lifetime reg = PerContainer)) as [?|Hn]; [reflexivity|].
  destruct (decide (r_Lifetime reg = PerScope)) as [?|Hn']; [reflexivity|].
  by destruct Hlife.
Qed.

Lemma put_graph_first s (t : GoType) (name : string) :
  tracked (with_graph s) (fresh_loc (graphs s)) (mkGraph false ∅) (Some t) name
  = put_graph (fresh_loc (graphs s))
      (mkGraph false {[Some t := {[name := 1%Z]}]}) s.
Proof.
  unfold tracked, limit_hit, next_count, count_of, set_count, put_graph, with_graph,
    state_upd_graphs. cbn.
  rewrite !(lookup_empty (M:=gmap reflect_Type) (Some t)). cbn.
  by rewrite insert_insert_eq.
Qed.

(** A resolution through a container that reaches the factory: the key is
    counted in the graph of the call, the factory runs, and a singleton is
    kept. *)
Lemma resolve_created I fuel c reg t name l old s :
  registries_wf s → is_Some (registries s !! c_r c) →
  registered s (c_r c) (Some t) name = Some reg →
  r_Type reg = Some t → r_Name reg = name →
  Type_Kind t ≠ Ptr → ¬ reserved t name → mem s !! l = Some old →
  r_Lifetime reg = PerRequest
  ∨ ((r_Lifetime reg = PerContainer ∨ r_Lifetime reg = PerScope)
     ∧ ∃ V, values s !! cache_of c (r_Lifetime reg) = Some V
            ∧ lookup2 (v_instances V) (Some t) name = None) →
  ∃ resolver,
    dr_g resolver = fresh_loc (graphs s)
    ∧ (r_Lifetime reg ≠ PerContainer → dr_c resolver = c)
    ∧ (r_Lifetime reg = PerContainer → dr_c resolver = root_of c)
    ∧ Container_ResolveNamed I (S fuel) c (Some (VPtr t (Some l))) name s
      = (res <- (res <- CreateInstance I (resolver_ResolveNamed I fuel) reg resolver ;;
                 if decide (r_Lifetime reg = PerRequest) then ret res
                 else cache_result (cache_of c (r_Lifetime reg)) reg res) ;;
         match res with
         | Err err => ret (Some err)
         | Ok instance => Value_Set I (Ref t l) instance ;;; ret None
         end)
          (put_graph (fresh_loc (graphs s))
             (mkGraph false {[Some t := {[name := 1%Z]}]}) s).
Proof.
  intros Hwf Hr Hreg Hty Hname Hk Hres Hl Hlife.
  set (g := fresh_loc (graphs s)).
  assert (registries_wf (with_graph s)) as Hwf0 by (by apply (registries_wf_same s)).
  assert (limit_hit (with_graph s) (mkGraph false ∅) (Some t) name = false) as Hhit.
  { unfold limit_hit, count_of. cbn.
    by rewrite (lookup_empty (M:=gmap reflect_Type) (Some t)). }
  destruct Hlife as [Hreq|[Hsing (V & HV & Hmiss)]].
  - exists (newDependencyResolver c g). split; [done|]. split; [done|].
    split; [intros Hc; rewrite Hreq in Hc; done|].
    rewrite Container_ResolveNamed_eq. fold g.
    rewrite (resolver_ResolveNamed_var I fuel (newDependencyResolver c g) t l old name
               (with_graph s) Hwf0 Hr Hk Hl Hres).
    rewrite (registered_same s (with_graph s)) by done. cbn [dr_c]. rewrite Hreg, Hreq.
    destruct (decide (PerRequest = PerContainer)) as [?|_]; [done|].
    destruct (decide (PerRequest = PerScope)) as [?|_]; [done|].
    destruct (decide (PerRequest = PerRequest)) as [_|?]; [|done].
    unfold bind at 1.
    rewrite (resolvePerRequestLifetime_eq I _ (newDependencyResolver c g) reg (with_graph s)
               (mkGraph false ∅) (with_graph_lookup s) eq_refl).
    cbn zeta. rewrite Hty, Hname, Hhit. cbn [dr_g]. unfold g. rewrite put_graph_first.
    unfold bind. by destruct (CreateInstance _ _ _ _ _) as [[[i|e] s2]|].
  - set (resolver1 := if decide (r_Lifetime reg = PerContainer)
                      then newDependencyResolver (root_of c) g
                      else newDependencyResolver c g).
    assert (dr_g resolver1 = g) as Hg by (unfold resolver1; by destruct (decide _)).
    assert (c_instances (dr_c resolver1) = cache_of c (r_Lifetime reg)) as Hcache
      by (by apply cache_of_resolver).
    exists resolver1. split; [done|].
    split. { intros Hn. unfold resolver1. by destruct (decide _). }
    split. { intros Hc. unfold resolver1. by destruct (decide _). }
    rewrite Container_ResolveNamed_eq. fold g.
    rewrite (resolver_ResolveNamed_singleton I fuel c g reg t l old name (with_graph s));
      try done.
    fold resolver1. unfold bind at 1.
    rewrite (resolveSingletonLifetime_miss I _ resolver1 reg (with_graph s) (mkGraph false ∅)).
    + cbn zeta. rewrite Hty, Hname, Hhit, Hg, Hcache. unfold g. rewrite put_graph_first.
      destruct (decide (r_Lifetime reg = PerRequest)) as [Hreq|_].
      { destruct Hsing as [Hs|Hs]; rewrite Hs in Hreq; done. }
      unfold bind.
      by destruct (CreateInstance _ _ _ _ _) as [[[i|e] s2]|].
    + rewrite Hcache, Hty, Hname. apply Values_get_Some. exists V.
      split; [exact HV|]. split; [done|]. by rewrite Hmiss.
    + rewrite Hg. apply with_graph_lookup.
    + reflexivity.
Qed.

(** X19: a per-request registration whose factory returns [x] is resolved
    into [&x'] by assigning [x]; the graph made for the call counts the key
    once, no store receives anything, and this holds whatever the recursion
    limit is, since the first attempt on a key is never refused. *)
Theorem ResolveNamed_PerRequest I fuel c reg x name l old s :
  registries_wf s → is_Some (registries s !! c_r c) →
  registry_get (c_r c) (Some (typeof x)) name s = Some (Some reg, s) →
  returns reg x name → r_Lifetime reg = PerRequest →
  Type_Kind (typeof x) ≠ Ptr → is_nil x = false → ¬ reserved (typeof x) name →
  mem s !! l = Some old →
  Container_ResolveNamed I (S fuel) c (Some (VPtr (typeof x) (Some l))) name s
  = Some (None,
          with_var
            (put_graph (fresh_loc (graphs s))
               (mkGraph false {[Some (typeof x) := {[name := 1%Z]}]}) s)
            l x).
Proof.
  intros Hwf Hr Hget Hret Hlife Hk Hnil Hres Hl.
  rewrite (registry_get_eq _ _ _ _ Hwf Hr) in Hget. injection Hget as Hreg.
  pose proof Hret as (Hty & Hname & _).
  destruct (resolve_created I fuel c reg (typeof x) name l old s)
    as (resolver & _ & _ & _ & ->); try done; [by left|].
  unfold bind at 1. unfold bind at 1.
  rewrite (CreateInstance_returns I _ reg x name resolver _ Hret Hk Hnil).
  destruct (decide (r_Lifetime reg = PerRequest)) as [_|?]; [|done].
  unfold ret at 1. unfold bind at 1.
  rewrite (Value_Set_Ref I (typeof x) l (Copy x) _ x old); [|exact Hl|reflexivity].
  by rewrite assign_same.
Qed.

Lemma singleton_hit I fuel c reg t name l old s V i w :
  registries_wf s → is_Some (registries s !! c_r c) →
  registered s (c_r c) (Some t) name = Some reg →
  r_Type reg = Some t → r_Name reg = name →
  r_Lifetime reg = PerContainer ∨ r_Lifetime reg = PerScope →
  values s !! cache_of c (r_Lifetime reg) = Some V →
  Type_Kind t ≠ Ptr → ¬ reserved t name →
  mem s !! l = Some old →
  lookup2 (v_instances V) (Some t) name = Some i →
  Value_read i s = Some (w, s) → typeof w = t →
  Container_ResolveNamed I (S fuel) c (Some (VPtr t (Some l))) name s
  = Some (None, with_var (with_graph s) l w).
Proof.
  intros Hwf Hr Hreg Hty Hname Hlife HV Hk Hres Hl Hi Hread Htw.
  rewrite Container_ResolveNamed_eq.
  assert (registries_wf (with_graph s)) as Hwf0 by (by apply (registries_wf_same s)).
  rewrite (resolver_ResolveNamed_singleton I fuel c _ reg t l old name (with_graph s));
    try done.
  unfold bind at 1.
  rewrite (resolveSingletonLifetime_hit I _ _ reg (with_graph s) i).
  - unfold bind at 1.
    assert (Value_read i (with_graph s) = Some (w, with_graph s)) as Hread'.
    { destruct i as [v|t0 l0]; [by injection Hread as ->|].
      unfold Value_read in *. apply load_Some in Hread as [Hm _].
      apply load_Some. done. }
    rewrite (Value_Set_Ref I t l i (with_graph s) w old Hl Hread').
    by rewrite assign_same.
  - rewrite cache_of_resolver by done. rewrite Hty, Hname.
    apply Values_get_Some. exists V. done.
Qed.

Lemma singleton_miss I fuel c reg x name l old s V :
  registries_wf s → is_Some (registries s !! c_r c) →
  registered s (c_r c) (Some (typeof x)) name = Some reg →
  returns reg x name → r_Lifetime reg = PerContainer ∨ r_Lifetime reg = PerScope →
  values s !! cache_of c (r_Lifetime reg) = Some V →
  Type_Kind (typeof x) ≠ Ptr → is_nil x = false → ¬ reserved (typeof x) name →
  mem s !! l = Some old →
  lookup2 (v_instances V) (Some (typeof x)) name = None →
  Container_ResolveNamed I (S fuel) c (Some (VPtr (typeof x) (Some l))) name s
  = Some (None,
          with_var
            (with_instance
               (put_graph (fresh_loc (graphs s))
                  (mkGraph false {[Some (typeof x) := {[name := 1%Z]}]}) s)
               (cache_of c (r_Lifetime reg)) V (Some (typeof x)) name (Copy x))
            l x).
Proof.
  intros Hwf Hr Hreg Hret Hlife HV Hk Hnil Hres Hl Hi.
  pose proof Hret as (Hty & Hname & Hfn).
  rewrite Container_ResolveNamed_eq.
  assert (registries_wf (with_graph s)) as Hwf0 by (by apply (registries_wf_same s)).
  rewrite (resolver_ResolveNamed_singleton I fuel c _ reg (typeof x) l old name (with_graph s));
    try done.
  set (g := fresh_loc (graphs s)).
  set (resolver1 := if decide (r_Lifetime reg = PerContainer)
                    then newDependencyResolver (root_of c) g
                    else newDependencyResolver c g).
  assert (dr_g resolver1 = g) as Hg by (unfold resolver1; by destruct (decide _)).
  assert (c_instances (dr_c resolver1) = cache_of c (r_Lifetime reg)) as Hcache
    by (by apply cache_of_resolver).
  unfold bind at 1.
  rewrite (resolveSingletonLifetime_miss I _ resolver1 reg (with_graph s) (mkGraph false ∅)).
  - cbn zeta. unfold limit_hit, count_of. cbn [g_lookup].
    rewrite (lookup_empty (M:=gmap reflect_Type) (r_Type reg)).
    unfold bind at 1.
    rewrite (CreateInstance_returns I _ reg x name resolver1 _ Hret Hk Hnil).
    cbn [cache_result]. unfold bind at 1.
    rewrite (Values_set_eq _ _ _ _ _ V).
    2:{ rewrite Hcache. exact HV. }
    unfold ret at 1. unfold bind at 1.
    rewrite (Value_Set_Ref I (typeof x) l (Copy x) _ x old); [|exact Hl|reflexivity].
    rewrite assign_same by done. unfold ret. f_equal. f_equal. unfold with_var. f_equal.
    rewrite Hcache, Hty, Hname, Hg. unfold with_instance. f_equal.
    unfold tracked, limit_hit, next_count, count_of, set_count, put_graph, with_graph,
      state_upd_graphs. cbn.
    rewrite !(lookup_empty (M:=gmap reflect_Type) (Some (typeof x))). cbn.
    by rewrite insert_insert_eq.
  - rewrite Hcache, Hty, Hname. apply Values_get_Some. exists V.
    split; [exact HV|]. split; [done|]. by rewrite Hi.
  - rewrite Hg. apply with_graph_lookup.
  - reflexivity.
Qed.


Lemma sample_keyed_wf t reg : registries_wf (sample_keyed t reg).
Proof.
  split.
  - intros r R typ ref. cbn.
    intros [[<- <-]|[_ [<- <-]%lookup_singleton_Some]]%lookup_insert_Some; cbn;
      intros [<- <-]%lookup_singleton_Some; by eexists.
  - intros r1 R1 typ1 r2 R2 typ2 ref. cbn.
    intros [[<- <-]|[_ [<- <-]%lookup_singleton_Some]]%lookup_insert_Some; cbn;
      intros [<- <-]%lookup_singleton_Some;
      intros [[<- <-]|[_ [<- <-]%lookup_singleton_Some]]%lookup_insert_Some; cbn;
      intros [<- ?]%lookup_singleton_Some; done.
Qed.

Lemma sample_with_wf reg : registries_wf (sample_with reg).
Proof. apply sample_keyed_wf. Qed.

Lemma sample_registered_wf lifetime : registries_wf (sample_registered lifetime).
Proof. apply sample_with_wf. Qed.

Lemma tint_not_reserved : ¬ reserved tint "".
Proof. intros [_ [?|?]]; discriminate. Qed.

(** The per-request registration of [sample_registered] resolved through
    the root container into the variable at address 1. *)
Lemma ResolveNamed_PerRequest_witness :
  let s := sample_registered PerRequest in
  registries_wf s
  ∧ Container_ResolveNamed implements_nothing 1 sample_root (Some (VPtr tint (Some 1))) "" s
    = Some (None,
            with_var (put_graph 1 (mkGraph false {[Some tint := {["" := 1%Z]}]}) s)
              1 (int_value 7)).
Proof.
  intros s. split; [apply sample_registered_wf|].
  assert (is_Some (registries s !! c_r sample_root)) as Hr by (by eexists).
  assert (Type_Kind (typeof (int_value 7)) ≠ Ptr) as Hk by done.
  exact (ResolveNamed_PerRequest implements_nothing 0 sample_root
           (int_registration 7 PerRequest) (int_value 7) "" 1 (int_value 0) s
           (sample_registered_wf _) Hr eq_refl (conj eq_refl (conj eq_refl eq_refl))
           eq_refl Hk eq_refl tint_not_reserved eq_refl).
Defined.


(** ** Container.RegisterNamedInstance *)

Lemma Value_read_mem i s s' w :
  mem s' = mem s → Value_read i s = Some (w, s) → Value_read i s' = Some (w, s').
Proof.
  intros Hm. destruct i as [v|t l]; unfold Value_read.
  - unfold ret. by intros [= ->].
  - intros [Hl _]%load_Some. apply load_Some. by rewrite Hm.
Qed.

(** X16: [RegisterNamedInstance] fails exactly when [GetNamedInstance]
    does, with the same error, which is NilType or NilValue, and without
    changing anything.  Otherwise it enters a per-container registration for
    the type of the instance in the registry of the container it is called
    on, and in no other registry, and puts the instance in the instance
    store of the root container; a resolution of the key through that
    container then assigns what the instance holds to the target and leaves
    the graph made for the call empty: the key is not counted. *)
Theorem RegisterNamedInstance_stores I fuel c v name s :
  registries_wf s → is_Some (registries s !! c_r c) →
  is_Some (values s !! c_instances (root_of c)) →
  (∀ err s', RegisterNamedInstance c v name s = Some (Some err, s') →
     s' = s ∧ GetNamedInstance v name s = Some (Err err, s)
     ∧ (Code err = Some ErrNilType ∨ Code err = Some ErrNilValue))
  ∧ (∀ err, GetNamedInstance v name s = Some (Err err, s) →
     RegisterNamedInstance c v name s = Some (Some err, s))
  ∧ (∀ inst, GetNamedInstance v name s = Some (Ok inst, s) →
     let typ := Value_Type inst in
     let reg := mkRegistration (Some typ) name v (Some (FnReturn v None)) PerContainer in
     ∃ s', RegisterNamedInstance c v name s = Some (None, s')
       ∧ registries_wf s' ∧ mem s' = mem s ∧ graphs s' = graphs s
       ∧ registry_get (c_r c) (Some typ) name s' = Some (Some reg, s')
       ∧ Values_get (c_instances (root_of c)) (Some typ) name s' = Some (Some inst, s')
       ∧ (∀ r' typ' name',
            is_Some (registries s !! r') → (r', typ', name') ≠ (c_r c, Some typ, name) →
            ∃ o, registry_get r' typ' name' s = Some (o, s)
                 ∧ registry_get r' typ' name' s' = Some (o, s'))
       ∧ (∀ a, a ≠ c_instances (root_of c) → values s' !! a = values s !! a)
       ∧ (∀ l old w,
            ¬ reserved typ name → mem s !! l = Some old →
            Value_read inst s = Some (w, s) → typeof w = typ →
            Container_ResolveNamed I (S fuel) c (Some (VPtr typ (Some l))) name s'
            = Some (None, with_var (with_graph s') l w))).
Proof.
  intros Hwf Hr [V HV]. split.
  - intros err s'. unfold RegisterNamedInstance. rewrite bind_Some.
    intros ([rv|e] & s1 & Hg & Hk).
    + apply bind_Some in Hk as (u & s2 & _ & Hk).
      apply bind_Some in Hk as (u' & s3 & _ & [=]).
    + unfold ret in Hk. injection Hk as <- <-.
      pose proof (GetNamedInstance_Some _ _ _ _ _ Hg) as [-> Herr].
      split; [done|]. split; [exact Hg|].
      destruct Herr as [[_ ->]|[_ [t' ->]]]; eauto.
  - split.
    { intros err Hg. unfold RegisterNamedInstance. unfold bind at 1. by rewrite Hg. }
    intros inst Hg typ reg.
    destruct (registry_set_spec (c_r c) (Some typ) name reg s Hwf Hr)
      as (s1 & Hset & Hwf1 & (Hm1 & Hv1 & Hg1 & Hl1) & Hdom & Hnew & Hold).
    assert (values s1 !! c_instances (root_of c) = Some V) as HV1 by (by rewrite Hv1).
    set (s' := with_instance s1 (c_instances (root_of c)) V (Some typ) name inst).
    assert (registries_wf s') as Hwf' by (by apply (registries_wf_same s1)).
    assert (values s' !! c_instances (root_of c)
            = Some (mkValues (v_parent V) (insert2 (v_instances V) (Some typ) name inst)))
      as HV'.
    { unfold s', with_instance, state_upd_values. cbn. apply lookup_insert_eq. }
    assert (is_Some (registries s' !! c_r c)) as Hr' by (by apply Hdom).
    assert (registered s' (c_r c) (Some typ) name = Some reg) as Hreg'.
    { by rewrite (registered_same s1 s'). }
    exists s'. split.
    { unfold RegisterNamedInstance. unfold bind at 1. rewrite Hg.
      fold typ. fold reg. unfold bind at 1. rewrite Hset.
      unfold bind at 1. by rewrite (Values_set_eq _ _ _ _ _ V HV1). }
    split; [exact Hwf'|]. split; [exact Hm1|]. split; [exact Hg1|].
    split. { rewrite registry_get_eq by done. by rewrite Hreg'. }
    split.
    { apply Values_get_Some. eexists. split; [exact HV'|]. split; [done|].
      cbn. by rewrite lookup2_insert2. }
    split.
    { intros r' typ' name' Hr0 Hne. exists (registered s r' typ' name'). split.
      - by apply registry_get_eq.
      - rewrite registry_get_eq; [|done|by apply Hdom].
        rewrite (registered_same s1 s') by done. by rewrite Hold. }
    split.
    { intros a Ha. unfold s', with_instance, state_upd_values. cbn.
      rewrite lookup_insert_ne by done. by rewrite Hv1. }
    intros l old w Hres Hl Hread Htw.
    assert (Type_Kind typ ≠ Ptr) as Hk by (by eapply GetNamedInstance_kind).
    assert (mem s' !! l = Some old) as Hl' by (unfold s'; cbn; by rewrite Hm1).
    assert (Value_read inst s' = Some (w, s')) as Hread'.
    { apply (Value_read_mem inst s s'); [|done]. unfold s'. cbn. by rewrite Hm1. }
    assert (r_Lifetime reg = PerContainer ∨ r_Lifetime reg = PerScope) as Hlife by (by left).
    exact (singleton_hit I fuel c reg typ name l old s' _ inst w Hwf' Hr' Hreg'
             eq_refl eq_refl Hlife HV' Hk Hres Hl' (lookup2_insert2 _ _ _ _) Hread' Htw).
Qed.

(** The int 7 registered on the scoped container of [sample_containers]:
    the scope resolves it, the registry of the root container does not hold
    it.  A nil pointer to an int is refused with NilValue. *)
Lemma RegisterNamedInstance_stores_witness :
  let s := sample_containers in
  registries_wf s
  ∧ (∃ s', RegisterNamedInstance sample_scope (Some (int_value 7)) "" s = Some (None, s')
          ∧ Values_get (c_instances sample_root) (Some tint) "" s'
            = Some (Some (Copy (int_value 7)), s')
          ∧ registry_get (c_r sample_root) (Some tint) "" s' = Some (None, s')
          ∧ Container_ResolveNamed implements_nothing 1 sample_scope
              (Some (VPtr tint (Some 1))) "" s'
            = Some (None, with_var (with_graph s') 1 (int_value 7)))
  ∧ RegisterNamedInstance sample_scope (Some (VPtr tint None)) "" s
    = Some (Some (errNilValue (Some (TPtr tint)) ""), s).
Proof.
  intros s. split; [exact sample_containers_wf|].
  assert (is_Some (registries s !! c_r sample_scope)) as Hr by (by eexists).
  assert (is_Some (values s !! c_instances (root_of sample_scope))) as Hv by (by eexists).
  split; [|exact (proj1 (proj2 (RegisterNamedInstance_stores implements_nothing 0
                         sample_scope (Some (VPtr tint None)) "" s
                         sample_containers_wf Hr Hv)) _ eq_refl)].
  destruct (RegisterNamedInstance_stores implements_nothing 0 sample_scope
              (Some (int_value 7)) "" s sample_containers_wf Hr Hv) as (_ & _ & Hok).
  destruct (Hok (Copy (int_value 7)) eq_refl)
    as (s' & Hreg & _ & _ & _ & _ & Hcache & Hother & _ & Hresolve).
  exists s'. split; [exact Hreg|]. split; [exact Hcache|]. split.
  - destruct (Hother 1 (Some tint) "") as (o & Ho & Ho'); [by eexists | done |].
    vm_compute in Ho. injection Ho as <-. exact Ho'.
  - exact (Hresolve 1 (int_value 0) (int_value 7) tint_not_reserved eq_refl eq_refl eq_refl).
Defined.

(** ** NewContainer and Scope *)

Lemma values_wf_same s s' : values s' = values s → values_wf s → values_wf s'.
Proof. intros Hv Hwf l V p. rewrite Hv. apply Hwf. Qed.

Lemma bound_ext s s' typ name v i :
  (∀ a, is_Some (values s !! a) → values s' !! a = values s !! a) →
  bound s typ name v i → bound s' typ name v i.
Proof.
  intros Hext. induction 1 as [v V i Hv Hi|v V p i Hv Hi Hp Hb IH].
  - eapply bound_here; [|done]. rewrite Hext; eauto.
  - eapply bound_above; [|done|done|done]. rewrite Hext; eauto.
Qed.

Lemma with_store_lookup s parent :
  values (with_store s parent) !! fresh_loc (values s) = Some (mkValues parent ∅).
Proof. unfold with_store. cbn. apply lookup_insert_eq. Qed.

Lemma with_store_old s parent a :
  is_Some (values s !! a) → values (with_store s parent) !! a = values s !! a.
Proof.
  intros Ha. unfold with_store. cbn. rewrite lookup_insert_ne; [done|].
  intros <-. rewrite fresh_loc_None in Ha. by destruct Ha.
Qed.

Lemma with_store_fresh s parent :
  fresh_loc (values s) < fresh_loc (values (with_store s parent)).
Proof. apply fresh_loc_gt. rewrite with_store_lookup. eauto. Qed.

(** [Scope] step by step: the Values, the clone of the registry, the
    instance store. *)
Lemma Scope_spec c s :
  registries_wf s → is_Some (registries s !! c_r c) →
  let s1 := with_store s (Some (c_Values c)) in
  ∃ s',
    Scope c s
    = Some (mkContainer (Some (root_of c)) (fresh_loc (values s))
              (fresh_loc (registries s)) (fresh_loc (values s1)), s')
    ∧ registries_wf s' ∧ mem s' = mem s ∧ graphs s' = graphs s
    ∧ RecursionLimit s' = RecursionLimit s
    ∧ values s' = values (with_store s1 None)
    ∧ (∀ r', is_Some (registries s' !! r') ↔
             r' = fresh_loc (registries s) ∨ is_Some (registries s !! r'))
    ∧ (∀ typ name,
         registered s' (fresh_loc (registries s)) typ name = registered s (c_r c) typ name)
    ∧ (∀ r' typ name, is_Some (registries s !! r') →
         registered s' r' typ name = registered s r' typ name).
Proof.
  intros Hrwf Hr s1.
  assert (registries_wf s1) as Hrwf1 by (by apply (registries_wf_same s)).
  destruct (registry_clone_spec (c_r c) s1 Hrwf1 Hr)
    as (s2 & Hclone & Hrwf2 & (Hm2 & Hv2 & Hg2 & Hl2) & Hdom2 & Hcopy & Hold).
  exists (with_store s2 None). split.
  { unfold Scope. unfold bind at 1. rewrite NewValuesScope_eq. fold s1.
    unfold bind at 1. rewrite Hclone.
    unfold bind at 1. unfold NewValues. rewrite NewValuesScope_eq.
    by rewrite Hv2. }
  split. { by apply (registries_wf_same s2). }
  split. { unfold with_store. cbn. by rewrite Hm2. }
  split. { unfold with_store. cbn. by rewrite Hg2. }
  split. { unfold with_store. cbn. by rewrite Hl2. }
  split. { unfold with_store. cbn. by rewrite Hv2. }
  split. { exact Hdom2. }
  split.
  { intros typ name. rewrite (registered_same s2 (with_store s2 None)) by done.
    rewrite Hcopy. by rewrite (registered_same s s1). }
  intros r' typ name Hr'. rewrite (registered_same s2 (with_store s2 None)) by done.
  rewrite Hold by done. by rewrite (registered_same s s1).
Qed.

(** X14: [Scope] derives a container that has the root of the container it
    is derived from as its root, a new empty Values whose parent is the
    Values of that container, a new empty instance store, and a new registry
    in which every key reads as it does in the registry of that container.
    Nothing that existed is changed: every store and every registry reads as
    before, and what a lookup from the Values of the container finds, a
    lookup from the Values of the scope finds too. *)
Theorem Scope_inherits c s :
  registries_wf s → values_wf s →
  is_Some (registries s !! c_r c) → is_Some (values s !! c_Values c) →
  ∃ c' s',
    Scope c s = Some (c', s')
    ∧ c_root c' = Some (root_of c) ∧ root_of c' = root_of c
    ∧ registries_wf s' ∧ values_wf s' ∧ mem s' = mem s ∧ graphs s' = graphs s
    ∧ registries s !! c_r c' = None
    ∧ values s !! c_Values c' = None ∧ values s !! c_instances c' = None
    ∧ c_Values c' ≠ c_instances c'
    ∧ values s' !! c_Values c' = Some (mkValues (Some (c_Values c)) ∅)
    ∧ values s' !! c_instances c' = Some (mkValues None ∅)
    ∧ (∀ a, is_Some (values s !! a) → values s' !! a = values s !! a)
    ∧ (∀ typ name, ∃ o,
         registry_get (c_r c) typ name s = Some (o, s)
         ∧ registry_get (c_r c') typ name s' = Some (o, s'))
    ∧ (∀ r typ name, is_Some (registries s !! r) → ∃ o,
         registry_get r typ name s = Some (o, s)
         ∧ registry_get r typ name s' = Some (o, s'))
    ∧ (∀ typ name i,
         bound s typ name (c_Values c) i → bound s' typ name (c_Values c') i).
Proof.
  intros Hrwf Hvwf Hr Hv.
  destruct (Scope_spec c s Hrwf Hr)
    as (s' & Hscope & Hrwf' & Hm & Hg & _ & Hvals & Hdom & Hcopy & Hold).
  set (s1 := with_store s (Some (c_Values c))) in *.
  set (v := fresh_loc (values s)) in *.
  set (instances := fresh_loc (values s1)) in *.
  assert (values_wf s1) as Hvwf1.
  { apply with_store_wf; [done|]. by intros p [= <-]. }
  assert (values_wf s') as Hvwf'.
  { apply (values_wf_same (with_store s1 None)); [done|]. by apply with_store_wf. }
  assert (values s1 !! v = Some (mkValues (Some (c_Values c)) ∅)) as Hv1
    by apply with_store_lookup.
  assert (v < instances) as Hlt by apply with_store_fresh.
  assert (values s' !! v = Some (mkValues (Some (c_Values c)) ∅)) as Hv'.
  { rewrite Hvals, with_store_old; rewrite Hv1; eauto. }
  assert (∀ a, is_Some (values s !! a) → values s' !! a = values s !! a) as Hext.
  { intros a Ha. rewrite Hvals, with_store_old.
    - by apply with_store_old.
    - unfold s1. rewrite with_store_old; done. }
  assert (is_Some (registries s' !! fresh_loc (registries s))) as Hr' by (apply Hdom; by left).
  eexists _, s'. split; [exact Hscope|]. cbn [c_root c_Values c_r c_instances].
  split; [done|]. split; [done|]. split; [done|]. split; [done|].
  split; [done|]. split; [done|].
  split. { apply fresh_loc_None. }
  split. { apply fresh_loc_None. }
  split.
  { destruct (values s !! instances) as [x|] eqn:Hx; [|done].
    assert (instances < v) by (apply fresh_loc_gt; eauto). lia. }
  split; [fold v instances; lia|].
  split; [exact Hv'|].
  split. { rewrite Hvals. apply with_store_lookup. }
  split; [exact Hext|].
  split.
  { intros typ name. exists (registered s (c_r c) typ name). split.
    - by apply registry_get_eq.
    - rewrite registry_get_eq by done. by rewrite Hcopy. }
  split.
  { intros r0 typ name Hr0. exists (registered s r0 typ name). split.
    - by apply registry_get_eq.
    - rewrite registry_get_eq; [|done|apply Hdom; by right]. by rewrite Hold. }
  intros typ name i Hb.
  eapply bound_above; [exact Hv' | reflexivity | reflexivity | by apply (bound_ext s)].
Qed.

Lemma values_wf_root s a :
  values_wf s → values_wf (state_upd_values <[a:=mkValues None ∅]> s).
Proof.
  intros Hwf l V p. cbn.
  intros [[<- <-]|[Hne Hl]]%lookup_insert_Some; [done|].
  intros Hp. destruct (Hwf _ _ _ Hl Hp) as [Hlt Hal]. split; [done|].
  destruct (decide (a = p)) as [->|?]; [by rewrite lookup_insert_eq|].
  by rewrite lookup_insert_ne.
Qed.

Lemma sample_containers_values_wf : values_wf sample_containers.
Proof.
  unfold sample_containers. do 2 apply values_wf_root.
  apply (values_wf_same sample_stores); [reflexivity | apply sample_stores_wf].
Qed.

(** A scope of the scoped container of [sample_containers]: its root is the
    root container, and its Values find the 1 that the Values of the root
    container bind to (int, ""). *)
Lemma Scope_inherits_witness :
  let s := sample_containers in
  registries_wf s ∧ values_wf s
  ∧ ∃ c' s', Scope sample_scope s = Some (c', s')
             ∧ c_root c' = Some sample_root
             ∧ bound s' (Some tint) "" (c_Values c') (Copy (int_value 1)).
Proof.
  intros s. split; [exact sample_containers_wf|].
  split; [exact sample_containers_values_wf|].
  assert (is_Some (registries s !! c_r sample_scope)) as Hr by (by eexists).
  assert (is_Some (values s !! c_Values sample_scope)) as Hv by (by eexists).
  destruct (Scope_inherits sample_scope s sample_containers_wf
              sample_containers_values_wf Hr Hv)
    as (c' & s' & Hscope & Hroot & _ & _ & _ & _ & _ & _ & _ & _ & _ & _ & _ & _ & _ & _ & Hb).
  exists c', s'. split; [exact Hscope|]. split; [exact Hroot|].
  apply Hb. eapply bound_above; [reflexivity | reflexivity | reflexivity |].
  eapply bound_here; reflexivity.
Defined.

Lemma registry_get_empty r typ name s :
  registries s !! r = Some (mkRegistry ∅) →
  registry_get r typ name s = Some (None, s).
Proof.
  intros Hr. unfold registry_get. munfold. rewrite Hr. cbn.
  by rewrite (lookup_empty (M:=gmap reflect_Type) typ).
Qed.

(** X13: [NewContainer] makes a root container out of three new objects:
    an empty registry, an empty Values without parent and an empty instance
    store, and changes nothing that existed.  The new container has no
    registrations, and resolves no key but the reserved ones: the result is
    UnresolvedDependency. *)
Theorem NewContainer_empty I fuel s :
  registries_wf s → values_wf s →
  ∃ c s',
    NewContainer s = Some (c, s')
    ∧ c_root c = None
    ∧ registries_wf s' ∧ values_wf s' ∧ mem s' = mem s ∧ graphs s' = graphs s
    ∧ registries s !! c_r c = None
    ∧ values s !! c_Values c = None ∧ values s !! c_instances c = None
    ∧ c_Values c ≠ c_instances c
    ∧ registries s' !! c_r c = Some (mkRegistry ∅)
    ∧ values s' !! c_Values c = Some (mkValues None ∅)
    ∧ values s' !! c_instances c = Some (mkValues None ∅)
    ∧ (∀ a, is_Some (values s !! a) → values s' !! a = values s !! a)
    ∧ (∀ a, is_Some (registries s !! a) → registries s' !! a = registries s !! a)
    ∧ named s' = named s
    ∧ Registrations c s' = Some ([], s')
    ∧ (∀ t name l old,
         Type_Kind t ≠ Ptr → ¬ reserved t name → mem s !! l = Some old →
         Container_ResolveNamed I (S fuel) c (Some (VPtr t (Some l))) name s'
         = Some (Some (errUnresolvedDependency (Some t) name), with_graph s')).
Proof.
  intros Hrwf Hvwf.
  set (v := fresh_loc (values s)).
  set (s1 := with_store s None).
  set (r := fresh_loc (registries s1)).
  set (s2 := state_upd_registries <[r:=mkRegistry ∅]> s1).
  set (instances := fresh_loc (values s2)).
  set (s3 := with_store s2 None).
  assert (values_wf s1) as Hvwf1 by (by apply with_store_wf).
  assert (values_wf s3) as Hvwf3.
  { apply with_store_wf; [|done]. by apply (values_wf_same s1). }
  assert (registries_wf s2) as Hrwf2.
  { apply (newRegistry_wf s1). by apply (registries_wf_same s). }
  assert (registries_wf s3) as Hrwf3 by (by apply (registries_wf_same s2)).
  assert (v < instances) as Hlt by apply (with_store_fresh s None).
  assert (registries s3 !! r = Some (mkRegistry ∅)) as Hr3.
  { unfold s3, s2, with_store. cbn. apply lookup_insert_eq. }
  assert (values s1 !! v = Some (mkValues None ∅)) as Hv1
    by apply (with_store_lookup s None).
  assert (values s3 !! v = Some (mkValues None ∅)) as Hv3.
  { unfold s3. rewrite with_store_old; change (values s2) with (values s1);
      rewrite Hv1; eauto. }
  exists (mkContainer None v r instances), s3. cbn [c_root c_Values c_r c_instances].
  split; [reflexivity|]. split; [done|]. split; [done|]. split; [done|].
  split; [reflexivity|]. split; [reflexivity|].
  split. { apply (fresh_loc_None (registries s)). }
  split. { apply fresh_loc_None. }
  split.
  { destruct (values s !! instances) as [x|] eqn:Hx; [|done].
    assert (instances < v) by (apply fresh_loc_gt; eauto). lia. }
  split; [lia|].
  split; [exact Hr3|]. split; [exact Hv3|].
  split. { apply (with_store_lookup s2 None). }
  split.
  { intros a Ha. unfold s3. rewrite with_store_old.
    - change (values s2) with (values s1). by apply with_store_old.
    - change (values s2) with (values s1). unfold s1. rewrite with_store_old; done. }
  split.
  { intros a Ha. unfold s3, s2, with_store. cbn. rewrite lookup_insert_ne; [done|].
    intros <-. change (registries s1) with (registries s) in r.
    unfold r in Ha. rewrite fresh_loc_None in Ha. by destruct Ha. }
  split; [reflexivity|].
  split.
  { unfold Registrations, registry_getAll. cbn [c_r]. munfold. rewrite Hr3. cbn.
    by rewrite map_fold_empty. }
  intros t name l old Hk Hres Hl.
  rewrite Container_ResolveNamed_eq.
  assert (registries_wf (with_graph s3)) as Hrwf4 by (by apply (registries_wf_same s3)).
  assert (is_Some (registries (with_graph s3) !! r)) as Hr4.
  { change (registries (with_graph s3)) with (registries s3). rewrite Hr3. eauto. }
  rewrite (resolver_ResolveNamed_var I fuel
             (newDependencyResolver (mkContainer None v r instances) _)
             t l old name (with_graph s3) Hrwf4 Hr4 Hk Hl Hres).
  cbn [dr_c c_r c_Values]. rewrite (registered_same s3 (with_graph s3)) by done.
  unfold registered. rewrite Hr3. cbn.
  rewrite (lookup_empty (M:=gmap reflect_Type) (Some t)). cbn.
  unfold bind at 1.
  rewrite (proj2 (Values_get_Some v (Some t) name (with_graph s3) _ (with_graph s3))
             (ex_intro _ _ (conj Hv3 (conj eq_refl eq_refl)))).
  cbn [v_instances lookup2]. unfold lookup2.
  by rewrite (lookup_empty (M:=gmap reflect_Type) (Some t)).
Qed.

(** A container made in the empty state does not resolve (int, ""). *)
Lemma NewContainer_empty_witness :
  let s := with_var (empty_state 30) 1 (int_value 0) in
  registries_wf s ∧ values_wf s
  ∧ ∃ c s', NewContainer s = Some (c, s')
            ∧ Container_ResolveNamed implements_nothing 1 c (Some (VPtr tint (Some 1))) "" s'
              = Some (Some (errUnresolvedDependency (Some tint) ""), with_graph s').
Proof.
  intros s.
  assert (registries_wf s) as Hrwf by exact (registries_wf_empty 30).
  assert (values_wf s) as Hvwf by exact (values_wf_empty 30).
  split; [exact Hrwf|]. split; [exact Hvwf|].
  destruct (NewContainer_empty implements_nothing 0 s Hrwf Hvwf)
    as (c & s' & Hnew & _ & _ & _ & _ & _ & _ & _ & _ & _ & _ & _ & _ & _ & _ & _ & _ & Hres).
  assert (Type_Kind tint ≠ Ptr) as Hk by done.
  exists c, s'. split; [exact Hnew|].
  exact (Hres tint "" 1 (int_value 0) Hk tint_not_reserved eq_refl).
Defined.

(** ** From registration to resolution *)

Lemma registry_get_allocated r typ name s o s' :
  registry_get r typ name s = Some (o, s') → is_Some (registries s !! r).
Proof.
  unfold registry_get. munfold. destruct (registries s !! r); [eauto | discriminate].
Qed.

(** X23: a factory registered on a container is found through a scope that
    is derived afterwards.  With a factory that returns [x], resolving the
    key through the scope assigns [x] to the target, whatever the lifetime;
    a per-container instance is then kept in the instance store of the root
    container, a per-scope instance in the instance store of the scope, and
    a per-request instance nowhere. *)
Theorem Register_Scope_Resolve I fuel c x name lifetime l old s :
  let t := typeof x in
  let fn := FnReturn (Some x) None in
  registries_wf s → values_wf s →
  is_Some (registries s !! c_r c) → is_Some (values s !! c_Values c) →
  lifetime = PerContainer ∨ lifetime = PerScope ∨ lifetime = PerRequest →
  (lifetime = PerContainer →
     ∃ V, values s !! c_instances (root_of c) = Some V
          ∧ lookup2 (v_instances V) (Some t) name = None) →
  Type_Kind t ≠ Ptr → is_nil x = false → ¬ reserved t name →
  mem s !! l = Some old →
  ∃ s1 c' s2 s3,
    RegisterNamed c (Some fn) (Some (VPtr t None)) name lifetime s = Some (None, s1)
    ∧ Scope c s1 = Some (c', s2)
    ∧ Container_ResolveNamed I (S fuel) c' (Some (VPtr t (Some l))) name s2 = Some (None, s3)
    ∧ mem s3 = <[l:=x]> (mem s)
    ∧ (lifetime = PerRequest → values s3 = values s2)
    ∧ (lifetime ≠ PerRequest →
         Values_get (cache_of c' lifetime) (Some t) name s3 = Some (Some (Copy x), s3)
         ∧ (∀ a, a ≠ cache_of c' lifetime → values s3 !! a = values s2 !! a))
    ∧ cache_of c' PerContainer = c_instances (root_of c)
    ∧ cache_of c' PerScope = c_instances c'
    ∧ values s !! c_instances c' = None.
Proof.
  intros t fn Hrwf Hvwf Hr Hv Hlife Hroot Hk Hnil Hres Hl.
  set (reg := mkRegistration (Some t) name None (Some fn) lifetime).
  (* RegisterNamed *)
  destruct (registry_set_spec (c_r c) (Some t) name reg s Hrwf Hr)
    as (s1 & Hset & Hrwf1 & (Hm1 & Hv1 & Hg1 & Hl1) & Hdom1 & Hnew1 & _).
  assert (RegisterNamed c (Some fn) (Some (VPtr t None)) name lifetime s = Some (None, s1))
    as Hregister.
  { unfold RegisterNamed. cbn [GetNamedType typeof].
    assert (GetNamedType_loop t = t) as -> by (by destruct t).
    destruct (decide (lifetime ≠ PerContainer ∧ lifetime ≠ PerScope ∧ lifetime ≠ PerRequest))
      as [(? & ? & ?)|_]; [by destruct Hlife as [?|[?|?]]|].
    fold reg. unfold bind. by rewrite Hset. }
  (* Scope *)
  assert (values_wf s1) as Hvwf1 by (by apply (values_wf_same s)).
  assert (is_Some (registries s1 !! c_r c)) as Hr1 by (by apply Hdom1).
  assert (is_Some (values s1 !! c_Values c)) as Hv1' by (by rewrite Hv1).
  destruct (Scope_spec c s1 Hrwf1 Hr1)
    as (s2 & Hscope & Hrwf2 & Hm2 & Hg2 & _ & Hvals & Hdom & Hcopy & _).
  set (c' := mkContainer (Some (root_of c)) (fresh_loc (values s1))
               (fresh_loc (registries s1))
               (fresh_loc (values (with_store s1 (Some (c_Values c)))))) in *.
  assert (root_of c' = root_of c) as Hrootof by reflexivity.
  assert (is_Some (registries s2 !! c_r c')) as Hr2 by (apply Hdom; by left).
  assert (registered s2 (c_r c') (Some t) name = Some reg) as Hreg2.
  { cbn [c_r c']. by rewrite Hcopy. }
  assert (values s2 !! c_instances c' = Some (mkValues None ∅)) as Hcache'.
  { rewrite Hvals. apply with_store_lookup. }
  assert (∀ a, is_Some (values s1 !! a) → values s2 !! a = values s1 !! a) as Hold.
  { intros a Ha. rewrite Hvals, with_store_old.
    - by apply with_store_old.
    - rewrite with_store_old; done. }
  assert (values s1 !! c_instances c' = None) as Hfresh.
  { cbn [c_instances c'].
    destruct (values s1 !! fresh_loc (values (with_store s1 (Some (c_Values c)))))
      as [y|] eqn:Hy; [|done].
    assert (fresh_loc (values (with_store s1 (Some (c_Values c)))) < fresh_loc (values s1))
      by (apply fresh_loc_gt; eauto).
    pose proof (with_store_fresh s1 (Some (c_Values c))). lia. }
  assert (mem s2 !! l = Some old) as Hl2 by (by rewrite Hm2, Hm1).
  assert (returns reg x name) as Hret by done.
  assert (cache_of c' PerContainer = c_instances (root_of c)) as HcacheC.
  { unfold cache_of. rewrite Hrootof. by destruct (decide _). }
  assert (cache_of c' PerScope = c_instances c') as HcacheS.
  { unfold cache_of. by destruct (decide _). }
  rewrite Hv1 in Hfresh.
  exists s1, c', s2.
  destruct (decide (lifetime = PerRequest)) as [Hreq|Hnreq].
  - (* per request *)
    eexists. split; [exact Hregister|]. split; [exact Hscope|].
    split.
    { destruct (resolve_created I fuel c' reg t name l old s2)
        as (resolver & _ & _ & _ & ->); try done; [by left|].
      unfold bind at 1. unfold bind at 1.
      rewrite (CreateInstance_returns I _ reg x name resolver _ Hret Hk Hnil).
      destruct (decide (r_Lifetime reg = PerRequest)) as [_|?]; [|done].
      unfold ret at 1. unfold bind at 1.
      rewrite (Value_Set_Ref I t l (Copy x) _ x old); [|exact Hl2|reflexivity].
      by rewrite assign_same. }
    split. { cbn. by rewrite Hm2, Hm1. }
    split; [done|]. split; [done|]. done.
  - (* a singleton *)
    assert (r_Lifetime reg = PerContainer ∨ r_Lifetime reg = PerScope) as Hsing.
    { cbn. destruct Hlife as [?|[?|?]]; [by left | by right | done]. }
    assert (∃ V, values s2 !! cache_of c' lifetime = Some V
                 ∧ lookup2 (v_instances V) (Some t) name = None) as (V & HV & Hmiss).
    { destruct (decide (lifetime = PerContainer)) as [->|Hnc].
      - destruct (Hroot eq_refl) as (V & HV & Hmiss). exists V. split; [|done].
        rewrite HcacheC. rewrite Hold; rewrite Hv1; [done | eauto].
      - assert (lifetime = PerScope) as -> by (by destruct Hlife as [?|[?|?]]).
        exists (mkValues None ∅). rewrite HcacheS. split; [done|].
        unfold lookup2. cbn. by rewrite (lookup_empty (M:=gmap reflect_Type) (Some t)). }
    eexists. split; [exact Hregister|]. split; [exact Hscope|].
    split.
    { exact (singleton_miss I fuel c' reg x name l old s2 V Hrwf2 Hr2 Hreg2 Hret Hsing
               HV Hk Hnil Hres Hl2 Hmiss). }
    split. { cbn. by rewrite Hm2, Hm1. }
    split; [done|].
    split.
    { intros _. split.
      - apply Values_get_Some. eexists. split.
        + cbn. apply lookup_insert_eq.
        + split; [done|]. cbn. by rewrite lookup2_insert2.
      - intros a Ha. cbn. by rewrite lookup_insert_ne. }
    done.
Qed.

(** A per-scope factory for the int 7 registered on the root container of
    [sample_containers]: the scope derived next resolves 7 and keeps it in
    its own instance store. *)
Lemma Register_Scope_Resolve_witness :
  let s := sample_containers in
  registries_wf s ∧ values_wf s
  ∧ ∃ s1 c' s2 s3,
      RegisterNamed sample_root (Some (FnReturn (Some (int_value 7)) None))
        (Some (VPtr tint None)) "" PerScope s = Some (None, s1)
      ∧ Scope sample_root s1 = Some (c', s2)
      ∧ Container_ResolveNamed implements_nothing 1 c' (Some (VPtr tint (Some 1))) "" s2
        = Some (None, s3)
      ∧ mem s3 !! 1 = Some (int_value 7)
      ∧ Values_get (c_instances c') (Some tint) "" s3 = Some (Some (Copy (int_value 7)), s3).
Proof.
  intros s. split; [exact sample_containers_wf|].
  split; [exact sample_containers_values_wf|].
  assert (is_Some (registries s !! c_r sample_root)) as Hr by (by eexists).
  assert (is_Some (values s !! c_Values sample_root)) as Hv by (by eexists).
  assert (Type_Kind (typeof (int_value 7)) ≠ Ptr) as Hk by done.
  assert (PerScope = PerContainer ∨ PerScope = PerScope ∨ PerScope = PerRequest) as Hlife
    by (right; by left).
  assert (PerScope = PerContainer →
          ∃ V, values s !! c_instances (root_of sample_root) = Some V
               ∧ lookup2 (v_instances V) (Some (typeof (int_value 7))) "" = None) as Hroot
    by done.
  destruct (Register_Scope_Resolve implements_nothing 0 sample_root (int_value 7) ""
              PerScope 1 (int_value 0) s sample_containers_wf sample_containers_values_wf
              Hr Hv Hlife Hroot Hk eq_refl tint_not_reserved eq_refl)
    as (s1 & c' & s2 & s3 & Hreg & Hscope & Hres & Hmem & _ & Hcache & _ & HcS & _).
  exists s1, c', s2, s3. split; [exact Hreg|]. split; [exact Hscope|].
  split; [exact Hres|]. split.
  - rewrite Hmem. apply lookup_insert_eq.
  - rewrite <- HcS. apply Hcache. done.
Defined.

(** ** The budget of a key in a graph *)

Lemma int_add_small (k : Z) :
  (- 2 ^ 63 ≤ k + 1 < 2 ^ 63)%Z → int_add k 1 = (k + 1)%Z.
Proof.
  intros H. unfold int_add, int_wrap.
  rewrite Z.mod_small by lia. lia.
Qed.

Lemma tracks_allowed g typ name n :
  ∀ s G (k : Z),
    graphs s !! g = Some G → g_m G = false → count_of G typ name = Some k →
    (0 ≤ k)%Z → (k + Z.of_nat n < 2 ^ 63)%Z →
    (0 < n → (k + Z.of_nat n < RecursionLimit s)%Z) →
    ∃ s1 G1,
      tracks n g typ name s = Some (repeat true n, s1)
      ∧ graphs s1 !! g = Some G1 ∧ g_m G1 = false
      ∧ count_of G1 typ name = Some (k + Z.of_nat n)%Z
      ∧ RecursionLimit s1 = RecursionLimit s.
Proof.
  induction n as [|n IH]; intros s G k Hg Hm Hc Hk Hmax Hlim.
  - exists s, G. cbn. rewrite Z.add_0_r. done.
  - assert (int_add k 1 = (k + 1)%Z) as Hadd by (apply int_add_small; lia).
    assert (limit_hit s G typ name = false) as Hhit.
    { unfold limit_hit. rewrite Hc, Hadd. apply Z.leb_gt.
      assert (k + Z.of_nat (S n) < RecursionLimit s)%Z by (apply Hlim; lia). lia. }
    pose proof (track_eq s g typ name G Hg Hm) as Ht. rewrite Hhit in Ht. cbn in Ht.
    pose proof (tracked_graph s g G typ name) as Hg1. rewrite Hhit in Hg1.
    destruct (tracked_frame s g G typ name) as (_ & _ & _ & _ & Hl1).
    destruct (IH (tracked s g G typ name) _ (k + 1)%Z Hg1 eq_refl) as (s1 & G1 & Hts & HG1 & Hm1 & Hc1 & Hl2).
    { rewrite count_of_set_count. unfold next_count. by rewrite Hc, Hadd. }
    { lia. }
    { lia. }
    { intros Hn. rewrite Hl1. assert (k + Z.of_nat (S n) < RecursionLimit s)%Z
        by (apply Hlim; lia). lia. }
    exists s1, G1. split.
    { cbn [tracks]. unfold bind at 1. rewrite Ht. unfold bind at 1. by rewrite Hts. }
    split; [done|]. split; [done|].
    split. { rewrite Hc1. f_equal. lia. }
    by rewrite Hl2.
Qed.

(** X24: within one graph a key is allowed max(1, limit - 1) times.  From a
    graph that has not counted the key, that many calls of [track] in a row
    return true; the next call returns false, and it leaves the mutex of the
    graph held, so that the call after it never returns. *)
Theorem track_budget s g G typ name :
  graphs s !! g = Some G → g_m G = false → count_of G typ name = None →
  (RecursionLimit s < 2 ^ 63)%Z →
  let allowed := Z.to_nat (Z.max 1 (RecursionLimit s - 1)) in
  ∃ s1 s2,
    tracks allowed g typ name s = Some (repeat true allowed, s1)
    ∧ track g typ name s1 = Some (false, s2)
    ∧ track g typ name s2 = None.
Proof.
  intros Hg Hm Hc Hmax allowed.
  assert (∃ n, allowed = S n) as [n Hn].
  { exists (Nat.pred allowed). unfold allowed. lia. }
  (* the first call *)
  assert (limit_hit s G typ name = false) as Hhit by (unfold limit_hit; by rewrite Hc).
  pose proof (track_eq s g typ name G Hg Hm) as Ht. rewrite Hhit in Ht. cbn in Ht.
  pose proof (tracked_graph s g G typ name) as Hg1. rewrite Hhit in Hg1.
  destruct (tracked_frame s g G typ name) as (_ & _ & _ & _ & Hl1).
  (* the calls that follow *)
  destruct (tracks_allowed g typ name n (tracked s g G typ name) _ 1%Z Hg1 eq_refl)
    as (s1 & G1 & Hts & HG1 & Hm1 & Hc1 & Hl2).
  { rewrite count_of_set_count. unfold next_count. by rewrite Hc. }
  { lia. }
  { unfold allowed in Hn. lia. }
  { intros Hpos. rewrite Hl1. unfold allowed in Hn. lia. }
  (* the call that is refused *)
  assert (int_add (1 + Z.of_nat n) 1 = (1 + Z.of_nat n + 1)%Z) as Hadd.
  { apply int_add_small. unfold allowed in Hn. lia. }
  assert (limit_hit s1 G1 typ name = true) as Hhit1.
  { unfold limit_hit. rewrite Hc1, Hadd. apply Z.leb_le.
    rewrite Hl2, Hl1. unfold allowed in Hn. lia. }
  pose proof (track_eq s1 g typ name G1 HG1 Hm1) as Ht1. rewrite Hhit1 in Ht1. cbn in Ht1.
  pose proof (tracked_graph s1 g G1 typ name) as Hg2. rewrite Hhit1 in Hg2.
  exists s1, (tracked s1 g G1 typ name). split.
  { rewrite Hn. cbn [tracks]. unfold bind at 1. rewrite Ht. unfold bind at 1.
    by rewrite Hts. }
  split; [exact Ht1|].
  by eapply track_locked.
Qed.

(** Under a limit of 3 the key (int, "") is allowed twice. *)
Lemma track_budget_witness :
  let s := graph_state 3 ∅ in
  ∃ s1 s2,
    tracks 2 1 (Some tint) "" s = Some ([true; true], s1)
    ∧ track 1 (Some tint) "" s1 = Some (false, s2)
    ∧ track 1 (Some tint) "" s2 = None.
Proof.
  intros s.
  assert (RecursionLimit s < 2 ^ 63)%Z as Hmax by (by vm_compute).
  exact (track_budget s 1 (mkGraph false ∅) (Some tint) "" eq_refl eq_refl eq_refl Hmax).
Defined.

(** ** The helpers Resolve and MustResolve *)

Lemma Resolve_app factory xs ys s :
  Resolve factory (xs ++ ys) s
  = (err <- Resolve factory xs ;;
     match err with
     | Some err => ret (Some err)
     | None => Resolve factory ys
     end) s.
Proof.
  revert s. induction xs as [|x xs IH]; intros s; [reflexivity|].
  cbn [app Resolve]. unfold bind.
  destruct (factory x "" s) as [[[e|] s1]|]; [reflexivity | | reflexivity].
  rewrite IH. reflexivity.
Qed.

(** X26: [Resolve] resolves its targets from left to right under the empty
    name and stops at the first error, which it returns: the targets after
    it are not resolved, and [MustResolve] panics.  Resolving a list that is
    a concatenation is resolving its two parts one after the other. *)
Theorem Resolve_first_error factory xs ys s :
  Resolve factory (xs ++ ys) s
  = (err <- Resolve factory xs ;;
     match err with
     | Some err => ret (Some err)
     | None => Resolve factory ys
     end) s
  ∧ (∀ x err s1 s2,
       Resolve factory xs s = Some (None, s1) →
       factory x "" s1 = Some (Some err, s2) →
       Resolve factory (xs ++ x :: ys) s = Some (Some err, s2)
       ∧ MustResolve factory (xs ++ x :: ys) s = None)
  ∧ (∀ s1, Resolve factory xs s = Some (None, s1) →
       MustResolve factory xs s = Some (tt, s1)).
Proof.
  split; [apply Resolve_app|]. split.
  - intros x err s1 s2 Hxs Hx.
    assert (Resolve factory (xs ++ x :: ys) s = Some (Some err, s2)) as Hres.
    { rewrite Resolve_app. unfold bind at 1. rewrite Hxs. cbn [Resolve].
      unfold bind at 1. by rewrite Hx. }
    split; [exact Hres|]. unfold MustResolve, must. unfold bind. by rewrite Hres.
  - intros s1 Hxs. unfold MustResolve, must. unfold bind. by rewrite Hxs.
Qed.

(** The Values of [sample_stores] as a factory: the int is found, the
    string is not, and the second int variable is left as it was. *)
Lemma Resolve_first_error_witness :
  let s := with_var (with_var (with_var sample_stores 1 (int_value 0))
                       2 (VData "string" DZero)) 3 (int_value 0) in
  let factory := Values_ResolveNamed implements_nothing 2 in
  Resolve factory [Some (VPtr tint (Some 1)); Some (VPtr tstring (Some 2));
                   Some (VPtr tint (Some 3))] s
  = Some (Some (errInstanceNotFound (Some tstring) ""), with_var s 1 (int_value 1)).
Proof.
  intros s factory.
  destruct (Resolve_first_error factory [Some (VPtr tint (Some 1))]
              [Some (VPtr tint (Some 3))] s) as (_ & Hstop & _).
  exact (proj1 (Hstop (Some (VPtr tstring (Some 2)))
                  (errInstanceNotFound (Some tstring) "") (with_var s 1 (int_value 1))
                  (with_var s 1 (int_value 1)) eq_refl eq_refl)).
Defined.

(** ** A factory that resolves its own key *)

Lemma grows_refl s : grows s s.
Proof. by repeat split. Qed.

Lemma grows_trans s1 s2 s3 : grows s1 s2 → grows s2 s3 → grows s1 s3.
Proof.
  intros (? & ? & ? & ? & H12) (? & ? & ? & ? & H23).
  repeat split; try congruence. intros a x Ha. by apply H23, H12.
Qed.

Lemma grows_tracked s g G typ name : grows s (tracked s g G typ name).
Proof.
  destruct (tracked_frame s g G typ name) as (Hm & ? & ? & ? & ?).
  repeat split; try done. intros a x. by rewrite Hm.
Qed.

Lemma grows_alloc s v : grows s (state_upd_mem <[fresh_loc (mem s):=v]> s).
Proof.
  repeat split. intros a x Ha. cbn. rewrite lookup_insert_ne; [done|].
  intros <-. by rewrite fresh_loc_None in Ha.
Qed.

(** One level of the recursion: the attempt is allowed, the factory
    declares its variable and resolves into it, and the error [e] of that
    resolution comes back wrapped. *)
Lemma resolve_self_level I fuel resolver reg t name l old s G e s3 :
  registries_wf s → is_Some (registries s !! c_r (dr_c resolver)) →
  registered s (c_r (dr_c resolver)) (Some t) name = Some reg →
  r_Type reg = Some t → r_Name reg = name → r_Lifetime reg = PerRequest →
  r_CreateInstanceFn reg = Some (resolve_self t name) →
  Type_Kind t ≠ Ptr → ¬ reserved t name → mem s !! l = Some old →
  graphs s !! dr_g resolver = Some G → g_m G = false →
  limit_hit s G (Some t) name = false →
  let s1 := tracked s (dr_g resolver) G (Some t) name in
  let v := fresh_loc (mem s1) in
  resolver_ResolveNamed I fuel resolver (Some (VPtr t (Some v))) name
    (state_upd_mem <[v:=zero t]> s1) = Some (Some e, s3) →
  resolver_ResolveNamed I (S fuel) resolver (Some (VPtr t (Some l))) name s
  = Some (Some (errCreateInstance (Some t) name e), s3).
Proof.
  intros Hwf Hr Hreg Hty Hname Hlife Hfn Hk Hres Hl Hg Hm Hhit s1 v Hnested.
  rewrite (resolver_ResolveNamed_var I fuel resolver t l old name s Hwf Hr Hk Hl Hres).
  rewrite Hreg, Hlife.
  destruct (decide (PerRequest = PerContainer)) as [?|_]; [done|].
  destruct (decide (PerRequest = PerScope)) as [?|_]; [done|].
  destruct (decide (PerRequest = PerRequest)) as [_|?]; [|done].
  unfold bind at 1.
  rewrite (resolvePerRequestLifetime_eq I _ resolver reg s G Hg Hm).
  cbn zeta. rewrite Hty, Hname, Hhit. fold s1.
  rewrite (CreateInstance_eq I _ reg resolver s1 (resolve_self t name) None (Some e) s3 Hfn).
  - by rewrite Hty, Hname.
  - unfold resolve_self. cbn [call_factory]. unfold bind at 1.
    unfold alloc. unfold bind at 1. unfold gets at 1. unfold bind at 1.
    unfold modify at 1. unfold ret at 1. fold v.
    unfold bind at 1. by rewrite Hnested.
Qed.

Lemma resolve_self_nested I resolver reg t name (j : nat) :
  r_Type reg = Some t → r_Name reg = name → r_Lifetime reg = PerRequest →
  r_CreateInstanceFn reg = Some (resolve_self t name) →
  Type_Kind t ≠ Ptr → ¬ reserved t name →
  ∀ fuel s l old G (k : Z),
    registries_wf s → is_Some (registries s !! c_r (dr_c resolver)) →
    registered s (c_r (dr_c resolver)) (Some t) name = Some reg →
    mem s !! l = Some old →
    graphs s !! dr_g resolver = Some G → g_m G = false →
    count_of G (Some t) name = Some k → (0 ≤ k)%Z →
    (k + Z.of_nat j + 1 < 2 ^ 63)%Z →
    (0 < j → (k + Z.of_nat j < RecursionLimit s)%Z) →
    (RecursionLimit s ≤ k + Z.of_nat j + 1)%Z →
    j ≤ fuel →
    ∃ s',
      resolver_ResolveNamed I (S fuel) resolver (Some (VPtr t (Some l))) name s
      = Some (Some (Nat.iter j (errCreateInstance (Some t) name)
                      (errResolveInfiniteRecursion (Some t) name)), s')
      ∧ grows s s'.
Proof.
  intros Hty Hname Hlife Hfn Hk Hres.
  induction j as [|j IH];
    intros fuel s l old G k Hwf Hr Hreg Hl Hg Hm Hc Hk0 Hmax Hlim Hstop Hfuel.
  - (* the attempt that is refused *)
    assert (int_add k 1 = (k + 1)%Z) as Hadd by (apply int_add_small; lia).
    assert (limit_hit s G (Some t) name = true) as Hhit.
    { unfold limit_hit. rewrite Hc, Hadd. apply Z.leb_le. lia. }
    exists (tracked s (dr_g resolver) G (Some t) name). split; [|apply grows_tracked].
    rewrite (resolver_ResolveNamed_var I fuel resolver t l old name s Hwf Hr Hk Hl Hres).
    rewrite Hreg, Hlife.
    destruct (decide (PerRequest = PerContainer)) as [?|_]; [done|].
    destruct (decide (PerRequest = PerScope)) as [?|_]; [done|].
    destruct (decide (PerRequest = PerRequest)) as [_|?]; [|done].
    unfold bind at 1.
    rewrite (resolvePerRequestLifetime_eq I _ resolver reg s G Hg Hm).
    cbn zeta. by rewrite Hty, Hname, Hhit.
  - (* an attempt that is allowed *)
    destruct fuel as [|fuel]; [lia|].
    assert (int_add k 1 = (k + 1)%Z) as Hadd by (apply int_add_small; lia).
    assert (limit_hit s G (Some t) name = false) as Hhit.
    { unfold limit_hit. rewrite Hc, Hadd. apply Z.leb_gt.
      assert (k + Z.of_nat (S j) < RecursionLimit s)%Z by (apply Hlim; lia). lia. }
    set (s1 := tracked s (dr_g resolver) G (Some t) name).
    set (v := fresh_loc (mem s1)).
    set (s2 := state_upd_mem <[v:=zero t]> s1).
    pose proof (tracked_graph s (dr_g resolver) G (Some t) name) as Hg1.
    rewrite Hhit in Hg1.
    pose proof (grows_tracked s (dr_g resolver) G (Some t) name) as Hgr1.
    pose proof (grows_alloc s1 (zero t)) as Hgr2.
    pose proof (grows_trans _ _ _ Hgr1 Hgr2) as (Hv2 & Hr2 & Hn2 & Hl2 & Hm2).
    destruct (IH fuel s2 v (zero t)
                (mkGraph false (set_count (g_lookup G) (Some t) name
                                  (next_count G (Some t) name)))
                (k + 1)%Z) as (s3 & Hnested & Hgr3).
    + by apply (registries_wf_same s).
    + assert (registries s2 = registries s) as -> by exact Hr2. done.
    + by rewrite (registered_same s s2).
    + cbn. apply lookup_insert_eq.
    + exact Hg1.
    + reflexivity.
    + rewrite count_of_set_count. unfold next_count. by rewrite Hc, Hadd.
    + lia.
    + lia.
    + intros Hj. assert (RecursionLimit s2 = RecursionLimit s) as -> by exact Hl2.
      assert (k + Z.of_nat (S j) < RecursionLimit s)%Z by (apply Hlim; lia). lia.
    + assert (RecursionLimit s2 = RecursionLimit s) as -> by exact Hl2. lia.
    + lia.
    + exists s3. split.
      * exact (resolve_self_level I (S fuel) resolver reg t name l old s G _ s3 Hwf Hr Hreg
                 Hty Hname Hlife Hfn Hk Hres Hl Hg Hm Hhit Hnested).
      * eapply grows_trans; [|exact Hgr3]. by eapply grows_trans.
Qed.

(** X25: a factory that resolves its own key does not loop.  Resolving a
    per-request registration with such a factory through a container ends
    after max(1, limit - 1) nested calls of the factory: the innermost
    resolution fails with InfiniteRecursion, every factory call on the way
    back wraps the error as CreateInstanceFailed, and the target, the stores
    and the registries are left as they were. *)
Theorem resolve_self_detected I fuel c reg t name l old s :
  registries_wf s → is_Some (registries s !! c_r c) →
  registry_get (c_r c) (Some t) name s = Some (Some reg, s) →
  r_Type reg = Some t → r_Name reg = name → r_Lifetime reg = PerRequest →
  r_CreateInstanceFn reg = Some (resolve_self t name) →
  Type_Kind t ≠ Ptr → ¬ reserved t name → mem s !! l = Some old →
  (RecursionLimit s < 2 ^ 63)%Z →
  let depth := Z.to_nat (Z.max 1 (RecursionLimit s - 1)) in
  depth ≤ fuel →
  ∃ s',
    Container_ResolveNamed I (S fuel) c (Some (VPtr t (Some l))) name s
    = Some (Some (Nat.iter depth (errCreateInstance (Some t) name)
                    (errResolveInfiniteRecursion (Some t) name)), s')
    ∧ grows s s' ∧ mem s' !! l = Some old.
Proof.
  intros Hwf Hr Hget Hty Hname Hlife Hfn Hk Hres Hl Hmax depth Hfuel.
  rewrite (registry_get_eq _ _ _ _ Hwf Hr) in Hget. injection Hget as Hreg.
  assert (∃ j, depth = S j) as [j Hj].
  { exists (Nat.pred depth). unfold depth. lia. }
  destruct fuel as [|fuel]; [lia|].
  rewrite Container_ResolveNamed_eq.
  set (g := fresh_loc (graphs s)). set (resolver := newDependencyResolver c g).
  set (s0 := with_graph s).
  assert (registries_wf s0) as Hwf0 by (by apply (registries_wf_same s)).
  assert (limit_hit s0 (mkGraph false ∅) (Some t) name = false) as Hhit.
  { unfold limit_hit, count_of. cbn.
    by rewrite (lookup_empty (M:=gmap reflect_Type) (Some t)). }
  set (s1 := tracked s0 g (mkGraph false ∅) (Some t) name).
  set (v := fresh_loc (mem s1)).
  set (s2 := state_upd_mem <[v:=zero t]> s1).
  pose proof (tracked_graph s0 g (mkGraph false ∅) (Some t) name) as Hg1.
  rewrite Hhit in Hg1.
  assert (grows s s0) as Hgr0 by (by repeat split).
  pose proof (grows_tracked s0 g (mkGraph false ∅) (Some t) name) as Hgr1.
  pose proof (grows_alloc s1 (zero t)) as Hgr2.
  pose proof (grows_trans _ _ _ (grows_trans _ _ _ Hgr0 Hgr1) Hgr2) as Hgr02.
  pose proof Hgr02 as (Hv2 & Hr2 & Hn2 & Hl2 & Hm2).
  destruct (resolve_self_nested I resolver reg t name j Hty Hname Hlife Hfn Hk Hres
              fuel s2 v (zero t)
              (mkGraph false (set_count ∅ (Some t) name
                                (next_count (mkGraph false ∅) (Some t) name)))
              1%Z) as (s3 & Hnested & Hgr3).
  - by apply (registries_wf_same s).
  - cbn [dr_c resolver]. assert (registries s2 = registries s) as -> by exact Hr2. done.
  - cbn [dr_c resolver]. by rewrite (registered_same s s2).
  - cbn. apply lookup_insert_eq.
  - exact Hg1.
  - reflexivity.
  - rewrite count_of_set_count. unfold next_count, count_of. cbn.
    by rewrite (lookup_empty (M:=gmap reflect_Type) (Some t)).
  - lia.
  - unfold depth in Hj. lia.
  - intros Hpos. assert (RecursionLimit s2 = RecursionLimit s) as -> by exact Hl2.
    unfold depth in Hj. lia.
  - assert (RecursionLimit s2 = RecursionLimit s) as -> by exact Hl2.
    unfold depth in Hj. lia.
  - lia.
  - exists s3. split.
    + rewrite Hj.
      exact (resolve_self_level I (S fuel) resolver reg t name l old s0 (mkGraph false ∅)
               _ s3 Hwf0 Hr Hreg Hty Hname Hlife Hfn Hk Hres Hl (with_graph_lookup s)
               eq_refl Hhit Hnested).
    + pose proof (grows_trans _ _ _ Hgr02 Hgr3) as Hgr. split; [exact Hgr|].
      by apply Hgr.
Qed.

(** Under the limit of 30 the factory of [sample_self] is entered 29
    times. *)
Lemma resolve_self_detected_witness :
  registries_wf sample_self
  ∧ ∃ s',
      Container_ResolveNamed implements_nothing 30 sample_root
        (Some (VPtr tint (Some 1))) "" sample_self
      = Some (Some (Nat.iter 29 (errCreateInstance (Some tint) "")
                      (errResolveInfiniteRecursion (Some tint) "")), s')
      ∧ mem s' !! 1 = Some (int_value 0).
Proof.
  split; [apply sample_with_wf|].
  assert (is_Some (registries sample_self !! c_r sample_root)) as Hr by (by eexists).
  assert (Type_Kind tint ≠ Ptr) as Hk by done.
  assert (RecursionLimit sample_self < 2 ^ 63)%Z as Hmax by (by vm_compute).
  assert (Z.to_nat (Z.max 1 (RecursionLimit sample_self - 1)) ≤ 29) as Hfuel
    by (vm_compute; lia).
  destruct (resolve_self_detected implements_nothing 29 sample_root
              (mkRegistration (Some tint) "" None (Some (resolve_self tint "")) PerRequest)
              tint "" 1 (int_value 0) sample_self (sample_with_wf _) Hr eq_refl
              eq_refl eq_refl eq_refl eq_refl Hk tint_not_reserved eq_refl Hmax Hfuel)
    as (s' & Hres & _ & Hl).
  exists s'. split; [exact Hres | exact Hl].
Defined.

(** ** What the factory returns *)

Lemma Value_read_mem' rv s s' w s1 :
  mem s' = mem s → Value_read rv s = Some (w, s1) → Value_read rv s' = Some (w, s').
Proof.
  intros Hm H. pose proof (Value_read_Some _ _ _ _ H) as [-> _].
  by apply (Value_read_mem rv s s').
Qed.

Lemma Value_IsNil_mem rv s s' b s1 :
  mem s' = mem s → Value_IsNil rv s = Some (b, s1) → Value_IsNil rv s' = Some (b, s').
Proof.
  intros Hm. unfold Value_IsNil. rewrite bind_Some. intros (w & s2 & Hr & Hk).
  unfold bind. rewrite (Value_read_mem' _ _ _ _ _ Hm Hr).
  unfold ret in *. by injection Hk as -> _.
Qed.

Lemma Value_Elem_mem rv s s' rv' s1 :
  mem s' = mem s → Value_Elem rv s = Some (rv', s1) → Value_Elem rv s' = Some (rv', s').
Proof.
  intros Hm. unfold Value_Elem. rewrite bind_Some. intros (w & s2 & Hr & Hk).
  unfold bind. rewrite (Value_read_mem' _ _ _ _ _ Hm Hr).
  destruct (Value_Type rv) as [| |e]; try discriminate.
  destruct w as [| e' [p|] |]; try discriminate.
  unfold ret in *. by injection Hk as -> _.
Qed.

Lemma nil_ptr_or_iface_mem rv s s' b s1 :
  mem s' = mem s → nil_ptr_or_iface rv s = Some (b, s1) →
  nil_ptr_or_iface rv s' = Some (b, s').
Proof.
  intros Hm. unfold nil_ptr_or_iface. destruct (Value_Kind rv).
  - by apply Value_IsNil_mem.
  - by apply Value_IsNil_mem.
  - unfold ret. by intros [= -> _].
Qed.

Lemma GetNamedInstance_loop_mem t rv name s s' r s1 :
  mem s' = mem s →
  GetNamedInstance_loop t rv name s = Some (r, s1) →
  GetNamedInstance_loop t rv name s' = Some (r, s').
Proof.
  intros Hm. revert rv. induction t as [n|n|e IH]; intros rv; cbn.
  - unfold ret. by intros [= -> _].
  - unfold ret. by intros [= -> _].
  - rewrite bind_Some. intros (rv1 & s2 & He & Hk).
    pose proof (Value_Elem_Some _ _ _ _ He) as [-> _].
    apply bind_Some in Hk as (b & s3 & Hn & Hk).
    pose proof (nil_ptr_or_iface_Some _ _ _ _ Hn) as ->.
    unfold bind at 1. rewrite (Value_Elem_mem _ _ _ _ _ Hm He).
    unfold bind at 1. rewrite (nil_ptr_or_iface_mem _ _ _ _ _ Hm Hn).
    destruct b; [unfold ret in *; by injection Hk as -> _|].
    by apply IH.
Qed.

(** [GetNamedInstance] depends on the variables only. *)
Lemma GetNamedInstance_mem v name s s' r s1 :
  mem s' = mem s →
  GetNamedInstance v name s = Some (r, s1) →
  GetNamedInstance v name s' = Some (r, s').
Proof.
  intros Hm. destruct v as [x|]; cbn.
  - rewrite bind_Some. intros (b & s2 & Hn & Hk).
    pose proof (nil_ptr_or_iface_Some _ _ _ _ Hn) as ->.
    unfold bind at 1. rewrite (nil_ptr_or_iface_mem _ _ _ _ _ Hm Hn).
    destruct b; [unfold ret in *; by injection Hk as -> _|].
    by eapply GetNamedInstance_loop_mem.
  - unfold ret. by intros [= -> _].
Qed.

(** X21: an error of the factory is not kept.  When a resolution through a
    container reaches the factory of a registration (per-request, or a
    singleton that is not in its store), the key has been counted once in
    the graph of the call; if the run of the factory, whatever it does,
    ends with an error, the resolution fails with CreateInstanceFailed
    carrying that error, and its final state is the one the factory left:
    the resolution writes nothing to the target and keeps no instance for
    the key.  For a factory that returns its error without resolving
    anything, the count is therefore all that has changed, and a further
    resolution runs the factory again and fails in the same way. *)
Theorem ResolveNamed_factory_error I fuel c reg t name l old s fn :
  let target := Some (VPtr t (Some l)) in
  let counted s :=
    put_graph (fresh_loc (graphs s)) (mkGraph false {[Some t := {[name := 1%Z]}]}) s in
  let resolver :=
    newDependencyResolver
      (if decide (r_Lifetime reg = PerContainer) then root_of c else c)
      (fresh_loc (graphs s)) in
  registries_wf s → is_Some (registries s !! c_r c) →
  registry_get (c_r c) (Some t) name s = Some (Some reg, s) →
  r_Type reg = Some t → r_Name reg = name →
  r_CreateInstanceFn reg = Some fn →
  Type_Kind t ≠ Ptr → ¬ reserved t name → mem s !! l = Some old →
  r_Lifetime reg = PerRequest
  ∨ ((r_Lifetime reg = PerContainer ∨ r_Lifetime reg = PerScope)
     ∧ ∃ V, values s !! cache_of c (r_Lifetime reg) = Some V
            ∧ lookup2 (v_instances V) (Some t) name = None) →
  (∀ v cause s2,
     call_factory (resolver_ResolveNamed I fuel) fn resolver (counted s)
     = Some ((v, Some cause), s2) →
     Container_ResolveNamed I (S fuel) c target name s
     = Some (Some (errCreateInstance (Some t) name cause), s2))
  ∧ (∀ v cause, fn = FnReturn v (Some cause) →
     Container_ResolveNamed I (S fuel) c target name s
     = Some (Some (errCreateInstance (Some t) name cause), counted s)
     ∧ Container_ResolveNamed I (S fuel) c target name (counted s)
       = Some (Some (errCreateInstance (Some t) name cause), counted (counted s))).
Proof.
  intros target counted resolver Hwf Hr Hget Hty Hname Hfn Hk Hres Hl Hlife.
  rewrite (registry_get_eq _ _ _ _ Hwf Hr) in Hget. injection Hget as Hreg.
  assert (∀ s0 v cause s2,
            registries s0 = registries s → named s0 = named s →
            values s0 = values s → mem s0 = mem s →
            call_factory (resolver_ResolveNamed I fuel) fn
              (newDependencyResolver
                 (if decide (r_Lifetime reg = PerContainer) then root_of c else c)
                 (fresh_loc (graphs s0))) (counted s0)
            = Some ((v, Some cause), s2) →
            Container_ResolveNamed I (S fuel) c target name s0
            = Some (Some (errCreateInstance (Some t) name cause), s2))
    as Hany.
  { intros s0 v cause s2 Hr0 Hn0 Hv0 Hm0 Hcall. unfold target.
    destruct (resolve_created I fuel c reg t name l old s0)
      as (resolver0 & Hg0 & Hc0 & Hc0' & ->); try done.
    - by apply (registries_wf_same s).
    - by rewrite Hr0.
    - by rewrite (registered_same s s0).
    - by rewrite Hm0.
    - by rewrite Hv0.
    - assert (resolver0
              = newDependencyResolver
                  (if decide (r_Lifetime reg = PerContainer) then root_of c else c)
                  (fresh_loc (graphs s0))) as ->.
      { destruct resolver0 as [c0 g0]. cbn in Hg0, Hc0, Hc0'. subst g0.
        destruct (decide (r_Lifetime reg = PerContainer)) as [Hp|Hp];
          [by rewrite (Hc0' Hp) | by rewrite (Hc0 Hp)]. }
      unfold counted in Hcall. unfold bind at 1. unfold bind at 1.
      rewrite (CreateInstance_eq I _ reg _ _ _ v (Some cause) _ Hfn Hcall).
      rewrite Hty, Hname.
      by destruct (decide (r_Lifetime reg = PerRequest)). }
  split.
  - intros v cause s2 Hcall. by apply (Hany s v cause s2).
  - intros v cause ->. split; by apply (Hany _ v cause).
Qed.

(** X22: an interface is resolved to its implementation.  When a per-request
    registration is made for an interface type and its factory returns a
    value [x] of another type, a resolution into a variable of the interface
    type stores [x] in it provided the type of [x] implements the interface;
    otherwise it fails with InterfaceNotImplemented and the variable is left
    as it was. *)
Theorem ResolveNamed_interface I fuel c reg i name l old s x rv :
  let t := TInterface i in
  let counted :=
    put_graph (fresh_loc (graphs s)) (mkGraph false {[Some t := {[name := 1%Z]}]}) s in
  registries_wf s → is_Some (registries s !! c_r c) →
  registry_get (c_r c) (Some t) name s = Some (Some reg, s) →
  r_Type reg = Some t → r_Name reg = name → r_Lifetime reg = PerRequest →
  r_CreateInstanceFn reg = Some (FnReturn (Some x) None) →
  ¬ reserved t name → mem s !! l = Some old →
  GetNamedInstance (Some x) name s = Some (Ok rv, s) →
  Value_Type rv ≠ t → typeof x ≠ t →
  Container_ResolveNamed I (S fuel) c (Some (VPtr t (Some l))) name s
  = if I (typeof x) t
    then Some (None, with_var counted l (VIface i (dynamic x)))
    else Some (Some (errInterfaceNotImplemented (Some (typeof x)) name (Some t)), counted).
Proof.
  intros t counted Hwf Hr Hget Hty Hname Hlife Hfn Hres Hl Hinst Hrv Hx.
  rewrite (registry_get_eq _ _ _ _ Hwf Hr) in Hget. injection Hget as Hreg.
  assert (Type_Kind t ≠ Ptr) as Hk by done.
  destruct (resolve_created I fuel c reg t name l old s) as (resolver & _ & _ & _ & ->);
    try done; [by left|].
  fold counted. unfold bind at 1. unfold bind at 1.
  rewrite (CreateInstance_eq I _ reg resolver _ _ (Some x) None _ Hfn eq_refl).
  rewrite Hname.
  rewrite (GetNamedInstance_mem (Some x) name s counted _ _ eq_refl Hinst).
  unfold CreateInstance_result.
  destruct (decide (Some (Value_Type rv) = r_Type reg)) as [Heq|_].
  { rewrite Hty in Heq. by injection Heq. }
  rewrite Hty. unfold t at 1.
  destruct (decide (r_Lifetime reg = PerRequest)) as [_|?]; [|done].
  fold t. rewrite Hname.
  destruct (I (typeof x) t) eqn:Himpl; [|reflexivity].
  unfold ret at 1. unfold bind at 1.
  rewrite (Value_Set_Ref I t l (Copy x) counted x old Hl eq_refl).
  unfold assign. destruct (decide (typeof x = t)) as [?|_]; [done|].
  cbn. by rewrite Himpl.
Qed.

(** The failing per-scope factory of [sample_failing], resolved twice
    through the scoped container: the same error both times, and the stores
    and the variables as they were.  The factory of
    [sample_failing_dependency] resolves (int, "dep") into a new variable
    before it fails: the resolution fails with its error, nothing is kept
    for (int, "") and the target is as it was, while the variable that the
    factory declared, at address 2, is there and holds the dependency. *)
Lemma ResolveNamed_factory_error_witness :
  let s := sample_failing in
  let e := errCreateInstance (Some tint) "" (errorString "no instance") in
  registries_wf s
  ∧ (∃ s1 s2,
      Container_ResolveNamed implements_nothing 1 sample_scope
        (Some (VPtr tint (Some 1))) "" s = Some (Some e, s1)
      ∧ Container_ResolveNamed implements_nothing 1 sample_scope
          (Some (VPtr tint (Some 1))) "" s1 = Some (Some e, s2)
      ∧ values s2 = values s ∧ mem s2 = mem s)
  ∧ registries_wf sample_failing_dependency
  ∧ ∃ s2,
      Container_ResolveNamed implements_nothing 2 sample_scope
        (Some (VPtr tint (Some 1))) "" sample_failing_dependency = Some (Some e, s2)
      ∧ values s2 = values sample_failing_dependency
      ∧ mem s2 !! 1 = mem sample_failing_dependency !! 1
      ∧ mem sample_failing_dependency !! 2 = None
      ∧ mem s2 !! 2 = Some (int_value 5).
Proof.
  intros s e. split; [apply sample_with_wf|].
  assert (is_Some (registries s !! c_r sample_scope)) as Hr by (by eexists).
  assert (Type_Kind tint ≠ Ptr) as Hk by done.
  split.
  - destruct (ResolveNamed_factory_error implements_nothing 0 sample_scope
                (mkRegistration (Some tint) "" None
                   (Some (FnReturn None (Some (errorString "no instance")))) PerScope)
                tint "" 1 (int_value 0) s _
                (sample_with_wf _) Hr eq_refl eq_refl eq_refl eq_refl Hk
                tint_not_reserved eq_refl) as [_ Hfail].
    { right. split; [by right|]. exists (mkValues None ∅). by split. }
    destruct (Hfail None (errorString "no instance") eq_refl) as [H1 H2].
    eexists _, _. split; [exact H1|]. split; [exact H2|]. by split.
  - assert (registries_wf sample_failing_dependency) as Hwf.
    { apply (registries_wf_same
               (sample_with (mkRegistration (Some tint) "" None
                               (Some (fail_after tint "dep" (errorString "no instance")))
                               PerScope)));
        [reflexivity | reflexivity | apply sample_with_wf]. }
    split; [exact Hwf|].
    assert (is_Some (registries sample_failing_dependency !! c_r sample_scope)) as Hr'
      by (by eexists).
    destruct (ResolveNamed_factory_error implements_nothing 1 sample_scope
                (mkRegistration (Some tint) "" None
                   (Some (fail_after tint "dep" (errorString "no instance"))) PerScope)
                tint "" 1 (int_value 0) sample_failing_dependency _
                Hwf Hr' eq_refl eq_refl eq_refl eq_refl Hk
                tint_not_reserved eq_refl) as [Hrun _].
    { right. split; [by right|]. exists (mkValues None ∅). by split. }
    eexists. split; [apply (Hrun None); vm_compute; reflexivity|].
    split; [reflexivity|]. split; [reflexivity|]. split; reflexivity.
Defined.

(** The File of [sample_interface] resolved into the Writer variable. *)
Lemma ResolveNamed_interface_witness :
  let s := sample_interface in
  registries_wf s
  ∧ ∃ s', Container_ResolveNamed implements_writer 1 sample_root
            (Some (VPtr twriter (Some 2))) "" s = Some (None, s')
          ∧ mem s' !! 2 = Some (VIface "Writer" (Some (VData "File" (DInt 1)))).
Proof.
  intros s.
  assert (registries_wf s) as Hwf.
  { apply (registries_wf_same (sample_keyed twriter
             (mkRegistration (Some twriter) "" None
                (Some (FnReturn (Some (VData "File" (DInt 1))) None)) PerRequest)));
      [reflexivity | reflexivity | apply sample_keyed_wf]. }
  split; [exact Hwf|].
  assert (is_Some (registries s !! c_r sample_root)) as Hr by (by eexists).
  assert (¬ reserved twriter "") as Hres by (intros [_ [?|?]]; discriminate).
  assert (Value_Type (Copy (VData "File" (DInt 1))) ≠ twriter) as Hrv by done.
  assert (typeof (VData "File" (DInt 1)) ≠ twriter) as Hx by done.
  pose proof (ResolveNamed_interface implements_writer 0 sample_root
                (mkRegistration (Some twriter) "" None
                   (Some (FnReturn (Some (VData "File" (DInt 1))) None)) PerRequest)
                "Writer" "" 2 (VIface "Writer" None) s (VData "File" (DInt 1))
                (Copy (VData "File" (DInt 1)))
                Hwf Hr eq_refl eq_refl eq_refl eq_refl eq_refl Hres eq_refl eq_refl Hrv Hx)
    as H.
  eexists. split; [exact H|]. reflexivity.
Defined.

(** ** A factory with a dependency *)

Lemma call_factory_resolve_self nested t name factory s :
  call_factory nested (resolve_self t name) factory s =
    let v := fresh_loc (mem s) in
    match nested factory (Some (VPtr t (Some v))) name (state_upd_mem <[v:=zero t]> s) with
    | Some (Some e, s3) => Some ((None, Some e), s3)
    | Some (None, s3) =>
        match mem s3 !! v with
        | Some x => Some ((Some x, None), s3)
        | None => None
        end
    | None => None
    end.
Proof.
  unfold resolve_self. cbn [call_factory]. unfold alloc, load. munfold. cbn.
  destruct (nested _ _ _ _) as [[[e|] s3]|]; try reflexivity.
  cbn [call_factory]. unfold load. munfold.
  by destruct (mem s3 !! fresh_loc (mem s)).
Qed.

(** X27: a factory resolves its dependencies where its lifetime puts it.
    Take a registration whose factory resolves another name of its type and
    returns what it got, resolved through a scoped container whose Values
    hold that name while no registry and no other store does.  With the
    per-scope lifetime the factory is given the resolver of the scope: the
    dependency is found, and the target receives it.  With the
    per-container lifetime the factory is given a resolver of the root
    container, which does not see the Values of the scope: the dependency
    is not found, and the resolution fails with CreateInstanceFailed
    carrying UnresolvedDependency. *)
Theorem factory_dependency I fuel c reg t name dep l old s w VS VR V :
  let target := Some (VPtr t (Some l)) in
  registries_wf s →
  is_Some (registries s !! c_r c) → is_Some (registries s !! c_r (root_of c)) →
  registry_get (c_r c) (Some t) name s = Some (Some reg, s) →
  registry_get (c_r c) (Some t) dep s = Some (None, s) →
  registry_get (c_r (root_of c)) (Some t) dep s = Some (None, s) →
  r_Type reg = Some t → r_Name reg = name →
  r_CreateInstanceFn reg = Some (resolve_self t dep) →
  r_Lifetime reg = PerContainer ∨ r_Lifetime reg = PerScope →
  values s !! c_Values c = Some VS →
  lookup2 (v_instances VS) (Some t) dep = Some (Copy w) →
  values s !! c_Values (root_of c) = Some VR →
  lookup2 (v_instances VR) (Some t) dep = None →
  values s !! cache_of c (r_Lifetime reg) = Some V →
  lookup2 (v_instances V) (Some t) name = None →
  typeof w = t → Type_Kind t ≠ Ptr → is_nil w = false →
  ¬ reserved t name → ¬ reserved t dep → mem s !! l = Some old →
  (r_Lifetime reg = PerScope →
     ∃ s', Container_ResolveNamed I (S (S fuel)) c target name s = Some (None, s')
           ∧ mem s' !! l = Some w
           ∧ Values_get (c_instances c) (Some t) name s' = Some (Some (Copy w), s'))
  ∧ (r_Lifetime reg = PerContainer →
     ∃ s', Container_ResolveNamed I (S (S fuel)) c target name s
           = Some (Some (errCreateInstance (Some t) name
                           (errUnresolvedDependency (Some t) dep)), s')
           ∧ mem s' !! l = Some old ∧ values s' = values s).
Proof.
  intros target Hwf Hr Hrr Hget Hdep Hdepr Hty Hname Hfn Hlife HVS Hw HVR Hnone HV Hmiss
    Htw Hk Hnil Hres Hresd Hl.
  rewrite (registry_get_eq _ _ _ _ Hwf Hr) in Hget.
  rewrite (registry_get_eq _ _ _ _ Hwf Hr) in Hdep.
  rewrite (registry_get_eq _ _ _ _ Hwf Hrr) in Hdepr.
  injection Hget as Hreg. injection Hdep as Hdep. injection Hdepr as Hdepr.
  destruct (resolve_created I (S fuel) c reg t name l old s)
    as (resolver & Hg & Hnc & Hc & Heq); try done.
  { right. split; [done|]. eauto. }
  unfold target. rewrite Heq. clear Heq.
  set (s1 := put_graph (fresh_loc (graphs s))
               (mkGraph false {[Some t := {[name := 1%Z]}]}) s).
  set (v := fresh_loc (mem s1)).
  set (s2 := state_upd_mem <[v:=zero t]> s1).
  assert (registries_wf s2) as Hwf2 by (by apply (registries_wf_same s)).
  assert (mem s2 !! v = Some (zero t)) as Hv2 by (cbn; apply lookup_insert_eq).
  assert (v ≠ l) as Hvl.
  { intros Heq. rewrite <- Heq in Hl. unfold v in Hl.
    change (mem s1) with (mem s) in Hl. by rewrite fresh_loc_None in Hl. }
  assert (r_Lifetime reg ≠ PerRequest) as Hnreq.
  { intros Hreq. destruct Hlife as [H|H]; rewrite H in Hreq; done. }
  split.
  - (* per scope: the resolver of the scope *)
    intros Hscope.
    assert (dr_c resolver = c) as Hdc by (apply Hnc; rewrite Hscope; done).
    assert (cache_of c (r_Lifetime reg) = c_instances c) as Hcache.
    { unfold cache_of. rewrite Hscope. by destruct (decide _). }
    set (s3 := with_var s2 v w).
    assert (resolver_ResolveNamed I (S fuel) resolver (Some (VPtr t (Some v))) dep s2
            = Some (None, s3)) as Hnested.
    { rewrite (resolver_ResolveNamed_var I fuel resolver t v (zero t) dep s2); try done.
      - rewrite Hdc, (registered_same s s2), Hdep by done.
        unfold bind at 1.
        rewrite (proj2 (Values_get_Some (c_Values c) (Some t) dep s2 _ s2)
                   (ex_intro _ VS (conj HVS (conj eq_refl eq_refl)))), Hw.
        unfold bind at 1.
        rewrite (Value_Set_Ref I t v (Copy w) s2 w (zero t) Hv2 eq_refl).
        by rewrite assign_same.
      - by rewrite Hdc. }
    assert (mem s3 !! v = Some w) as Hv3 by (cbn; apply lookup_insert_eq).
    eexists. split.
    { unfold bind at 1. unfold bind at 1.
      rewrite (CreateInstance_eq I _ reg resolver s1 (resolve_self t dep) (Some w) None s3 Hfn).
      2:{ rewrite call_factory_resolve_self. cbn zeta. fold v s2. by rewrite Hnested, Hv3. }
      rewrite (GetNamedInstance_value w (r_Name reg) s3) by (by rewrite ?Htw).
      unfold CreateInstance_result. cbn [Value_Type].
      destruct (decide (Some (typeof w) = r_Type reg)) as [_|Hn];
        [|by rewrite Hty, Htw in Hn].
      destruct (decide (r_Lifetime reg = PerRequest)) as [?|_]; [done|].
      cbn [cache_result]. unfold bind at 1.
      rewrite (Values_set_eq _ _ _ _ _ V) by (by rewrite Hcache in *).
      unfold ret at 1. unfold bind at 1.
      rewrite (Value_Set_Ref I t l (Copy w) _ w old); [|cbn; by rewrite !lookup_insert_ne|reflexivity].
      rewrite assign_same by done. reflexivity. }
    split. { cbn. apply lookup_insert_eq. }
    apply Values_get_Some. eexists. split.
    + cbn. rewrite Hcache. apply lookup_insert_eq.
    + split; [done|]. cbn. rewrite Hty, Hname. by rewrite lookup2_insert2.
  - (* per container: a resolver of the root container *)
    intros Hcont.
    assert (dr_c resolver = root_of c) as Hdc by (by apply Hc).
    assert (resolver_ResolveNamed I (S fuel) resolver (Some (VPtr t (Some v))) dep s2
            = Some (Some (errUnresolvedDependency (Some t) dep), s2)) as Hnested.
    { rewrite (resolver_ResolveNamed_var I fuel resolver t v (zero t) dep s2); try done.
      - rewrite Hdc, (registered_same s s2), Hdepr by done.
        unfold bind at 1.
        by rewrite (proj2 (Values_get_Some (c_Values (root_of c)) (Some t) dep s2 _ s2)
                      (ex_intro _ VR (conj HVR (conj eq_refl eq_refl)))), Hnone.
      - by rewrite Hdc. }
    exists s2. split.
    { unfold bind at 1. unfold bind at 1.
      rewrite (CreateInstance_eq I _ reg resolver s1 (resolve_self t dep) None
                 (Some (errUnresolvedDependency (Some t) dep)) s2 Hfn).
      2:{ rewrite call_factory_resolve_self. cbn zeta. fold v s2. by rewrite Hnested. }
      rewrite Hty, Hname.
      by destruct (decide (r_Lifetime reg = PerRequest)). }
    split; [|done]. cbn. by rewrite lookup_insert_ne.
Qed.

(** In [sample_dependency] the per-scope factory finds 5 through the scope;
    the per-container factory does not. *)
Lemma factory_dependency_witness :
  let target := Some (VPtr tint (Some 1)) in
  let e := errCreateInstance (Some tint) "" (errUnresolvedDependency (Some tint) "dep") in
  registries_wf (sample_dependency PerScope)
  ∧ (∃ s', Container_ResolveNamed implements_nothing 2 sample_scope target ""
             (sample_dependency PerScope) = Some (None, s')
           ∧ mem s' !! 1 = Some (int_value 5))
  ∧ (∃ s', Container_ResolveNamed implements_nothing 2 sample_scope target ""
             (sample_dependency PerContainer) = Some (Some e, s')
           ∧ mem s' !! 1 = Some (int_value 0)).
Proof.
  intros target e.
  assert (∀ lifetime, registries_wf (sample_dependency lifetime)) as Hwf.
  { intros lifetime. apply (registries_wf_same (sample_with (dependent lifetime)));
      [reflexivity | reflexivity | apply sample_with_wf]. }
  assert (Type_Kind tint ≠ Ptr) as Hk by done.
  assert (¬ reserved tint "dep") as Hdep by (intros [? _]; discriminate).
  assert (∀ lifetime, is_Some (registries (sample_dependency lifetime) !! c_r sample_scope))
    as Hr by (intros; by eexists).
  assert (∀ lifetime,
            is_Some (registries (sample_dependency lifetime) !! c_r (root_of sample_scope)))
    as Hrr by (intros; by eexists).
  assert (lookup2 (v_instances root_values) (Some tint) "dep" = None) as Hnone
    by (by vm_compute).
  assert (lookup2 (v_instances (mkValues None ∅)) (Some tint) "" = None) as Hmiss
    by (by vm_compute).
  split; [apply Hwf|]. split.
  - destruct (factory_dependency implements_nothing 0 sample_scope (dependent PerScope)
                tint "" "dep" 1 (int_value 0) (sample_dependency PerScope) (int_value 5)
                scope_values root_values (mkValues None ∅)
                (Hwf _) (Hr _) (Hrr _) eq_refl eq_refl eq_refl eq_refl eq_refl eq_refl
                (or_intror eq_refl) eq_refl eq_refl eq_refl Hnone eq_refl Hmiss
                eq_refl Hk eq_refl tint_not_reserved Hdep eq_refl) as [Hscope _].
    destruct (Hscope eq_refl) as (s' & Hres & Hl & _). by exists s'.
  - destruct (factory_dependency implements_nothing 0 sample_scope (dependent PerContainer)
                tint "" "dep" 1 (int_value 0) (sample_dependency PerContainer) (int_value 5)
                scope_values root_values (mkValues None ∅)
                (Hwf _) (Hr _) (Hrr _) eq_refl eq_refl eq_refl eq_refl eq_refl eq_refl
                (or_introl eq_refl) eq_refl eq_refl eq_refl Hnone eq_refl Hmiss
                eq_refl Hk eq_refl tint_not_reserved Hdep eq_refl) as [_ Hcont].
    destruct (Hcont eq_refl) as (s' & Hres & Hl & _). by exists s'.
Defined.
